(** * local-hls-player: a shallow embedding of [server.js]

    The development follows the source file top to bottom:

    - [JsString]   JavaScript strings as sequences of UTF-16 code units and
                   the string methods the server calls;
    - [Codec]      [Buffer.from(..).toString("base64url")] and its inverse,
                   i.e. the opaque id codec ([idToRelPath]);
    - [Path]       the POSIX flavour of Node's [path] module as far as the
                   server uses it, [safeAbsFromRel], [absFromId] and the
                   segment endpoint;
    - [Catalog]    [walk], [buildIndexIfNeeded] and [GET /api/videos];
    - [Server]     the event-loop transition system of [ensureHls], the
                   manifest endpoint and the thumbnail endpoint;
    - [Thumbnail]  the seek position the thumbnail encoder is given;
    - [Browse]     [GET /api/browse].

    [Decoder], [Library] and [Quiescence] hold the predicates the theorems
    are stated with, [Examples] and [Scenarios] the concrete states.  The
    definitions of all parts come first, the theorems about them after the
    last definition. *)

From Stdlib Require Import ZArith Lia List Bool String Ascii.
From stdpp Require Import base option list gmap.
Import ListNotations.

Local Open Scope Z_scope.

(* ===================================================================== *)
(** * JavaScript strings *)
(* ===================================================================== *)

Module JsString.

(** A JavaScript string is a sequence of 16-bit code units. *)
Definition jsstring := list Z.

(** An ASCII literal as a JavaScript string. *)
Fixpoint js (s : string) : jsstring :=
  match s with
  | EmptyString => []
  | String a rest => Z.of_N (N_of_ascii a) :: js rest
  end.

Definition CHAR_FORWARD_SLASH : Z := 47.
Definition CHAR_BACKWARD_SLASH : Z := 92.
Definition CHAR_DOT : Z := 46.

Fixpoint str_eqb (a b : jsstring) : bool :=
  match a, b with
  | [], [] => true
  | x :: a', y :: b' => (x =? y) && str_eqb a' b'
  | _, _ => false
  end.

(** [s.startsWith(p)] *)
Fixpoint startsWith (s p : jsstring) : bool :=
  match p with
  | [] => true
  | y :: p' =>
      match s with
      | [] => false
      | x :: s' => (x =? y) && startsWith s' p'
      end
  end.

(** [s.endsWith(p)] *)
Definition endsWith (s p : jsstring) : bool :=
  startsWith (rev s) (rev p).

(** [s.includes(q)] *)
Fixpoint includes (s q : jsstring) : bool :=
  startsWith s q ||
  match s with
  | [] => false
  | _ :: s' => includes s' q
  end.

(** [s.replaceAll("\\", "/")] *)
Definition replaceAll_backslash (s : jsstring) : jsstring :=
  map (fun c => if c =? CHAR_BACKWARD_SLASH then CHAR_FORWARD_SLASH else c) s.

(** White space and line terminators removed by [String.prototype.trim]. *)
Definition is_js_space (c : Z) : bool :=
  ((9 <=? c) && (c <=? 13)) || (c =? 32) || (c =? 160) || (c =? 5760)
  || ((8192 <=? c) && (c <=? 8202)) || (c =? 8232) || (c =? 8233)
  || (c =? 8239) || (c =? 8287) || (c =? 12288) || (c =? 65279).

Fixpoint trimStart (s : jsstring) : jsstring :=
  match s with
  | [] => []
  | c :: s' => if is_js_space c then trimStart s' else s
  end.

Definition trim (s : jsstring) : jsstring :=
  rev (trimStart (rev (trimStart s))).

(** [String.prototype.toLowerCase] restricted to the ASCII letters; code
    units outside [A-Z] are kept.  The Unicode case tables are not part of
    the repository; the catalog takes the full function as a parameter and
    this one instantiates it on ASCII text. *)
Definition ascii_lower (c : Z) : Z :=
  if (65 <=? c) && (c <=? 90) then c + 32 else c.

Definition ascii_toLowerCase (s : jsstring) : jsstring := map ascii_lower s.

(** Surrogate classification and [String.prototype.isWellFormed]. *)
Definition is_high_surrogate (c : Z) : bool := (55296 <=? c) && (c <=? 56319).
Definition is_low_surrogate (c : Z) : bool := (56320 <=? c) && (c <=? 57343).

Fixpoint isWellFormed (s : jsstring) : bool :=
  match s with
  | [] => true
  | c :: rest =>
      (0 <=? c) && (c <? 65536) &&
      if is_high_surrogate c then
        match rest with
        | d :: rest' => is_low_surrogate d && isWellFormed rest'
        | [] => false
        end
      else negb (is_low_surrogate c) && isWellFormed rest
  end.

End JsString.

(* ===================================================================== *)
(** * The opaque id codec *)
(* ===================================================================== *)

Module Codec.
Import JsString.

Definition REPLACEMENT : Z := 65533.

(** ** UTF-8 ([Buffer.from(str)] and [buf.toString("utf8")]) *)

Definition utf8_1 (c : Z) : list Z := [c].

Definition utf8_2 (c : Z) : list Z :=
  [Z.lor 192 (Z.shiftr c 6); Z.lor 128 (Z.land c 63)].

Definition utf8_3 (c : Z) : list Z :=
  [Z.lor 224 (Z.shiftr c 12);
   Z.lor 128 (Z.land (Z.shiftr c 6) 63);
   Z.lor 128 (Z.land c 63)].

Definition utf8_4 (c : Z) : list Z :=
  [Z.lor 240 (Z.shiftr c 18);
   Z.lor 128 (Z.land (Z.shiftr c 12) 63);
   Z.lor 128 (Z.land (Z.shiftr c 6) 63);
   Z.lor 128 (Z.land c 63)].

Definition combine_surrogates (hi lo : Z) : Z :=
  65536 + Z.shiftl (hi - 55296) 10 + (lo - 56320).

(** [Buffer.from(str)]: the string written as UTF-8; a surrogate that is
    not part of a pair is written as U+FFFD. *)
Fixpoint utf8_encode (s : jsstring) : list Z :=
  match s with
  | [] => []
  | c :: rest =>
      if c <? 128 then utf8_1 c ++ utf8_encode rest
      else if c <? 2048 then utf8_2 c ++ utf8_encode rest
      else if is_high_surrogate c then
        match rest with
        | d :: rest' =>
            if is_low_surrogate d
            then utf8_4 (combine_surrogates c d) ++ utf8_encode rest'
            else utf8_3 REPLACEMENT ++ utf8_encode rest
        | [] => utf8_3 REPLACEMENT
        end
      else if is_low_surrogate c then utf8_3 REPLACEMENT ++ utf8_encode rest
      else utf8_3 c ++ utf8_encode rest
  end.

(** The code units of one decoded code point. *)
Definition utf16_units (cp : Z) : jsstring :=
  if cp <? 65536 then [cp]
  else [55296 + Z.shiftr (cp - 65536) 10; 56320 + Z.land (cp - 65536) 1023].

(** State of the decoder inside a multi-byte sequence: the code point so
    far, the continuation bytes still needed, and the bounds the next
    continuation byte has to respect. *)
Record utf8_state := Utf8State {
  u_cp : Z;
  u_needed : nat;
  u_lower : Z;
  u_upper : Z
}.

Inductive lead_result :=
| LeadEmit (cp : Z)
| LeadStart (st : utf8_state).

(** A byte read while no sequence is open. *)
Definition utf8_lead (b : Z) : lead_result :=
  if (0 <=? b) && (b <=? 127) then LeadEmit b
  else if (194 <=? b) && (b <=? 223) then
    LeadStart (Utf8State (Z.land b 31) 1 128 191)
  else if (224 <=? b) && (b <=? 239) then
    LeadStart (Utf8State (Z.land b 15) 2
                 (if b =? 224 then 160 else 128)
                 (if b =? 237 then 159 else 191))
  else if (240 <=? b) && (b <=? 244) then
    LeadStart (Utf8State (Z.land b 7) 3
                 (if b =? 240 then 144 else 128)
                 (if b =? 244 then 143 else 191))
  else LeadEmit REPLACEMENT.

(** [buf.toString("utf8")]: malformed input is replaced by U+FFFD, never
    refused.  A byte that cannot continue the open sequence closes it with
    U+FFFD and is then read again as a lead byte. *)
Fixpoint utf8_decode_from (st : option utf8_state) (bs : list Z) : jsstring :=
  match bs with
  | [] =>
      match st with
      | None => []
      | Some _ => [REPLACEMENT]
      end
  | b :: rest =>
      match st with
      | None =>
          match utf8_lead b with
          | LeadEmit cp => utf16_units cp ++ utf8_decode_from None rest
          | LeadStart st' => utf8_decode_from (Some st') rest
          end
      | Some s =>
          if (u_lower s <=? b) && (b <=? u_upper s) then
            let cp := Z.lor (Z.shiftl (u_cp s) 6) (Z.land b 63) in
            match u_needed s with
            | S (S n) => utf8_decode_from (Some (Utf8State cp (S n) 128 191)) rest
            | _ => utf16_units cp ++ utf8_decode_from None rest
            end
          else
            REPLACEMENT ::
            match utf8_lead b with
            | LeadEmit cp => utf16_units cp ++ utf8_decode_from None rest
            | LeadStart st' => utf8_decode_from (Some st') rest
            end
      end
  end.

Definition utf8_decode (bs : list Z) : jsstring := utf8_decode_from None bs.

(** ** base64url *)

(** The character of a 6-bit value in the URL-safe alphabet. *)
Definition b64url_char (v : Z) : Z :=
  if v <? 26 then 65 + v
  else if v <? 52 then 97 + (v - 26)
  else if v <? 62 then 48 + (v - 52)
  else if v =? 62 then 45
  else 95.

(** [buf.toString("base64url")]: no padding is written. *)
Fixpoint base64url_encode (bs : list Z) : jsstring :=
  match bs with
  | [] => []
  | [b0] =>
      [b64url_char (Z.shiftr b0 2);
       b64url_char (Z.shiftl (Z.land b0 3) 4)]
  | [b0; b1] =>
      [b64url_char (Z.shiftr b0 2);
       b64url_char (Z.lor (Z.shiftl (Z.land b0 3) 4) (Z.shiftr b1 4));
       b64url_char (Z.shiftl (Z.land b1 15) 2)]
  | b0 :: b1 :: b2 :: rest =>
      [b64url_char (Z.shiftr b0 2);
       b64url_char (Z.lor (Z.shiftl (Z.land b0 3) 4) (Z.shiftr b1 4));
       b64url_char (Z.lor (Z.shiftl (Z.land b1 15) 2) (Z.shiftr b2 6));
       b64url_char (Z.land b2 63)] ++ base64url_encode rest
  end.

(** The reader takes every code unit of the string by its low byte (the
    cast to [uint8_t] of Node's decoder): a unit above 255 is read as the
    character its low eight bits spell, U+0141 as [A] and U+013D as [=]. *)
Definition low_byte (c : Z) : Z := Z.land c 255.

(** The 6-bit value of a character; both the standard and the URL-safe
    alphabet are accepted when reading. *)
Definition unbase64 (c : Z) : option Z :=
  let b := low_byte c in
  if (65 <=? b) && (b <=? 90) then Some (b - 65)
  else if (97 <=? b) && (b <=? 122) then Some (b - 97 + 26)
  else if (48 <=? b) && (b <=? 57) then Some (b - 48 + 52)
  else if (b =? 43) || (b =? 45) then Some 62
  else if (b =? 47) || (b =? 95) then Some 63
  else None.

Definition CHAR_EQUALS : Z := 61.

(** The reader is lenient: characters outside the alphabets are skipped and
    reading stops at the first [=], both judged on the low byte. *)
Fixpoint sextets (s : jsstring) : list Z :=
  match s with
  | [] => []
  | c :: rest =>
      match unbase64 c with
      | Some v => v :: sextets rest
      | None => if low_byte c =? CHAR_EQUALS then [] else sextets rest
      end
  end.

Fixpoint bytes_of_sextets (vs : list Z) : list Z :=
  match vs with
  | v0 :: v1 :: v2 :: v3 :: rest =>
      [Z.lor (Z.shiftl v0 2) (Z.shiftr v1 4);
       Z.lor (Z.shiftl (Z.land v1 15) 4) (Z.shiftr v2 2);
       Z.lor (Z.shiftl (Z.land v2 3) 6) v3] ++ bytes_of_sextets rest
  | [v0; v1; v2] =>
      [Z.lor (Z.shiftl v0 2) (Z.shiftr v1 4);
       Z.lor (Z.shiftl (Z.land v1 15) 4) (Z.shiftr v2 2)]
  | [v0; v1] => [Z.lor (Z.shiftl v0 2) (Z.shiftr v1 4)]
  | _ => []
  end.

(** [Buffer.from(str, "base64url")]: never throws on a string. *)
Definition base64url_decode (s : jsstring) : list Z :=
  bytes_of_sextets (sextets s).

(** ** The id codec of the server *)

(** What the server hands out as an id: characters of the URL-safe alphabet
    only, in a number that unpadded base64 can have. *)
Definition is_url_char (c : Z) : bool :=
  ((65 <=? c) && (c <=? 90)) || ((97 <=? c) && (c <=? 122))
  || ((48 <=? c) && (c <=? 57)) || (c =? 45) || (c =? 95).

Definition is_base64url (id : jsstring) : bool :=
  forallb is_url_char id && negb (Z.of_nat (length id) mod 4 =? 1).

Definition is_byte (b : Z) : Prop := 0 <= b < 256.

(** [Buffer.from(rel).toString("base64url")] (lines 71 and 389). *)
Definition encodeId (rel : jsstring) : jsstring :=
  base64url_encode (utf8_encode rel).

(** [idToRelPath]: the [try] block cannot throw for a string argument, so
    the [catch] branch ([None], the source's [null]) is never taken. *)
Definition idToRelPath (id : jsstring) : option jsstring :=
  Some (utf8_decode (base64url_decode id)).

End Codec.

(* ===================================================================== *)
(** * Node's [path] module (POSIX flavour) and path safety *)
(* ===================================================================== *)

Module Path.
Import JsString Codec.

(** The pieces of a path between its [/] separators; [""] has the single
    empty piece. *)
Fixpoint split_slash (s : jsstring) : list jsstring :=
  match s with
  | [] => [[]]
  | c :: rest =>
      if c =? CHAR_FORWARD_SLASH then [] :: split_slash rest
      else
        match split_slash rest with
        | seg :: segs => (c :: seg) :: segs
        | [] => [[c]]
        end
  end.

Fixpoint join_slash (segs : list jsstring) : jsstring :=
  match segs with
  | [] => []
  | [seg] => seg
  | seg :: rest => seg ++ CHAR_FORWARD_SLASH :: join_slash rest
  end.

Definition DOT : jsstring := [CHAR_DOT].
Definition DOTDOT : jsstring := [CHAR_DOT; CHAR_DOT].

(** One piece pushed on the pieces kept so far (innermost first):
    empty pieces and [.] are dropped, [..] removes the piece before it, and
    climbs above the start only when [allowAboveRoot]. *)
Definition normalize_step (allowAboveRoot : bool)
    (stack : list jsstring) (seg : jsstring) : list jsstring :=
  if str_eqb seg [] || str_eqb seg DOT then stack
  else if str_eqb seg DOTDOT then
    match stack with
    | top :: below =>
        if str_eqb top DOTDOT
        then if allowAboveRoot then DOTDOT :: stack else stack
        else below
    | [] => if allowAboveRoot then [DOTDOT] else []
    end
  else seg :: stack.

Definition normalize_segments (allowAboveRoot : bool)
    (segs : list jsstring) : list jsstring :=
  rev (fold_left (normalize_step allowAboveRoot) segs []).

(** [normalizeString(path, allowAboveRoot, "/", isPosixPathSeparator)] *)
Definition normalizeString (path : jsstring) (allowAboveRoot : bool) : jsstring :=
  join_slash (normalize_segments allowAboveRoot (split_slash path)).

Definition isAbsolute (path : jsstring) : bool :=
  match path with
  | c :: _ => c =? CHAR_FORWARD_SLASH
  | [] => false
  end.

(** The right-to-left loop of [path.resolve]: arguments are prepended until
    an absolute one has been seen; empty arguments are skipped. *)
Fixpoint resolve_loop (rev_args : list jsstring) (resolvedPath : jsstring)
    : jsstring * bool :=
  match rev_args with
  | [] => (resolvedPath, false)
  | path :: more =>
      match path with
      | [] => resolve_loop more resolvedPath
      | _ =>
          let resolvedPath' := path ++ CHAR_FORWARD_SLASH :: resolvedPath in
          if isAbsolute path then (resolvedPath', true)
          else resolve_loop more resolvedPath'
      end
  end.

(** [path.resolve(...args)] with the working directory [cwd]. *)
Definition path_resolve (cwd : jsstring) (args : list jsstring) : jsstring :=
  let '(resolvedPath, resolvedAbsolute) := resolve_loop (rev args ++ [cwd]) [] in
  let normalized := normalizeString resolvedPath (negb resolvedAbsolute) in
  if resolvedAbsolute then CHAR_FORWARD_SLASH :: normalized
  else match normalized with
       | [] => DOT
       | _ => normalized
       end.

(** [path.normalize(path)] *)
Definition path_normalize (path : jsstring) : jsstring :=
  match path with
  | [] => DOT
  | _ =>
      let absolute := isAbsolute path in
      let trailingSeparator := endsWith path [CHAR_FORWARD_SLASH] in
      let normalized := normalizeString path (negb absolute) in
      match normalized with
      | [] =>
          if absolute then [CHAR_FORWARD_SLASH]
          else if trailingSeparator then [CHAR_DOT; CHAR_FORWARD_SLASH] else DOT
      | _ =>
          let withSep :=
            if trailingSeparator then normalized ++ [CHAR_FORWARD_SLASH]
            else normalized in
          if absolute then CHAR_FORWARD_SLASH :: withSep else withSep
      end
  end.

(** [path.join(...args)]: the non-empty arguments joined by [/], then
    normalized. *)
Definition path_join (args : list jsstring) : jsstring :=
  path_normalize
    (join_slash (List.filter (fun a => negb (str_eqb a [])) args)).

(** The last non-empty piece of a path: [path.basename(path)]. *)
Definition path_basename (path : jsstring) : jsstring :=
  List.last (List.filter (fun seg => negb (str_eqb seg [])) (split_slash path)) [].

(** The text before the last dot of a name, and the text from that dot on. *)
Fixpoint split_last_dot (name : jsstring) : option (jsstring * jsstring) :=
  match name with
  | [] => None
  | c :: rest =>
      match split_last_dot rest with
      | Some (pre, post) => Some (c :: pre, post)
      | None => if c =? CHAR_DOT then Some ([], name) else None
      end
  end.

(** [path.extname(path)]: empty when the last piece has no dot, starts
    with its only dot, or is [..]. *)
Definition path_extname (path : jsstring) : jsstring :=
  match split_last_dot (path_basename path) with
  | None => []
  | Some (pre, post) =>
      if str_eqb pre [] || (str_eqb pre DOT && str_eqb post DOT) then []
      else post
  end.

Fixpoint strip_common (a b : list jsstring) : list jsstring * list jsstring :=
  match a, b with
  | x :: a', y :: b' => if str_eqb x y then strip_common a' b' else (a, b)
  | _, _ => (a, b)
  end.

Definition nonempty_segments (p : jsstring) : list jsstring :=
  List.filter (fun seg => negb (str_eqb seg [])) (split_slash p).

(** [path.relative(from, to)]: one [..] for every piece of [from] below the
    common ancestor, then the remaining pieces of [to]. *)
Definition path_relative (cwd from to : jsstring) : jsstring :=
  let '(up, down) :=
    strip_common (nonempty_segments (path_resolve cwd [from]))
                 (nonempty_segments (path_resolve cwd [to])) in
  join_slash (map (fun _ => DOTDOT) up ++ down).

(** ** Configuration: the process environment (lines 9 and 12) *)

Record config := Config {
  cwd : jsstring;
  env_VIDEO_ROOT : option jsstring;
  env_CACHE_ROOT : option jsstring
}.

(** [process.env.X || dflt]: an unset or empty variable gives the default. *)
Definition env_or (v : option jsstring) (dflt : jsstring) : jsstring :=
  match v with
  | Some (c :: s) => c :: s
  | _ => dflt
  end.

Definition VIDEO_ROOT (cfg : config) : jsstring :=
  path_resolve (cwd cfg) [env_or (env_VIDEO_ROOT cfg) (js "./videos")].

Definition CACHE_ROOT (cfg : config) : jsstring :=
  path_resolve (cwd cfg) [env_or (env_CACHE_ROOT cfg) (js "./cache")].

Definition THUMB_DIR (cfg : config) : jsstring :=
  path_join [CACHE_ROOT cfg; js "thumbs"].

(** ** The files on disk *)

(** [fs.existsSync(p)] over the set of paths that exist. *)
Definition existsSync (disk : gset jsstring) (p : jsstring) : bool :=
  bool_decide (p ∈ disk).

(** ** Path safety (lines 87-92 and 409-415) *)

Definition safeAbsFromRel (cfg : config) (rel : jsstring) : option jsstring :=
  let safeRel := replaceAll_backslash rel in
  let abs := path_resolve (cwd cfg) [VIDEO_ROOT cfg; safeRel] in
  if negb (startsWith abs (VIDEO_ROOT cfg)) then None
  else Some abs.

(** [absFromId]; [!rel] holds for [null] and for the empty string. *)
Definition absFromId (cfg : config) (disk : gset jsstring) (id : jsstring)
    : option jsstring :=
  match idToRelPath id with
  | None | Some [] => None
  | Some rel =>
      let abs := path_resolve (cwd cfg)
                   [VIDEO_ROOT cfg; replaceAll_backslash rel] in
      if negb (startsWith abs (VIDEO_ROOT cfg)) then None
      else if existsSync disk abs then Some abs else None
  end.

(** ** Responses *)

Inductive body :=
| Empty
| Text (t : jsstring)
| VideoInfo (id name relPath hlsUrl : jsstring)
| FileStream (path : jsstring) (contentType : jsstring).

Record response := Response { status : Z; payload : body }.

(** ** [GET /api/video/:id] (lines 105-118) *)

Definition getVideo (cfg : config) (disk : gset jsstring) (id : jsstring)
    : response :=
  match idToRelPath id with
  | None | Some [] => Response 400 (Text (js "bad id"))
  | Some rel =>
      match safeAbsFromRel cfg rel with
      | None => Response 404 (Text (js "not found"))
      | Some abs =>
          if negb (existsSync disk abs) then Response 404 (Text (js "not found"))
          else Response 200
                 (VideoInfo id (path_basename abs) rel
                    (js "/api/hls/" ++ id ++ js "/index.m3u8"))
      end
  end.

(** ** [GET /api/hls/:id/:seg] (lines 338-358) *)

Definition getSegment (cfg : config) (disk : gset jsstring) (id seg : jsstring)
    : response :=
  if negb (endsWith seg (js ".ts")) then Response 404 Empty
  else
    let segPath := path_join [CACHE_ROOT cfg; id; seg] in
    if negb (existsSync disk segPath) then Response 404 Empty
    else Response 200 (FileStream segPath (js "video/mp2t")).

(** A piece as it occurs in a normalized path: not empty, not [.] or [..],
    and without separator. *)
Definition plain (seg : jsstring) : Prop :=
  seg <> [] /\ seg <> DOT /\ seg <> DOTDOT
  /\ Forall (fun c => c <> CHAR_FORWARD_SLASH) seg.

(** What lying inside a directory means: the directory itself or a path
    below it, piece by piece. *)
Definition inside (root p : jsstring) : Prop :=
  nonempty_segments root `prefix_of` nonempty_segments p.

#[export] Instance inside_dec (root p : jsstring) : Decision (inside root p).
Proof. unfold inside. apply _. Defined.

End Path.

(* ===================================================================== *)
(** * The catalog: [walk], [buildIndexIfNeeded], [GET /api/videos] *)
(* ===================================================================== *)

Module Catalog.
Import JsString Codec Path.

(** An entry of the index (line 72). *)
Record asset := Asset {
  id : jsstring;
  name : jsstring;
  relPath : jsstring
}.

(** What [readdirSync(dir, { withFileTypes: true })] finds: files, and
    directories whose own listing is [None] when reading them throws. *)
#[local] Unset Elimination Schemes.
Inductive dirent :=
| DFile (fname : jsstring)
| DDir (dname : jsstring) (items : option (list dirent)).
#[local] Set Elimination Schemes.

Definition VIDEO_EXTS : list jsstring :=
  [js ".mp4"; js ".mkv"; js ".mov"; js ".m4v"; js ".webm"].

Definition VIDEO_EXTS_has (ext : jsstring) : bool :=
  existsb (str_eqb ext) VIDEO_EXTS.

(** The TTL cache of the index (lines 62-63); [None] is [null]. *)
Record index_state := IndexState {
  indexCache : option (list asset);
  indexBuiltAt : Z
}.

Section Catalog.

(** [String.prototype.toLowerCase]; its Unicode tables are outside the
    repository. *)
Variable toLowerCase : jsstring -> jsstring.
Variable cfg : config.

(** [walk(dir, out)] (lines 43-59), for one entry of [dir]. *)
Fixpoint walk_entry (dir : jsstring) (out : list jsstring) (it : dirent)
    : list jsstring :=
  match it with
  | DFile fname =>
      let full := path_join [dir; fname] in
      let ext := toLowerCase (path_extname fname) in
      if VIDEO_EXTS_has ext then out ++ [full] else out
  | DDir dname items =>
      let full := path_join [dir; dname] in
      match items with
      | None => out
      | Some its => fold_left (walk_entry full) its out
      end
  end.

Definition walk (dir : jsstring) (items : option (list dirent))
    (out : list jsstring) : list jsstring :=
  match items with
  | None => out
  | Some its => fold_left (walk_entry dir) its out
  end.

(** The callback of [files.map] (lines 69-73). *)
Definition index_entry (abs : jsstring) : asset :=
  let rel := replaceAll_backslash (path_relative (cwd cfg) (VIDEO_ROOT cfg) abs) in
  let id := encodeId rel in
  Asset id (path_basename abs) rel.

(** [buildIndexIfNeeded] (lines 64-77) at time [now], [library] being the
    listing of [VIDEO_ROOT]. *)
Definition buildIndexIfNeeded (now : Z) (library : option (list dirent))
    (st : index_state) : list asset * index_state :=
  let rebuilt := map index_entry (walk (VIDEO_ROOT cfg) library []) in
  match indexCache st with
  | Some cached =>
      if now - indexBuiltAt st <? 20000 then (cached, st)
      else (rebuilt, IndexState (Some rebuilt) now)
  | None => (rebuilt, IndexState (Some rebuilt) now)
  end.

(** The text an asset is searched in (line 99). *)
Definition haystack (v : asset) : jsstring :=
  toLowerCase (name v ++ js " " ++ relPath v).

Definition matches (q : jsstring) (v : asset) : bool := includes (haystack v) q.

(** [String(req.query.q || "").trim().toLowerCase()] (line 96); an absent
    parameter is [None]. *)
Definition query_text (q : option jsstring) : jsstring :=
  toLowerCase (trim (env_or q [])).

(** Lines 98-101 over the index. *)
Definition search (q : jsstring) (index : list asset) : list asset :=
  let results :=
    match q with
    | [] => index
    | _ => List.filter (matches q) index
    end in
  firstn 300 results.

(** [GET /api/videos] (lines 95-102): the listing sent and the cache left. *)
Definition getVideos (now : Z) (library : option (list dirent))
    (st : index_state) (q : option jsstring) : list asset * index_state :=
  let q := query_text q in
  let '(index, st') := buildIndexIfNeeded now library st in
  (search q index, st').

End Catalog.

End Catalog.

(* ===================================================================== *)
(** * The server: [ensureHls], the manifest and thumbnail endpoints *)
(* ===================================================================== *)

(** The process is single-threaded: a callback runs to completion, then the
    promise reactions it queued run, and only then the next callback.  One
    such turn is one transition below.  The subprocesses and the file
    system are the environment; what they do arrives as events.

    A child that cannot be started reports it through its ['error'] event
    and Node then still emits ['close'] for it.  [mkdirSync] throws when the
    file system refuses the directory (a piece longer than the file system
    allows, a NUL, a file in the way, no permission); which directories it
    refuses is a parameter of the model, and the [catch] block of the
    executor (lines 275-278) is entered from there.  [spawn] is taken not to
    throw.  Argument lists of the children do not steer the control flow and
    are left out.  The process is taken to go on after a rejection that no
    handler catches. *)

Module Server.
Import JsString Codec Path.

Definition MAX_HLS : Z := 10000.
Definition MAX_THUMB : Z := 3.

(** The values a job promise is resolved with (lines 167, 172, 250, 262). *)
Inductive job_value :=
| Ready (outM3u8 : jsstring) (streaming : bool)
| Busy.

(** The reasons it is rejected with (lines 265, 272 and 277). *)
Inductive failure :=
| FfmpegFailed (code : Z)
| SpawnError
| MkdirError.    (* what [mkdirSync] threw on line 163 *)

Inductive promise_state :=
| Pending
| Fulfilled (v : job_value)
| Rejected (e : failure).

(** One call of the executor of [ensureHls]: its captured variables and the
    promise it settles. *)
Record job := Job {
  job_id : jsstring;
  absInput : jsstring;
  outM3u8 : jsstring;
  spawned : bool;
  released : bool;
  waitM3U8 : bool;          (* the 200 ms interval is armed *)
  promise : promise_state
}.

Inductive owner :=
| JobProbe (j : nat) (video : bool)   (* [probeCodec(absInput, "v" | "a")] *)
| JobEncoder (j : nat)                (* [ffmpeg] of job [j], line 236 *)
| ThumbProbe (rid : nat)              (* [ffprobe] of line 441 *)
| ThumbEncoder (rid : nat).           (* [ffmpeg] of line 475 *)

Inductive child_status :=
| Running
| Failed      (* ['error'] was emitted, ['close'] is still to come *)
| Closed.

Record child := Child {
  command : jsstring;
  child_owner : owner;
  child_status_of : child_status
}.

(** Where a request handler stands. *)
Inductive request :=
| AwaitJob (id : jsstring) (j : nat)   (* at [await ensureHls(..)], line 314 *)
| PollManifest (m3u8Path : jsstring)   (* in the interval of lines 320-327 *)
| ThumbWait (outJpg : jsstring)        (* thumbnail handler, children running *)
| Answered (r : response)
| Threw (e : failure).                 (* the handler's promise rejected;
                                          [server.js] wrote no response *)

Record server := Server {
  runningHls : Z;
  runningThumb : Z;
  hlsJobs : gmap jsstring nat;     (* id -> Promise, as index into [jobs] *)
  jobs : list job;
  children : list child;           (* pid = position *)
  requests : list request;         (* request id = position *)
  disk : gset jsstring
}.

Definition set_runningHls (n : Z) (s : server) : server :=
  Server n (runningThumb s) (hlsJobs s) (jobs s) (children s) (requests s) (disk s).
Definition set_runningThumb (n : Z) (s : server) : server :=
  Server (runningHls s) n (hlsJobs s) (jobs s) (children s) (requests s) (disk s).
Definition set_hlsJobs (m : gmap jsstring nat) (s : server) : server :=
  Server (runningHls s) (runningThumb s) m (jobs s) (children s) (requests s) (disk s).
Definition set_jobs (jbs : list job) (s : server) : server :=
  Server (runningHls s) (runningThumb s) (hlsJobs s) jbs (children s) (requests s) (disk s).
Definition set_children (cs : list child) (s : server) : server :=
  Server (runningHls s) (runningThumb s) (hlsJobs s) (jobs s) cs (requests s) (disk s).
Definition set_requests (rs : list request) (s : server) : server :=
  Server (runningHls s) (runningThumb s) (hlsJobs s) (jobs s) (children s) rs (disk s).
Definition set_disk (d : gset jsstring) (s : server) : server :=
  Server (runningHls s) (runningThumb s) (hlsJobs s) (jobs s) (children s) (requests s) d.

(** A state in the middle of a turn, with the job whose promise was settled
    in this turn and whose reactions are still queued. *)
Definition turn : Type := server * option nat.

(** What the event loop delivers. *)
Inductive event :=
| GetManifest (id : jsstring)        (* [GET /api/hls/:id/index.m3u8] *)
| GetThumb (id : jsstring)           (* [GET /api/thumb/:id.jpg] *)
| ChildError (pid : nat)             (* ['error'] of a child *)
| ChildClose (pid : nat) (code : Z)  (* ['close'] of a child *)
| IntervalTick (j : nat)             (* the interval of line 246 fires *)
| HandlerTick (rid : nat)            (* the interval of line 321 fires *)
| FsWrite (p : jsstring)             (* a file appears *)
| FsRemove (p : jsstring).           (* a file disappears *)

Definition FFPROBE : jsstring := js "ffprobe".
Definition FFMPEG : jsstring := js "ffmpeg".

(** The directories above [p]: the prefixes of [p] that a slash follows. *)
Fixpoint dirs_above (p : jsstring) : list jsstring :=
  match p with
  | [] => []
  | c :: rest =>
      (if c =? CHAR_FORWARD_SLASH then [[]] else [])
      ++ map (cons c) (dirs_above rest)
  end.

(** [fs.mkdirSync(p, { recursive: true })] when it returns: [p] exists, and
    so does every directory above it (the empty prefix stands for the root
    or the working directory, which are there already). *)
Definition mkdirSync (p : jsstring) (d : gset jsstring) : gset jsstring :=
  {[p]} ∪ list_to_set (List.filter (fun a => negb (bool_decide (a = []))) (dirs_above p)) ∪ d.

(** The disk after [ensureDir(p)] (lines 39-41) returned. *)
Definition ensured (p : jsstring) (d : gset jsstring) : gset jsstring :=
  if negb (existsSync d p) then mkdirSync p d else d.

(** [ensureDir] (lines 39-41): [None] when [mkdirSync] throws.  [throws]
    tells which directories the file system refuses, given what exists. *)
Definition ensureDir (throws : gset jsstring -> jsstring -> bool)
    (p : jsstring) (d : gset jsstring) : option (gset jsstring) :=
  if negb (existsSync d p) && throws d p then None else Some (ensured p d).

Definition spawn (cmd : jsstring) (o : owner) (s : server) : server :=
  set_children (children s ++ [Child cmd o Running]) s.

(** A child with a new status. *)
Definition set_child_status (st : child_status) (c : child) : child :=
  Child (command c) (child_owner c) st.

Definition add_job (jb : job) (s : server) : server :=
  set_jobs (jobs s ++ [jb]) s.

Definition add_request (r : request) (s : server) : server :=
  set_requests (requests s ++ [r]) s.

Definition update_job (j : nat) (f : job -> job) (s : server) : server :=
  set_jobs (alter f j (jobs s)) s.

Definition set_promise (p : promise_state) (jb : job) : job :=
  Job (job_id jb) (absInput jb) (outM3u8 jb) (spawned jb) (released jb)
      (waitM3U8 jb) p.
Definition set_released (jb : job) : job :=
  Job (job_id jb) (absInput jb) (outM3u8 jb) (spawned jb) true
      (waitM3U8 jb) (promise jb).
Definition set_spawned (jb : job) : job :=
  Job (job_id jb) (absInput jb) (outM3u8 jb) true (released jb)
      (waitM3U8 jb) (promise jb).
Definition set_waitM3U8 (b : bool) (jb : job) : job :=
  Job (job_id jb) (absInput jb) (outM3u8 jb) (spawned jb) (released jb)
      b (promise jb).

(** [resolve(v)] / [reject(e)] of job [j]: only a pending promise changes,
    and its reactions are queued for the end of the turn. *)
Definition settle (j : nat) (p : promise_state) (t : turn) : turn :=
  match jobs t.1 !! j with
  | Some jb =>
      match promise jb with
      | Pending => (update_job j (set_promise p) t.1, Some j)
      | _ => t
      end
  | None => t
  end.

Definition is_released (s : server) (j : nat) : bool :=
  match jobs s !! j with
  | Some jb => released jb
  | None => false
  end.

Section Server.

Variable cfg : config.

(** [resolveVideoPathById] is called on line 309 and defined nowhere in the
    file; its result is only handed to the children. *)
Variable resolveVideoPathById : jsstring -> jsstring.

(** The directories [mkdirSync] refuses to create, given what exists. *)
Variable mkdirSync_throws : gset jsstring -> jsstring -> bool.

Definition outDir_of (id : jsstring) : jsstring := path_join [CACHE_ROOT cfg; id].
Definition m3u8Path_of (id : jsstring) : jsstring :=
  path_join [outDir_of id; js "index.m3u8"].

(** The cache test of line 166, made after [ensureDir(outDir)] returned. *)
Definition manifest_cached (id : jsstring) (s : server) : bool :=
  existsSync (ensured (outDir_of id) (disk s)) (m3u8Path_of id).

(** ** [ensureHls] (lines 152-284) *)

(** The executor up to its first [await] (lines 157-177), and its [catch]
    (lines 275-278) when [ensureDir(outDir)] throws: [spawned] is still
    false there, so the counter is left alone and the job is rejected. *)
Definition executor_start (j : nat) (id absInput : jsstring) (s : server) : turn :=
  let outDir := outDir_of id in
  let outM3u8 := path_join [outDir; js "index.m3u8"] in
  let fresh := Job id absInput outM3u8 false false false in
  match ensureDir mkdirSync_throws outDir (disk s) with
  | None => (add_job (fresh (Rejected MkdirError)) s, Some j)
  | Some d =>
      let s := set_disk d s in
      if existsSync (disk s) outM3u8 then
        (add_job (fresh (Fulfilled (Ready outM3u8 false))) s, Some j)
      else if MAX_HLS <=? runningHls s then
        (add_job (fresh (Fulfilled Busy)) s, Some j)
      else
        (spawn FFPROBE (JobProbe j true)
           (add_job (fresh Pending) (set_runningHls (runningHls s + 1) s)),
         None)
  end.

(** The job of an executor that settles before its first [await]. *)
Definition settled_job (id : jsstring) (v : job_value) : job :=
  Job id (resolveVideoPathById id) (m3u8Path_of id) false false false
      (Fulfilled v).

(** The job of an executor that ends in its [catch] before its first
    [await]. *)
Definition failed_job (id : jsstring) (e : failure) : job :=
  Job id (resolveVideoPathById id) (m3u8Path_of id) false false false
      (Rejected e).

(** The synchronous part of [ensureHls]: the promise returned and the state
    at [return job]; the [finally] callback of line 282 is still queued. *)
Definition ensureHls (id absInput : jsstring) (s : server) : nat * turn :=
  match hlsJobs s !! id with
  | Some j => (j, (s, None))
  | None =>
      let j := length (jobs s) in
      let '(s1, settled) := executor_start j id absInput s in
      (j, (set_hlsJobs (<[id := j]> (hlsJobs s1)) s1, settled))
  end.

(** The executor after [await probeCodec(absInput, "v")] (line 178). *)
Definition executor_after_vprobe (j : nat) (s : server) : server :=
  spawn FFPROBE (JobProbe j false) s.

(** The executor after [await probeCodec(absInput, "a")] (lines 179-252). *)
Definition executor_after_aprobe (j : nat) (s : server) : server :=
  update_job j (fun jb => set_waitM3U8 true (set_spawned jb))
    (spawn FFMPEG (JobEncoder j) s).

(** The interval callback (lines 246-252). *)
Definition waitM3U8_tick (j : nat) (s : server) : turn :=
  match jobs s !! j with
  | Some jb =>
      if negb (released jb) && existsSync (disk s) (outM3u8 jb) then
        settle j (Fulfilled (Ready (outM3u8 jb) true))
          (update_job j (fun jb => set_waitM3U8 false (set_released jb)) s, None)
      else (s, None)
  | None => (s, None)
  end.

(** [p.on("close", ..)] (lines 255-267). *)
Definition encoder_close (j : nat) (code : Z) (s : server) : turn :=
  let s := set_runningHls (runningHls s - 1) s in
  let s := update_job j (set_waitM3U8 false) s in
  match jobs s !! j with
  | Some jb =>
      let t :=
        if negb (released jb) && existsSync (disk s) (outM3u8 jb) then
          settle j (Fulfilled (Ready (outM3u8 jb) false))
            (update_job j set_released s, None)
        else (s, None) in
      if negb (code =? 0) && negb (is_released t.1 j) then
        settle j (Rejected (FfmpegFailed code)) t
      else t
  | None => (s, None)
  end.

(** [p.on("error", ..)] (lines 269-273). *)
Definition encoder_error (j : nat) (s : server) : turn :=
  let s := set_runningHls (runningHls s - 1) s in
  let s := update_job j (set_waitM3U8 false) s in
  if negb (is_released s j) then settle j (Rejected SpawnError) (s, None)
  else (s, None).

(** ** The reactions queued on a job promise *)

(** The manifest handler after [await ensureHls(..)] (lines 315-327). *)
Definition resume (jbs : list job) (r : request) : request :=
  match r with
  | AwaitJob id j =>
      match promise <$> jbs !! j with
      | Some (Fulfilled Busy) => Answered (Response 202 Empty)
      | Some (Fulfilled (Ready _ _)) => PollManifest (m3u8Path_of id)
      | Some (Rejected e) => Threw e
      | _ => r
      end
  | _ => r
  end.

(** What a handler that awaited job [j] for [id] has come to, given the
    promise of the job: it waits while the promise is pending and has gone
    on with the result of the job once the promise is settled.  A ready job
    sends every handler into its own poll (lines 320-327), which ends with
    the manifest being streamed. *)
Definition outcome (id : jsstring) (j : nat) (p : promise_state) (q : request) : Prop :=
  match p with
  | Pending => q = AwaitJob id j
  | Fulfilled Busy => q = Answered (Response 202 Empty)
  | Fulfilled (Ready _ _) =>
      q = PollManifest (m3u8Path_of id)
      \/ q = Answered (Response 200
                 (FileStream (m3u8Path_of id) (js "application/vnd.apple.mpegurl")))
  | Rejected e => q = Threw e
  end.

(** Request [r] of state [s] is a handler that awaited job [j] for [id]. *)
Definition observes (id : jsstring) (j : nat) (s : server) (r : nat) : Prop :=
  exists jb q,
    jobs s !! j = Some jb /\ job_id jb = id
    /\ requests s !! r = Some q /\ outcome id j (promise jb) q.

(** The end of a turn: the [finally] callback of line 282 for the job that
    was settled, then the handlers that awaited it. *)
Definition drain (t : turn) : server :=
  let s := t.1 in
  let registry :=
    match t.2 with
    | Some j =>
        match jobs s !! j with
        | Some jb => delete (job_id jb) (hlsJobs s)
        | None => hlsJobs s
        end
    | None => hlsJobs s
    end in
  set_requests (resume (jobs s) <$> requests s) (set_hlsJobs registry s).

(** ** [GET /api/hls/:id/index.m3u8] (lines 306-336) *)

Definition getManifest (id : jsstring) (s : server) : server :=
  let absInput := resolveVideoPathById id in
  let '(j, (s1, settled)) := ensureHls id absInput s in
  drain (add_request (AwaitJob id j) s1, settled).

(** One firing of the handler's interval (lines 321-326) and the streaming
    of the manifest after it (lines 330-335). *)
Definition manifest_poll (rid : nat) (m3u8Path : jsstring) (s : server) : server :=
  if existsSync (disk s) m3u8Path then
    set_requests
      (<[rid := Answered (Response 200
                  (FileStream m3u8Path (js "application/vnd.apple.mpegurl")))]>
         (requests s)) s
  else s.

(** ** [GET /api/thumb/:id.jpg] (lines 418-491) *)

Definition getThumb (id : jsstring) (s : server) : server :=
  let rid := length (requests s) in
  match absFromId cfg (disk s) id with
  | None => add_request (Answered (Response 404 (Text (js "not found")))) s
  | Some abs =>
      let outJpg := path_join [THUMB_DIR cfg; id ++ js ".jpg"] in
      if existsSync (disk s) outJpg then
        add_request (Answered (Response 200 (FileStream outJpg (js "image/jpeg")))) s
      else if MAX_THUMB <=? runningThumb s then
        add_request (Answered (Response 202 Empty)) s
      else
        spawn FFPROBE (ThumbProbe rid)
          (add_request (ThumbWait outJpg)
             (set_runningThumb (runningThumb s + 1) s))
  end.

(** The handler after the duration probe (lines 454-475). *)
Definition thumb_after_probe (rid : nat) (s : server) : server :=
  spawn FFMPEG (ThumbEncoder rid) s.

(** A response written on [res]; what was sent first stays. *)
Definition answer (rid : nat) (f : jsstring -> response) (s : server) : server :=
  match requests s !! rid with
  | Some (ThumbWait outJpg) =>
      set_requests (<[rid := Answered (f outJpg)]> (requests s)) s
  | _ => s
  end.

Definition thumb_failed : response := Response 500 (Text (js "thumb failed")).

(** [p.on("close", ..)] (lines 477-485). *)
Definition thumb_close (rid : nat) (code : Z) (s : server) : server :=
  let s := set_runningThumb (runningThumb s - 1) s in
  answer rid
    (fun outJpg =>
       if (code =? 0) && existsSync (disk s) outJpg
       then Response 200 (FileStream outJpg (js "image/jpeg"))
       else thumb_failed) s.

(** [p.on("error", ..)] (lines 487-490). *)
Definition thumb_error (rid : nat) (s : server) : server :=
  answer rid (fun _ => thumb_failed)
    (set_runningThumb (runningThumb s - 1) s).

(** ** The transition function *)

Definition set_status (pid : nat) (st : child_status) (s : server) : server :=
  set_children (alter (set_child_status st) pid (children s)) s.

(** ['error'] of child [pid]: possible once, before anything else. *)
Definition on_error (pid : nat) (s : server) : option server :=
  match children s !! pid with
  | Some (Child _ o Running) =>
      let s := set_status pid Failed s in
      Some
        match o with
        | JobProbe j true => executor_after_vprobe j s
        | JobProbe j false => executor_after_aprobe j s
        | JobEncoder j => drain (encoder_error j s)
        | ThumbProbe rid => thumb_after_probe rid s
        | ThumbEncoder rid => thumb_error rid s
        end
  | _ => None
  end.

(** ['close'] of child [pid]: after a normal end or after ['error'].  The
    promise of a probe was already resolved if ['error'] came first. *)
Definition on_close (pid : nat) (code : Z) (s : server) : option server :=
  match children s !! pid with
  | Some (Child _ o st) =>
      match st with
      | Closed => None
      | _ =>
          let first := match st with Running => true | _ => false end in
          let s := set_status pid Closed s in
          Some
            match o with
            | JobProbe j true => if first then executor_after_vprobe j s else s
            | JobProbe j false => if first then executor_after_aprobe j s else s
            | JobEncoder j => drain (encoder_close j code s)
            | ThumbProbe rid => if first then thumb_after_probe rid s else s
            | ThumbEncoder rid => thumb_close rid code s
            end
      end
  | None => None
  end.

Definition step (s : server) (e : event) : option server :=
  match e with
  | GetManifest id => Some (getManifest id s)
  | GetThumb id => Some (getThumb id s)
  | ChildError pid => on_error pid s
  | ChildClose pid code => on_close pid code s
  | IntervalTick j =>
      match jobs s !! j with
      | Some jb => if waitM3U8 jb then Some (drain (waitM3U8_tick j s)) else None
      | None => None
      end
  | HandlerTick rid =>
      match requests s !! rid with
      | Some (PollManifest m3u8Path) => Some (manifest_poll rid m3u8Path s)
      | _ => None
      end
  | FsWrite p => Some (set_disk ({[p]} ∪ disk s) s)
  | FsRemove p => Some (set_disk (disk s ∖ {[p]}) s)
  end.

Fixpoint run (s : server) (es : list event) : option server :=
  match es with
  | [] => Some s
  | e :: es' =>
      match step s e with
      | Some s' => run s' es'
      | None => None
      end
  end.

(** The state after start-up (lines 24-27, 406-407 and 495): both calls of
    [ensureDir] returned, or the process would have ended there. *)
Definition init (files : gset jsstring) : server :=
  Server 0 0 ∅ [] [] []
    (ensured (CACHE_ROOT cfg) (ensured (THUMB_DIR cfg) files)).

Definition reachable (s : server) : Prop :=
  exists files es, run (init files) es = Some s.

End Server.

(** ** The invariant of the registry *)

Definition key (jb : job) : jsstring * promise_state := (job_id jb, promise jb).

Definition registry_inv (s : server) : Prop :=
  (forall id j, hlsJobs s !! id = Some j ->
     exists jb, jobs s !! j = Some jb /\ promise jb = Pending /\ job_id jb = id)
  /\ (forall j jb, jobs s !! j = Some jb -> promise jb = Pending ->
        hlsJobs s !! job_id jb = Some j).

(** What the body of a turn may have done to the jobs of [s]: changed
    captured variables, and settled at most one pending job. *)
Definition turn_ok (s : server) (t : turn) : Prop :=
  hlsJobs t.1 = hlsJobs s
  /\ match t.2 with
     | None => forall j', key <$> jobs t.1 !! j' = key <$> jobs s !! j'
     | Some j =>
         (exists jb jb',
             jobs s !! j = Some jb /\ promise jb = Pending
             /\ jobs t.1 !! j = Some jb' /\ job_id jb' = job_id jb
             /\ promise jb' <> Pending)
         /\ forall j', j' <> j -> key <$> jobs t.1 !! j' = key <$> jobs s !! j'
     end.

(** ** The invariant of the waiting handlers *)

(** A handler parked at [await ensureHls(..)] waits for a job that exists
    and is pending. *)
Definition waiting_inv (s : server) : Prop :=
  forall r id j, requests s !! r = Some (AwaitJob id j) ->
    exists jb, jobs s !! j = Some jb /\ promise jb = Pending.

(** Jobs stay where they are and keep their id, and a promise that is
    settled stays as it is. *)
Definition jobs_advance (jbs jbs' : list job) : Prop :=
  forall j jb, jbs !! j = Some jb ->
    exists jb', jbs' !! j = Some jb' /\ job_id jb' = job_id jb
                /\ (promise jb' = promise jb \/ promise jb = Pending).

Definition jobs_same (jbs jbs' : list job) : Prop :=
  forall j jb, jbs !! j = Some jb ->
    exists jb', jbs' !! j = Some jb' /\ job_id jb' = job_id jb
                /\ promise jb' = promise jb.

(** What a turn can do to a handler without resuming it. *)
Definition advances (q q' : request) : Prop :=
  q' = q
  \/ (exists m, q = PollManifest m
                /\ q' = Answered (Response 200
                             (FileStream m (js "application/vnd.apple.mpegurl"))))
  \/ (exists outJpg resp, q = ThumbWait outJpg /\ q' = Answered resp).

Definition requests_advance (rs rs' : list request) : Prop :=
  (forall r q, rs !! r = Some q -> exists q', rs' !! r = Some q' /\ advances q q')
  /\ (forall r q', rs' !! r = Some q' -> rs !! r = None ->
        forall id j, q' <> AwaitJob id j).

(** ** The invariant of the children *)

(** The job a child works for, if any. *)
Definition job_of_owner (o : owner) : option nat :=
  match o with
  | JobProbe j _ | JobEncoder j => Some j
  | ThumbProbe _ | ThumbEncoder _ => None
  end.

(** Every child of a job belongs to a job that exists; no two children of
    jobs have the same owner; while the video probe of a job runs the job
    has neither audio probe nor encoder, and while its audio probe runs it
    has no encoder. *)
Definition children_ok (n : nat) (cs : list child) : Prop :=
  (forall pid c j, cs !! pid = Some c -> job_of_owner (child_owner c) = Some j ->
                   (j < n)%nat)
  /\ (forall pid1 pid2 c1 c2,
        cs !! pid1 = Some c1 -> cs !! pid2 = Some c2 ->
        child_owner c1 = child_owner c2 ->
        is_Some (job_of_owner (child_owner c1)) -> pid1 = pid2)
  /\ (forall pid c j,
        cs !! pid = Some c -> child_owner c = JobProbe j true ->
        child_status_of c = Running ->
        forall pid' c', cs !! pid' = Some c' ->
          child_owner c' <> JobProbe j false /\ child_owner c' <> JobEncoder j)
  /\ (forall pid c j,
        cs !! pid = Some c -> child_owner c = JobProbe j false ->
        child_status_of c = Running ->
        forall pid' c', cs !! pid' = Some c' -> child_owner c' <> JobEncoder j).

Definition children_inv (s : server) : Prop :=
  children_ok (length (jobs s)) (children s).

End Server.

(* ===================================================================== *)
(** * Concrete configurations and states for the examples *)
(* ===================================================================== *)

Module Examples.
Import JsString Codec Path Catalog Server.

(** The configuration used in the examples: started in [/srv/app] with no
    environment variable set, so the library is [/srv/app/videos] and the
    cache [/srv/app/cache]. *)
Definition example_config : config := Config (js "/srv/app") None None.

(** The library of the examples: [foo/a.mp4] and [b/foo.mp4]. *)
Definition example_library : option (list dirent) :=
  Some [DDir (js "foo") (Some [DFile (js "a.mp4"); DFile (js "notes.txt")]);
        DDir (js "b") (Some [DFile (js "foo.mp4")])].

Definition asset_a : asset :=
  Asset (js "Zm9vL2EubXA0") (js "a.mp4") (js "foo/a.mp4").
Definition asset_foo : asset :=
  Asset (js "Yi9mb28ubXA0") (js "foo.mp4") (js "b/foo.mp4").

(** A stand-in for the missing [resolveVideoPathById]. *)
Definition example_resolve (id : jsstring) : jsstring :=
  match idToRelPath id with
  | Some rel =>
      path_resolve (cwd example_config)
        [VIDEO_ROOT example_config; rel]
  | None => []
  end.

(** A file system that refuses a directory with a piece of more than 255
    code units or with a NUL in its path. *)
Definition example_throws (d : gset jsstring) (p : jsstring) : bool :=
  existsb (fun piece => (255 <? length piece)%nat) (split_slash p)
  || existsb (Z.eqb 0) p.

(** The id of [a.mp4]. *)
Definition example_id : jsstring := js "YS5tcDQ".

Definition example_video : jsstring := js "/srv/app/videos/a.mp4".

(** A first manifest request and both probes done: the encoder runs. *)
Definition until_encoding : list event :=
  [GetManifest example_id; ChildClose 0 0; ChildClose 1 0].

Definition observe {A : Type} (files : gset jsstring) (es : list event)
    (f : server -> option A) : option A :=
  run example_config example_resolve example_throws (init example_config files) es ≫= f.

(** The state in which the encoder of the first job runs. *)
Definition encoding_state : server :=
  default (init example_config ∅)
    (run example_config example_resolve example_throws (init example_config ∅) until_encoding).

Definition encoding_job : job :=
  Job example_id (example_resolve example_id) (m3u8Path_of example_config example_id)
      true false true Pending.

(** The state after a first manifest request: its job is being probed. *)
Definition probing_state : server :=
  getManifest example_config example_resolve example_throws example_id (init example_config ∅).

Definition probing_job : job :=
  Job example_id (example_resolve example_id) (m3u8Path_of example_config example_id)
      false false false Pending.

(** A cache that already holds the manifest of [a.mp4], in its
    directory. *)
Definition cached_state : server :=
  init example_config
    {[outDir_of example_config example_id; m3u8Path_of example_config example_id]}.

(** All encode slots taken. *)
Definition full_state : server := Server MAX_HLS 0 ∅ [] [] [] ∅.

End Examples.

(* ===================================================================== *)
(** * What the decoder and the library are measured against *)
(* ===================================================================== *)

Module Decoder.
Import JsString Codec.

(** The code points a well-formed string can hold: everything up to
    U+10FFFF except the surrogates. *)
Definition scalar_value (cp : Z) : Prop :=
  0 <= cp < 55296 \/ 57344 <= cp < 1114112.

(** The invariant of an open multi-byte sequence: the bounds of the next
    continuation byte are such that every code point the sequence can end
    in is a scalar value. *)
Definition state_ok (st : utf8_state) : Prop :=
  128 <= u_lower st /\ u_upper st <= 191 /\ 0 <= u_cp st
  /\ exists k,
       match u_needed st with
       | 1%nat => k = 1
       | 2%nat => k = 64
       | 3%nat => k = 4096
       | _ => False
       end
       /\ let lo := (u_cp st * 64 + (u_lower st - 128)) * k in
          let hi := (u_cp st * 64 + (u_upper st - 128)) * k + (k - 1) in
          (hi < 55296 \/ 57344 <= lo) /\ hi < 1114112.

(** The character of the standard base64 alphabet for one of the URL-safe
    alphabet: [-] becomes [+] and [_] becomes [/]. *)
Definition to_standard_alphabet (c : Z) : Z :=
  if c =? 45 then 43 else if c =? 95 then 47 else c.

End Decoder.

Module Library.
Import JsString Codec Path Catalog.

#[export] Instance plain_dec (seg : jsstring) : Decision (plain seg).
Proof. unfold plain. apply _. Defined.

(** The absolute path with the pieces [ps] below the directory [root]. *)
Definition below (root : jsstring) (ps : list jsstring) : jsstring :=
  CHAR_FORWARD_SLASH :: join_slash (nonempty_segments root ++ ps).

(** A name as [readdir] reports it on a POSIX system, with the two
    restrictions under which the id of a file leads back to it: no
    backslash (line 70 turns it into a separator) and no lone surrogate. *)
Definition good_name (n : jsstring) : Prop :=
  plain n /\ Forall (fun c => c <> CHAR_BACKWARD_SLASH) n /\ isWellFormed n = true.

#[export] Instance good_name_dec (n : jsstring) : Decision (good_name n).
Proof. unfold good_name. apply _. Defined.

(** A name as [readdir] reports it that holds no backslash: lines 363, 385
    and 70 turn a backslash into a separator. *)
Definition tidy_name (n : jsstring) : Prop :=
  plain n /\ Forall (fun c => c <> CHAR_BACKWARD_SLASH) n.

#[export] Instance tidy_name_dec (n : jsstring) : Decision (tidy_name n).
Proof. unfold tidy_name. apply _. Defined.

Definition dirent_name (it : dirent) : jsstring :=
  match it with
  | DFile fname => fname
  | DDir dname _ => dname
  end.

(** [P] holds of every name in a tree. *)
Fixpoint dirent_names (P : jsstring -> Prop) (it : dirent) : Prop :=
  match it with
  | DFile fname => P fname
  | DDir dname items =>
      P dname /\
      match items with
      | None => True
      | Some its =>
          (fix all (l : list dirent) : Prop :=
             match l with
             | [] => True
             | x :: l' => dirent_names P x /\ all l'
             end) its
      end
  end.

Definition listing_names (P : jsstring -> Prop) (items : option (list dirent)) : Prop :=
  match items with
  | None => True
  | Some its => Forall (dirent_names P) its
  end.

(** Induction over a tree, with the hypothesis for every entry of a
    directory that could be read. *)
Fixpoint dirent_ind' (P : dirent -> Prop)
    (Hfile : forall n, P (DFile n))
    (Hdir : forall n items,
        match items with Some its => Forall P its | None => True end ->
        P (DDir n items))
    (it : dirent) : P it :=
  match it with
  | DFile n => Hfile n
  | DDir n items =>
      Hdir n items
        match items as o
              return match o with Some its => Forall P its | None => True end with
        | None => I
        | Some its =>
            (fix go (l : list dirent) : Forall P l :=
               match l with
               | [] => @List.Forall_nil _ P
               | x :: l' =>
                   @List.Forall_cons _ P x l' (dirent_ind' P Hfile Hdir x) (go l')
               end) its
        end
  end.

(** The files of a tree, in the order of the listing, each as the names
    that lead to it from the directory the tree lies in.  A directory that
    could not be read has none. *)
Fixpoint files_of (it : dirent) : list (list jsstring) :=
  match it with
  | DFile fname => [[fname]]
  | DDir dname None => []
  | DDir dname (Some its) => map (cons dname) (flat_map files_of its)
  end.

Definition library_files (items : option (list dirent)) : list (list jsstring) :=
  match items with
  | None => []
  | Some its => flat_map files_of its
  end.

(** The test of lines 53-54 on the last name of a path. *)
Definition is_video (toLowerCase : jsstring -> jsstring) (ps : list jsstring) : bool :=
  VIDEO_EXTS_has (toLowerCase (path_extname (List.last ps []))).

(** What [walk] may list below the root with pieces [rs]: a path whose
    further pieces are names of the tree and whose last piece has a video
    extension. *)
Definition listed (toLowerCase : jsstring -> jsstring) (rs : list jsstring)
    (full : jsstring) : Prop :=
  exists ps,
    full = CHAR_FORWARD_SLASH :: join_slash (rs ++ ps)
    /\ ps <> [] /\ Forall good_name ps
    /\ VIDEO_EXTS_has (toLowerCase (path_extname (List.last ps []))) = true.

End Library.

(* ===================================================================== *)
(** * The seek position of the thumbnail (lines 455-459) *)
(* ===================================================================== *)

Module Thumbnail.
Import JsString.

(** [String(n)] for an integer [0 <= n]: its decimal digits, the fuel
    bounding their number. *)
Fixpoint decimal_digits (fuel : nat) (n : Z) : jsstring :=
  match fuel with
  | O => []
  | S fuel' =>
      (if n <? 10 then [] else decimal_digits fuel' (n / 10)) ++ [48 + n mod 10]
  end.

Definition String_of_int (n : Z) : jsstring :=
  decimal_digits (S (Z.to_nat (Z.log2 n))) n.

(** [s.padStart(2, "0")] *)
Definition padStart2 (s : jsstring) : jsstring :=
  replicate (2 - length s) 48 ++ s.

Definition CHAR_COLON : Z := 58.

(** [Number.MAX_SAFE_INTEGER], 2^53 - 1: up to here every integer is a
    double. *)
Definition MAX_SAFE_INTEGER : Z := 9007199254740991.

(** Lines 456-459 for the integer [t = Math.floor(dur * 0.1)] of line 455.
    The code computes in doubles.  For [0 <= t <= MAX_SAFE_INTEGER] the
    quotients [t / 3600] and [(t % 3600) / 60] floor to the integer
    quotients, the remainders are exact and [String] writes plain decimal
    digits; that range is what the model covers.  Outside it ([None]) the
    doubles are no longer the integers, and from 1e21 on [String] writes an
    exponent. *)
Definition seek_position (t : Z) : option jsstring :=
  if (0 <=? t) && (t <=? MAX_SAFE_INTEGER) then
    let hh := padStart2 (String_of_int (t / 3600)) in
    let mm := padStart2 (String_of_int ((t mod 3600) / 60)) in
    let ss2 := padStart2 (String_of_int (t mod 60)) in
    Some (hh ++ [CHAR_COLON] ++ mm ++ [CHAR_COLON] ++ ss2)
  else None.

(** The number a string of decimal digits denotes. *)
Definition digits_value (s : jsstring) : Z :=
  fold_left (fun acc c => acc * 10 + (c - 48)) s 0.

Definition is_digit (c : Z) : Prop := 48 <= c <= 57.

End Thumbnail.

(* ===================================================================== *)
(** * [GET /api/browse] (lines 362-404) *)
(* ===================================================================== *)

Module Browse.
Import JsString Codec Path Catalog Library.

(** [s.replace(/^\/+/, "")] *)
Fixpoint strip_leading_slashes (s : jsstring) : jsstring :=
  match s with
  | [] => []
  | c :: s' => if c =? CHAR_FORWARD_SLASH then strip_leading_slashes s' else s
  end.

(** Line 363; an absent parameter is [None]. *)
Definition browse_dir (q : option jsstring) : jsstring :=
  strip_leading_slashes (replaceAll_backslash (env_or q [])).

(** Line 401; [None] is [null]. *)
Definition browse_parent (dir : jsstring) : option jsstring :=
  match dir with
  | [] => None
  | _ => Some (join_slash (removelast (split_slash dir)))
  end.

Record folder := Folder {
  folder_name : jsstring;
  folder_relPath : jsstring
}.

Inductive browse_result :=
| BrowseForbidden                     (* 403 *)
| BrowseNotFound                      (* 404 *)
| BrowseListing (dir : jsstring) (parent : option jsstring)
    (folders : list folder) (videos : list asset).

Section Browse.

Variable toLowerCase : jsstring -> jsstring.

(** [list.sort((a, b) => a.name.localeCompare(b.name, "zh-Hant"))] for a
    list of records with the given [name] field; the collation tables are
    outside the repository. *)
Variable sort_by_name : forall A : Type, (A -> jsstring) -> list A -> list A.

Variable cfg : config.

(** The directories of the file system: the listing of a path that exists
    and is a directory, [None] for any other path. *)
Variable readdir : jsstring -> option (list dirent).

(** The body of the loop of lines 377-396 for one entry. *)
Definition browse_entry (dir : jsstring) (acc : list folder * list asset)
    (it : dirent) : list folder * list asset :=
  match it with
  | DDir dname _ =>
      let relPath := replaceAll_backslash (path_join [dir; dname]) in
      (acc.1 ++ [Folder dname relPath], acc.2)
  | DFile fname =>
      let ext := toLowerCase (path_extname fname) in
      if negb (VIDEO_EXTS_has ext) then acc
      else
        let relPath := replaceAll_backslash (path_join [dir; fname]) in
        let id := encodeId relPath in
        (acc.1, acc.2 ++ [Asset id fname relPath])
  end.

(** The handler. *)
Definition browse (q : option jsstring) : browse_result :=
  let dir := browse_dir q in
  let absDir := path_resolve (cwd cfg) [VIDEO_ROOT cfg; dir] in
  if negb (startsWith absDir (VIDEO_ROOT cfg)) then BrowseForbidden
  else
    match readdir absDir with
    | None => BrowseNotFound
    | Some items =>
        let '(folders, videos) := fold_left (browse_entry dir) items ([], []) in
        BrowseListing dir (browse_parent dir)
          (sort_by_name folder folder_name folders)
          (sort_by_name asset name videos)
    end.

End Browse.

(** What the entries of a listing of the directory with pieces [ds] are
    compared with: the index entry of the same file, and the way back to
    the directory. *)
Definition video_ok (toLowerCase : jsstring -> jsstring) (cfg : config)
    (ds : list jsstring) (items : list dirent) (v : asset) : Prop :=
  index_entry cfg (below (VIDEO_ROOT cfg) (ds ++ [name v])) = v
  /\ In (DFile (name v)) items
  /\ VIDEO_EXTS_has (toLowerCase (path_extname (name v))) = true.

Definition folder_ok (ds : list jsstring) (items : list dirent) (f : folder) : Prop :=
  folder_relPath f = join_slash (ds ++ [folder_name f])
  /\ browse_parent (folder_relPath f) = Some (join_slash ds)
  /\ exists sub, In (DDir (folder_name f) sub) items.

End Browse.

(* ===================================================================== *)
(** * Further states and listings for the examples *)
(* ===================================================================== *)

Module Scenarios.
Import JsString Codec Path Catalog Server Examples.

(** The state after the events [es], started with the files [files]. *)
Definition state_after (files : gset jsstring) (es : list event) : server :=
  default (init example_config files)
    (run example_config example_resolve example_throws (init example_config files) es).

Definition example_manifest : jsstring := m3u8Path_of example_config example_id.

(** The encoder of the first job runs and has written its manifest. *)
Definition until_streaming : list event :=
  until_encoding ++ [FsWrite example_manifest].
Definition streaming_state : server := state_after ∅ until_streaming.

(** The interval has seen the manifest and released the job. *)
Definition until_released : list event := until_streaming ++ [IntervalTick 0].
Definition released_state : server := state_after ∅ until_released.

Definition released_job : job :=
  Job example_id (example_resolve example_id) example_manifest
      true true false (Fulfilled (Ready example_manifest true)).

(** A thumbnail request whose duration probe has ended: its encoder runs. *)
Definition until_thumb_encoding : list event :=
  [GetThumb example_id; ChildClose 0 0].
Definition thumb_encoding_state : server :=
  state_after {[example_video]} until_thumb_encoding.

Definition example_thumb : jsstring :=
  path_join [THUMB_DIR example_config; example_id ++ js ".jpg"].

(** The directory [foo] of the library as [readdir] lists it. *)
Definition foo_listing : list dirent :=
  [DFile (js "a.mp4"); DFile (js "notes.txt"); DDir (js "extras") None].

Definition example_readdir (p : jsstring) : option (list dirent) :=
  if str_eqb p (js "/srv/app/videos/foo") then Some foo_listing else None.

(** The sort on lists that are in order already, as the folders and the
    videos of [foo_listing] are. *)
Definition sort_in_order (A : Type) (name : A -> jsstring) (l : list A) : list A := l.

End Scenarios.

(* ===================================================================== *)
(** * Jobs that nothing can settle any more *)
(* ===================================================================== *)

Module Quiescence.
Import JsString Server.

(** None of the children of job [j] can emit an event the job reacts to:
    its probes do not run and its encoder is closed. *)
Definition quiet (j : nat) (cs : list child) : Prop :=
  forall pid c, cs !! pid = Some c ->
    job_of_owner (child_owner c) = Some j ->
    child_status_of c <> Running
    /\ (child_owner c = JobEncoder j -> child_status_of c = Closed).

(** Job [j] is the record [jb] and its children are quiet. *)
Definition silent (j : nat) (jb : job) (s : server) : Prop :=
  jobs s !! j = Some jb /\ quiet j (children s).

End Quiescence.

(* ===================================================================== *)
(** * Bit operations as arithmetic *)
(* ===================================================================== *)

Module BitFacts.

Lemma lor_add_low hi lo n :
  0 <= n -> 0 <= lo < 2 ^ n -> Z.lor (hi * 2 ^ n) lo = hi * 2 ^ n + lo.
Proof.
  intros Hn Hlo.
  rewrite <- Z.add_lor_land.
  assert (Z.land (hi * 2 ^ n) lo = 0) as ->; [|lia].
  apply Z.bits_inj'. intros i Hi.
  rewrite Z.land_spec, Z.bits_0.
  destruct (Z.lt_ge_cases i n).
  - rewrite Z.mul_pow2_bits_low by lia. reflexivity.
  - rewrite <- (Z.mod_small lo (2 ^ n)) by lia.
    rewrite Z.mod_pow2_bits_high by lia. apply andb_false_r.
Qed.

Lemma lor_128 x : 0 <= x < 64 -> Z.lor 128 x = 128 + x.
Proof. intros. apply (lor_add_low 1 x 7); lia. Qed.
Lemma lor_192 x : 0 <= x < 32 -> Z.lor 192 x = 192 + x.
Proof. intros. apply (lor_add_low 3 x 6); lia. Qed.
Lemma lor_224 x : 0 <= x < 16 -> Z.lor 224 x = 224 + x.
Proof. intros. apply (lor_add_low 7 x 5); lia. Qed.
Lemma lor_240 x : 0 <= x < 8 -> Z.lor 240 x = 240 + x.
Proof. intros. apply (lor_add_low 15 x 4); lia. Qed.

Lemma land_low a n : 0 <= n -> Z.land a (Z.ones n) = a mod 2 ^ n.
Proof. apply Z.land_ones. Qed.

Lemma land_3 a : Z.land a 3 = a mod 4.
Proof. apply (land_low a 2). lia. Qed.
Lemma land_7 a : Z.land a 7 = a mod 8.
Proof. apply (land_low a 3). lia. Qed.
Lemma land_15 a : Z.land a 15 = a mod 16.
Proof. apply (land_low a 4). lia. Qed.
Lemma land_31 a : Z.land a 31 = a mod 32.
Proof. apply (land_low a 5). lia. Qed.
Lemma land_63 a : Z.land a 63 = a mod 64.
Proof. apply (land_low a 6). lia. Qed.
Lemma land_1023 a : Z.land a 1023 = a mod 1024.
Proof. apply (land_low a 10). lia. Qed.

Lemma shiftr_2 a : Z.shiftr a 2 = a / 4.
Proof. apply (Z.shiftr_div_pow2 a 2). lia. Qed.
Lemma shiftr_4 a : Z.shiftr a 4 = a / 16.
Proof. apply (Z.shiftr_div_pow2 a 4). lia. Qed.
Lemma shiftr_6 a : Z.shiftr a 6 = a / 64.
Proof. apply (Z.shiftr_div_pow2 a 6). lia. Qed.
Lemma shiftr_10 a : Z.shiftr a 10 = a / 1024.
Proof. apply (Z.shiftr_div_pow2 a 10). lia. Qed.
Lemma shiftr_12 a : Z.shiftr a 12 = a / 4096.
Proof. apply (Z.shiftr_div_pow2 a 12). lia. Qed.
Lemma shiftr_18 a : Z.shiftr a 18 = a / 262144.
Proof. apply (Z.shiftr_div_pow2 a 18). lia. Qed.

Lemma shiftl_2 a : Z.shiftl a 2 = a * 4.
Proof. apply (Z.shiftl_mul_pow2 a 2). lia. Qed.
Lemma shiftl_4 a : Z.shiftl a 4 = a * 16.
Proof. apply (Z.shiftl_mul_pow2 a 4). lia. Qed.
Lemma shiftl_6 a : Z.shiftl a 6 = a * 64.
Proof. apply (Z.shiftl_mul_pow2 a 6). lia. Qed.
Lemma shiftl_10 a : Z.shiftl a 10 = a * 1024.
Proof. apply (Z.shiftl_mul_pow2 a 10). lia. Qed.

(** [hi << n | lo] as a sum, for the shifts that occur. *)
Lemma lor_mul_4 hi lo : 0 <= lo < 4 -> Z.lor (hi * 4) lo = hi * 4 + lo.
Proof. intros. apply (lor_add_low hi lo 2); lia. Qed.
Lemma lor_mul_16 hi lo : 0 <= lo < 16 -> Z.lor (hi * 16) lo = hi * 16 + lo.
Proof. intros. apply (lor_add_low hi lo 4); lia. Qed.
Lemma lor_mul_64 hi lo : 0 <= lo < 64 -> Z.lor (hi * 64) lo = hi * 64 + lo.
Proof. intros. apply (lor_add_low hi lo 6); lia. Qed.

Ltac arith := Z.div_mod_to_equations; lia.

Ltac shifts_to_arith :=
  rewrite ?shiftr_2, ?shiftr_4, ?shiftr_6, ?shiftr_10, ?shiftr_12, ?shiftr_18,
    ?shiftl_2, ?shiftl_4, ?shiftl_6, ?shiftl_10,
    ?land_3, ?land_7, ?land_15, ?land_31, ?land_63, ?land_1023.

Ltac lors_to_arith :=
  repeat first
    [ rewrite lor_128 by arith
    | rewrite lor_192 by arith
    | rewrite lor_224 by arith
    | rewrite lor_240 by arith
    | rewrite lor_mul_4 by arith
    | rewrite lor_mul_16 by arith
    | rewrite lor_mul_64 by arith ].

Ltac bits_to_arith := shifts_to_arith; lors_to_arith; shifts_to_arith; lors_to_arith.

End BitFacts.

(* ===================================================================== *)
(** * The id codec: round trip and malformed ids *)
(* ===================================================================== *)

Module CodecFacts.
Import JsString Codec BitFacts.

Ltac split_tests :=
  repeat match goal with
  | |- context [?a <=? ?b] => destruct (Z.leb_spec a b); try lia
  | |- context [?a <? ?b] => destruct (Z.ltb_spec a b); try lia
  | |- context [?a =? ?b] => destruct (Z.eqb_spec a b); try lia
  end.

Lemma low_byte_mod c : low_byte c = c mod 256.
Proof. unfold low_byte. change 255 with (Z.ones 8). rewrite Z.land_ones by lia. reflexivity. Qed.

Lemma low_byte_small c : 0 <= c < 256 -> low_byte c = c.
Proof. intros H. rewrite low_byte_mod. apply Z.mod_small. exact H. Qed.

Lemma unbase64_char v : 0 <= v < 64 -> unbase64 (b64url_char v) = Some v.
Proof.
  intros Hv. unfold unbase64.
  rewrite low_byte_small by (unfold b64url_char; split_tests; lia).
  cbv zeta. unfold b64url_char.
  split_tests; simpl; try lia; f_equal; lia.
Qed.


Lemma sextets_char v rest :
  0 <= v < 64 -> sextets (b64url_char v :: rest) = v :: sextets rest.
Proof. intros Hv. cbn [sextets]. rewrite unbase64_char by exact Hv. reflexivity. Qed.

Lemma base64url_roundtrip_bounded (n : nat) (bs : list Z) :
  (length bs <= n)%nat -> Forall is_byte bs ->
  base64url_decode (base64url_encode bs) = bs.
Proof.
  unfold base64url_decode. revert bs.
  induction n as [|n IH]; intros bs Hlen Hb.
  - destruct bs; [reflexivity | simpl in Hlen; lia].
  - destruct bs as [|b0 [|b1 [|b2 rest]]].
    + reflexivity.
    + apply Forall_cons_1 in Hb as [H0 _]. unfold is_byte in H0.
      cbn [base64url_encode].
      rewrite !sextets_char by (bits_to_arith; arith).
      cbn [sextets bytes_of_sextets]. f_equal.
      bits_to_arith. arith.
    + apply Forall_cons_1 in Hb as [H0 Hb].
      apply Forall_cons_1 in Hb as [H1 _]. unfold is_byte in H0, H1.
      cbn [base64url_encode].
      rewrite !sextets_char by (bits_to_arith; arith).
      cbn [sextets bytes_of_sextets].
      f_equal; [|f_equal]; bits_to_arith; arith.
    + apply Forall_cons_1 in Hb as [H0 Hb].
      apply Forall_cons_1 in Hb as [H1 Hb].
      apply Forall_cons_1 in Hb as [H2 Hb]. unfold is_byte in H0, H1, H2.
      cbn [base64url_encode app].
      rewrite !sextets_char by (bits_to_arith; arith).
      cbn [bytes_of_sextets app].
      rewrite IH; [| simpl in Hlen; lia | assumption].
      f_equal; [|f_equal; [|f_equal]]; bits_to_arith; arith.
Qed.

(** ** UTF-8 *)

Lemma utf16_units_bmp c : c < 65536 -> utf16_units c = [c].
Proof. intros. unfold utf16_units. destruct (Z.ltb_spec c 65536); [reflexivity | lia]. Qed.

Lemma continuation_step st c rest :
  u_lower st <= 128 + c mod 64 <= u_upper st ->
  utf8_decode_from (Some st) (Z.lor 128 (Z.land c 63) :: rest) =
  match u_needed st with
  | S (S n) =>
      utf8_decode_from
        (Some (Utf8State (u_cp st * 64 + c mod 64) (S n) 128 191)) rest
  | _ => utf16_units (u_cp st * 64 + c mod 64) ++ utf8_decode_from None rest
  end.
Proof.
  intros Hb. cbn [utf8_decode_from].
  assert (Z.lor 128 (Z.land c 63) = 128 + c mod 64) as ->
    by (bits_to_arith; arith).
  assert (Z.lor (Z.shiftl (u_cp st) 6) (Z.land (128 + c mod 64) 63)
          = u_cp st * 64 + c mod 64) as -> by (bits_to_arith; arith).
  destruct (Z.leb_spec (u_lower st) (128 + c mod 64)); [|lia].
  destruct (Z.leb_spec (128 + c mod 64) (u_upper st)); [|lia].
  reflexivity.
Qed.

Lemma lead_step b rest :
  utf8_decode_from None (b :: rest) =
  match utf8_lead b with
  | LeadEmit cp => utf16_units cp ++ utf8_decode_from None rest
  | LeadStart st => utf8_decode_from (Some st) rest
  end.
Proof. reflexivity. Qed.

Lemma decode_utf8_1 c bs :
  0 <= c < 128 ->
  utf8_decode_from None (utf8_1 c ++ bs) = c :: utf8_decode_from None bs.
Proof.
  intros Hc. unfold utf8_1. cbn [app utf8_decode_from]. unfold utf8_lead.
  split_tests. cbn [andb]. rewrite utf16_units_bmp by lia. reflexivity.
Qed.

Lemma decode_utf8_2 c bs :
  128 <= c < 2048 ->
  utf8_decode_from None (utf8_2 c ++ bs) = c :: utf8_decode_from None bs.
Proof.
  intros Hc. unfold utf8_2. cbn [app]. rewrite lead_step.
  assert (utf8_lead (Z.lor 192 (Z.shiftr c 6))
          = LeadStart (Utf8State (c / 64) 1 128 191)) as ->.
  { bits_to_arith. unfold utf8_lead. split_tests; try arith. cbn [andb].
    do 2 f_equal. bits_to_arith. arith. }
  cbv beta iota.
  rewrite continuation_step by (cbn [u_lower u_upper]; arith).
  cbn [u_needed u_cp].
  rewrite utf16_units_bmp by arith. cbn [app]. f_equal. arith.
Qed.

Lemma decode_utf8_3 c bs :
  2048 <= c < 65536 -> ~ (55296 <= c <= 57343) ->
  utf8_decode_from None (utf8_3 c ++ bs) = c :: utf8_decode_from None bs.
Proof.
  intros Hc Hs. unfold utf8_3. cbn [app]. rewrite lead_step.
  assert (exists lo hi,
    utf8_lead (Z.lor 224 (Z.shiftr c 12))
      = LeadStart (Utf8State (c / 4096) 2 lo hi)
    /\ lo <= 128 + (c / 64) mod 64 <= hi) as (lo & hi & -> & Hbounds).
  { bits_to_arith. unfold utf8_lead.
    destruct (Z.leb_spec 0 (224 + c / 4096)); [|arith].
    destruct (Z.leb_spec (224 + c / 4096) 127); [arith|].
    destruct (Z.leb_spec 194 (224 + c / 4096)); [|arith].
    destruct (Z.leb_spec (224 + c / 4096) 223); [arith|].
    destruct (Z.leb_spec 224 (224 + c / 4096)); [|arith].
    destruct (Z.leb_spec (224 + c / 4096) 239); [|arith].
    cbn [andb]. eexists _, _. split.
    - do 2 f_equal. bits_to_arith. arith.
    - destruct (Z.eqb_spec (224 + c / 4096) 224);
        destruct (Z.eqb_spec (224 + c / 4096) 237); arith. }
  cbv beta iota. rewrite shiftr_6.
  rewrite continuation_step by (cbn [u_lower u_upper]; exact Hbounds).
  cbn [u_needed u_cp].
  rewrite continuation_step by (cbn [u_lower u_upper]; arith).
  cbn [u_needed u_cp].
  rewrite utf16_units_bmp by arith. cbn [app]. f_equal. arith.
Qed.

Lemma decode_utf8_4 hi lo bs :
  55296 <= hi <= 56319 -> 56320 <= lo <= 57343 ->
  utf8_decode_from None (utf8_4 (combine_surrogates hi lo) ++ bs)
  = hi :: lo :: utf8_decode_from None bs.
Proof.
  intros Hhi Hlo.
  assert (exists cp, combine_surrogates hi lo = cp
                     /\ cp = 65536 + (hi - 55296) * 1024 + (lo - 56320))
    as (cp & -> & Hcp).
  { eexists. split; [reflexivity|]. unfold combine_surrogates.
    bits_to_arith. reflexivity. }
  assert (65536 <= cp <= 1114111) as Hrange by lia.
  unfold utf8_4. cbn [app]. rewrite lead_step.
  assert (exists l u,
    utf8_lead (Z.lor 240 (Z.shiftr cp 18))
      = LeadStart (Utf8State (cp / 262144) 3 l u)
    /\ l <= 128 + (cp / 4096) mod 64 <= u) as (l & u & -> & Hbounds).
  { bits_to_arith. unfold utf8_lead.
    destruct (Z.leb_spec 0 (240 + cp / 262144)); [|arith].
    destruct (Z.leb_spec (240 + cp / 262144) 127); [arith|].
    destruct (Z.leb_spec 194 (240 + cp / 262144)); [|arith].
    destruct (Z.leb_spec (240 + cp / 262144) 223); [arith|].
    destruct (Z.leb_spec 224 (240 + cp / 262144)); [|arith].
    destruct (Z.leb_spec (240 + cp / 262144) 239); [arith|].
    destruct (Z.leb_spec 240 (240 + cp / 262144)); [|arith].
    destruct (Z.leb_spec (240 + cp / 262144) 244); [|arith].
    cbn [andb]. eexists _, _. split.
    - do 2 f_equal. bits_to_arith. arith.
    - destruct (Z.eqb_spec (240 + cp / 262144) 240);
        destruct (Z.eqb_spec (240 + cp / 262144) 244); arith. }
  cbv beta iota. rewrite shiftr_12, shiftr_6.
  rewrite continuation_step by (cbn [u_lower u_upper]; exact Hbounds).
  cbn [u_needed u_cp].
  rewrite continuation_step by (cbn [u_lower u_upper]; arith).
  cbn [u_needed u_cp].
  rewrite continuation_step by (cbn [u_lower u_upper]; arith).
  cbn [u_needed u_cp].
  assert (((cp / 262144 * 64 + (cp / 4096) mod 64) * 64 + (cp / 64) mod 64) * 64
          + cp mod 64 = cp) as -> by arith.
  unfold utf16_units. destruct (Z.ltb_spec cp 65536); [lia|].
  bits_to_arith. cbn [app]. f_equal; [arith | f_equal; arith].
Qed.

Lemma isWellFormed_cons c rest :
  isWellFormed (c :: rest) = true ->
  0 <= c < 65536 /\
  ((55296 <= c <= 56319 /\
    exists d rest', rest = d :: rest' /\ 56320 <= d <= 57343 /\
                    isWellFormed rest' = true)
   \/ (~ (55296 <= c <= 57343) /\ isWellFormed rest = true)).
Proof.
  cbn [isWellFormed]. unfold is_high_surrogate, is_low_surrogate.
  intros H.
  apply andb_prop in H as [Hr H]. apply andb_prop in Hr as [H0 H1].
  apply Z.leb_le in H0. apply Z.ltb_lt in H1. split; [lia|].
  destruct (Z.leb_spec 55296 c); destruct (Z.leb_spec c 56319); cbn [andb] in H.
  - left. split; [lia|]. destruct rest as [|d rest']; [discriminate|].
    apply andb_prop in H as [Hd H]. apply andb_prop in Hd as [Hd0 Hd1].
    apply Z.leb_le in Hd0. apply Z.leb_le in Hd1. eauto 6.
  - right. apply andb_prop in H as [Hl H]. split; [|exact H].
    destruct (Z.leb_spec 56320 c); destruct (Z.leb_spec c 57343);
      cbn in Hl; try discriminate; lia.
  - right. apply andb_prop in H as [Hl H]. split; [lia | exact H].
  - lia.
Qed.

Lemma utf8_roundtrip_bounded (n : nat) (s : jsstring) :
  (length s <= n)%nat -> isWellFormed s = true ->
  utf8_decode (utf8_encode s) = s.
Proof.
  unfold utf8_decode. revert s.
  induction n as [|n IH]; intros s Hlen Hwf.
  - destruct s; [reflexivity | simpl in Hlen; lia].
  - destruct s as [|c rest]; [reflexivity|].
    apply isWellFormed_cons in Hwf as [Hc [(Hhi & d & rest' & -> & Hd & Hwf) | [Hns Hwf]]].
    + cbn [utf8_encode]. unfold is_high_surrogate, is_low_surrogate.
      destruct (Z.ltb_spec c 128); [lia|]. destruct (Z.ltb_spec c 2048); [lia|].
      destruct (Z.leb_spec 55296 c); [|lia]. destruct (Z.leb_spec c 56319); [|lia].
      destruct (Z.leb_spec 56320 d); [|lia]. destruct (Z.leb_spec d 57343); [|lia].
      cbn [andb]. rewrite decode_utf8_4 by lia.
      rewrite IH; [reflexivity | simpl in Hlen; lia | exact Hwf].
    + assert (utf8_decode_from None (utf8_encode rest) = rest) as IHrest
        by (apply IH; [simpl in Hlen; lia | exact Hwf]).
      cbn [utf8_encode]. unfold is_high_surrogate, is_low_surrogate.
      destruct (Z.ltb_spec c 128).
      { rewrite decode_utf8_1 by lia. congruence. }
      destruct (Z.ltb_spec c 2048).
      { rewrite decode_utf8_2 by lia. congruence. }
      destruct (Z.leb_spec 55296 c); destruct (Z.leb_spec c 56319); cbn [andb];
        try lia;
        destruct (Z.leb_spec 56320 c); destruct (Z.leb_spec c 57343); cbn [andb];
        try lia; rewrite decode_utf8_3 by lia; congruence.
Qed.

Lemma utf8_bytes_1 c : 0 <= c < 128 -> Forall is_byte (utf8_1 c).
Proof. intros. repeat constructor; unfold is_byte; lia. Qed.
Lemma utf8_bytes_2 c : 128 <= c < 2048 -> Forall is_byte (utf8_2 c).
Proof. intros. repeat constructor; unfold is_byte; bits_to_arith; arith. Qed.
Lemma utf8_bytes_3 c : 2048 <= c < 65536 -> Forall is_byte (utf8_3 c).
Proof. intros. repeat constructor; unfold is_byte; bits_to_arith; arith. Qed.
Lemma utf8_bytes_4 c : 65536 <= c < 1114112 -> Forall is_byte (utf8_4 c).
Proof. intros. repeat constructor; unfold is_byte; bits_to_arith; arith. Qed.

Lemma utf8_encode_bytes_bounded (n : nat) (s : jsstring) :
  (length s <= n)%nat -> isWellFormed s = true -> Forall is_byte (utf8_encode s).
Proof.
  revert s. induction n as [|n IH]; intros s Hlen Hwf.
  - destruct s; [constructor | simpl in Hlen; lia].
  - destruct s as [|c rest]; [constructor|].
    apply isWellFormed_cons in Hwf as [Hc [(Hhi & d & rest' & -> & Hd & Hwf) | [Hns Hwf]]].
    + cbn [utf8_encode]. unfold is_high_surrogate, is_low_surrogate.
      destruct (Z.ltb_spec c 128); [lia|]. destruct (Z.ltb_spec c 2048); [lia|].
      destruct (Z.leb_spec 55296 c); [|lia]. destruct (Z.leb_spec c 56319); [|lia].
      destruct (Z.leb_spec 56320 d); [|lia]. destruct (Z.leb_spec d 57343); [|lia].
      cbn [andb]. apply Forall_app. split.
      * apply utf8_bytes_4. unfold combine_surrogates. bits_to_arith. lia.
      * apply IH; [simpl in Hlen; lia | exact Hwf].
    + assert (Forall is_byte (utf8_encode rest)) as IHrest
        by (apply IH; [simpl in Hlen; lia | exact Hwf]).
      cbn [utf8_encode]. unfold is_high_surrogate, is_low_surrogate.
      destruct (Z.ltb_spec c 128).
      { apply Forall_app. split; [apply utf8_bytes_1; lia | exact IHrest]. }
      destruct (Z.ltb_spec c 2048).
      { apply Forall_app. split; [apply utf8_bytes_2; lia | exact IHrest]. }
      destruct (Z.leb_spec 55296 c); destruct (Z.leb_spec c 56319); cbn [andb];
        try lia;
        destruct (Z.leb_spec 56320 c); destruct (Z.leb_spec c 57343); cbn [andb];
        try lia; (apply Forall_app; split; [apply utf8_bytes_3; lia | exact IHrest]).
Qed.

Lemma decode_encode_id (p : jsstring) :
  isWellFormed p = true -> idToRelPath (encodeId p) = Some p.
Proof.
  intros Hwf. unfold idToRelPath, encodeId.
  rewrite (base64url_roundtrip_bounded (length (utf8_encode p)));
    [| reflexivity
     | apply (utf8_encode_bytes_bounded (length p)); [reflexivity | exact Hwf]].
  rewrite (utf8_roundtrip_bounded (length p)); [reflexivity | reflexivity | exact Hwf].
Qed.

(** ** What [base64url_encode] writes *)

Lemma url_char_of_value v : 0 <= v < 64 -> is_url_char (b64url_char v) = true.
Proof.
  intros Hv. unfold b64url_char.
  split_tests; unfold is_url_char; split_tests; reflexivity.
Qed.

Lemma base64url_encode_shape_bounded (n : nat) (bs : list Z) :
  (length bs <= n)%nat -> Forall is_byte bs ->
  forallb is_url_char (base64url_encode bs) = true
  /\ Z.of_nat (length (base64url_encode bs)) mod 4 <> 1.
Proof.
  revert bs. induction n as [|n IH]; intros bs Hlen Hb.
  - destruct bs; [split; [reflexivity | discriminate] | simpl in Hlen; lia].
  - destruct bs as [|b0 [|b1 [|b2 rest]]].
    + split; [reflexivity | discriminate].
    + apply Forall_cons_1 in Hb as [H0 _]. unfold is_byte in H0.
      cbn [base64url_encode forallb].
      rewrite !url_char_of_value by (bits_to_arith; arith).
      split; [reflexivity | discriminate].
    + apply Forall_cons_1 in Hb as [H0 Hb].
      apply Forall_cons_1 in Hb as [H1 _]. unfold is_byte in H0, H1.
      cbn [base64url_encode forallb].
      rewrite !url_char_of_value by (bits_to_arith; arith).
      split; [reflexivity | discriminate].
    + apply Forall_cons_1 in Hb as [H0 Hb].
      apply Forall_cons_1 in Hb as [H1 Hb].
      apply Forall_cons_1 in Hb as [H2 Hb]. unfold is_byte in H0, H1, H2.
      destruct (IH rest) as [IHc IHl]; [simpl in Hlen; lia | exact Hb |].
      cbn [base64url_encode app forallb length].
      rewrite !url_char_of_value by (bits_to_arith; arith).
      split; [exact IHc|].
      rewrite !Nat2Z.inj_succ. arith.
Qed.

Lemma encodeId_is_base64url (p : jsstring) :
  isWellFormed p = true -> is_base64url (encodeId p) = true.
Proof.
  intros Hwf. unfold is_base64url, encodeId.
  destruct (base64url_encode_shape_bounded (length (utf8_encode p)) (utf8_encode p))
    as [Hc Hl];
    [reflexivity
    | apply (utf8_encode_bytes_bounded (length p)); [reflexivity | exact Hwf] |].
  rewrite Hc. cbn [andb].
  destruct (Z.eqb_spec (Z.of_nat (length (base64url_encode (utf8_encode p))) mod 4) 1);
    [contradiction | reflexivity].
Qed.

(** ** What the reader does with a character outside the alphabets *)

Lemma sextets_skip (a b : jsstring) (c : Z) :
  unbase64 c = None -> low_byte c <> CHAR_EQUALS ->
  sextets (a ++ c :: b) = sextets (a ++ b).
Proof.
  intros Hc Hne. induction a as [|x a IH]; cbn [app sextets].
  - rewrite Hc. destruct (Z.eqb_spec (low_byte c) CHAR_EQUALS); [contradiction | reflexivity].
  - destruct (unbase64 x); [rewrite IH; reflexivity|].
    destruct (low_byte x =? CHAR_EQUALS); [reflexivity | exact IH].
Qed.

(** An id with such a character anywhere decodes like the id without it. *)
Lemma illegal_character_is_skipped (a b : jsstring) (c : Z) :
  unbase64 c = None -> low_byte c <> CHAR_EQUALS ->
  idToRelPath (a ++ c :: b) = idToRelPath (a ++ b).
Proof.
  intros Hc Hne. unfold idToRelPath, base64url_decode.
  rewrite (sextets_skip a b c Hc Hne). reflexivity.
Qed.

(** ** The claims about the codec *)

(** C7.  Round trip of the id codec: for every relative path [p] that is a
    well-formed string, decoding the id obtained by encoding [p] (base64url
    of the UTF-8 text of the slash-normalized relative path) yields exactly
    [p]. *)
Theorem id_roundtrip (p : jsstring) :
  isWellFormed p = true -> idToRelPath (encodeId p) = Some p.
Proof. apply decode_encode_id. Qed.

Lemma id_roundtrip_witness :
  isWellFormed (js "Show/S01E01.mkv") = true
  /\ idToRelPath (encodeId (js "Show/S01E01.mkv")) = Some (js "Show/S01E01.mkv").
Proof. split; [reflexivity | apply (id_roundtrip (js "Show/S01E01.mkv")); reflexivity]. Defined.

(** A surrogate without its partner is the one thing the codec does not
    give back: it is written as U+FFFD. *)
Example lone_surrogate_is_replaced :
  idToRelPath (encodeId [97; 55357]) = Some [97; 65533].
Proof. reflexivity. Qed.

End CodecFacts.

(* ===================================================================== *)
(** * Path safety and the segment endpoint *)
(* ===================================================================== *)

Module PathFacts.
Import JsString Codec Path Examples.

Example example_VIDEO_ROOT : VIDEO_ROOT example_config = js "/srv/app/videos".
Proof. reflexivity. Qed.

Example example_CACHE_ROOT : CACHE_ROOT example_config = js "/srv/app/cache".
Proof. reflexivity. Qed.

(** ** Normalization, piece by piece *)

Lemma str_eqb_eq a b : str_eqb a b = true <-> a = b.
Proof.
  revert b. induction a as [|x a IH]; intros [|y b]; cbn [str_eqb];
    try (split; [discriminate | discriminate]); [split; reflexivity|].
  rewrite andb_true_iff, Z.eqb_eq, IH. split; [intros [-> ->]; reflexivity|].
  intros [= -> ->]. split; reflexivity.
Qed.

Lemma str_eqb_neq a b : a <> b -> str_eqb a b = false.
Proof.
  intros Hne. destruct (str_eqb a b) eqn:E; [|reflexivity].
  apply str_eqb_eq in E. contradiction.
Qed.

Lemma split_slash_nonempty s : split_slash s <> [].
Proof.
  destruct s as [|c s]; cbn [split_slash]; [discriminate|].
  destruct (c =? CHAR_FORWARD_SLASH); [discriminate|].
  destruct (split_slash s); discriminate.
Qed.

Lemma split_slash_app a b :
  split_slash (a ++ CHAR_FORWARD_SLASH :: b) = split_slash a ++ split_slash b.
Proof.
  induction a as [|c a IH]; cbn [app split_slash].
  - rewrite Z.eqb_refl. reflexivity.
  - destruct (c =? CHAR_FORWARD_SLASH); [rewrite IH; reflexivity|].
    rewrite IH. pose proof (split_slash_nonempty a).
    destruct (split_slash a); [contradiction | reflexivity].
Qed.

Lemma split_slash_slashfree seg :
  Forall (fun c => c <> CHAR_FORWARD_SLASH) seg -> split_slash seg = [seg].
Proof.
  induction 1 as [|c seg Hc _ IH]; [reflexivity|].
  cbn [split_slash]. destruct (Z.eqb_spec c CHAR_FORWARD_SLASH); [contradiction|].
  rewrite IH. reflexivity.
Qed.

Lemma join_slash_cons seg seg2 segs :
  join_slash (seg :: seg2 :: segs)
  = seg ++ CHAR_FORWARD_SLASH :: join_slash (seg2 :: segs).
Proof. reflexivity. Qed.

Lemma split_join segs :
  Forall (Forall (fun c => c <> CHAR_FORWARD_SLASH)) segs -> segs <> [] ->
  split_slash (join_slash segs) = segs.
Proof.
  induction 1 as [|seg segs Hseg Hsegs IH]; [contradiction|]. intros _.
  destruct segs as [|seg2 segs].
  - apply split_slash_slashfree. exact Hseg.
  - rewrite join_slash_cons, split_slash_app, (split_slash_slashfree seg Hseg).
    cbn [app]. f_equal. apply IH. discriminate.
Qed.

Lemma step_plain b stack seg :
  plain seg -> normalize_step b stack seg = seg :: stack.
Proof.
  intros (H1 & H2 & H3 & _). unfold normalize_step.
  rewrite (str_eqb_neq seg []), (str_eqb_neq seg DOT), (str_eqb_neq seg DOTDOT)
    by assumption.
  reflexivity.
Qed.

Lemma fold_plain b segs stack :
  Forall plain segs ->
  fold_left (normalize_step b) segs stack = rev segs ++ stack.
Proof.
  intros H. revert stack. induction H as [|seg segs Hseg _ IH]; intros stack;
    [reflexivity|].
  cbn [fold_left rev]. rewrite (step_plain b stack seg Hseg), IH, <- app_assoc.
  reflexivity.
Qed.

Lemma fold_dotdot stack n :
  Forall (fun seg => seg <> DOTDOT) stack ->
  fold_left (normalize_step false) (replicate n DOTDOT) stack = drop n stack.
Proof.
  revert stack. induction n as [|n IH]; intros stack Hstack; [reflexivity|].
  cbn [replicate fold_left]. unfold normalize_step at 2.
  cbn [str_eqb Z.eqb CHAR_DOT DOT DOTDOT Pos.eqb andb orb].
  destruct Hstack as [|top below Htop Hbelow].
  - rewrite IH by constructor. destruct n; reflexivity.
  - rewrite (str_eqb_neq top DOTDOT Htop). rewrite IH by exact Hbelow. reflexivity.
Qed.

Lemma plain_slashfree segs :
  Forall plain segs -> Forall (Forall (fun c => c <> CHAR_FORWARD_SLASH)) segs.
Proof.
  intros H. apply (Forall_impl _ _ _ H). intros seg (_ & _ & _ & Hs). exact Hs.
Qed.

Lemma fold_root rs :
  Forall plain rs ->
  fold_left (normalize_step false) (split_slash (join_slash rs)) [] = rev rs.
Proof.
  intros Hrs. destruct rs as [|r rs]; [reflexivity|].
  rewrite split_join by (try discriminate; apply plain_slashfree; exact Hrs).
  rewrite fold_plain by exact Hrs. apply app_nil_r.
Qed.


Lemma startsWith_app s t p : startsWith s p = true -> startsWith (s ++ t) p = true.
Proof.
  revert s. induction p as [|y p IH]; intros s H;
    [destruct (s ++ t); reflexivity|].
  destruct s as [|x s]; [discriminate|]. cbn [app startsWith] in *.
  apply andb_prop in H as [-> H]. exact (IH s H).
Qed.

Lemma endsWith_app a b p : endsWith b p = true -> endsWith (a ++ b) p = true.
Proof.
  unfold endsWith. intros H. rewrite rev_app_distr. apply startsWith_app. exact H.
Qed.

Lemma ts_has_no_trailing_slash a b :
  endsWith b (js ".ts") = true -> endsWith (a ++ b) [CHAR_FORWARD_SLASH] = false.
Proof.
  unfold endsWith. rewrite rev_app_distr. intros H.
  change (rev (js ".ts")) with [115; 116; 46] in H.
  destruct (rev b) as [|c r]; cbn [startsWith] in H; [discriminate|].
  destruct (Z.eqb_spec c 115); [subst c; reflexivity | discriminate].
Qed.

Lemma join_slash_app a b :
  a <> [] -> b <> [] ->
  join_slash (a ++ b) = join_slash a ++ CHAR_FORWARD_SLASH :: join_slash b.
Proof.
  intros Ha Hb. induction a as [|x a IH]; [contradiction|].
  destruct a as [|y a].
  - destruct b as [|z b]; [contradiction | reflexivity].
  - change ((x :: y :: a) ++ b) with (x :: (y :: a) ++ b).
    change ((y :: a) ++ b) with (y :: a ++ b) at 1.
    rewrite (join_slash_cons x y (a ++ b)).
    change (y :: a ++ b) with ((y :: a) ++ b). rewrite IH by discriminate.
    rewrite join_slash_cons, <- app_assoc. reflexivity.
Qed.

Lemma slashfree_DOTDOT : Forall (fun c => c <> CHAR_FORWARD_SLASH) DOTDOT.
Proof. repeat constructor; discriminate. Qed.

Lemma path_normalize_absolute p :
  isAbsolute p = true -> endsWith p [CHAR_FORWARD_SLASH] = false ->
  normalizeString p false <> [] ->
  path_normalize p = CHAR_FORWARD_SLASH :: normalizeString p false.
Proof.
  intros Habs Htrail Hne. destruct p as [|c p]; [discriminate|].
  unfold path_normalize. cbv zeta. rewrite Habs, Htrail. cbn [negb].
  destruct (normalizeString (c :: p) false); [contradiction | reflexivity].
Qed.

(** From below any absolute cache root, [..] pieces reach every absolute
    path whose last piece ends in [.ts]. *)
Lemma join_reaches_any_ts (root id : jsstring) (rs ts : list jsstring) :
  root = CHAR_FORWARD_SLASH :: join_slash rs ->
  Forall plain rs -> plain id -> Forall plain ts ->
  endsWith (join_slash ts) (js ".ts") = true ->
  let seg := join_slash (replicate (S (length rs)) DOTDOT ++ ts) in
  endsWith seg (js ".ts") = true
  /\ path_join [root; id; seg] = CHAR_FORWARD_SLASH :: join_slash ts.
Proof.
  intros -> Hrs Hid Hts Hend. cbv zeta.
  assert (ts <> []) as Hne by (intros ->; discriminate).
  set (dots := replicate (S (length rs)) DOTDOT).
  assert (dots <> []) as Hdots by discriminate.
  assert (join_slash (dots ++ ts)
          = join_slash dots ++ CHAR_FORWARD_SLASH :: join_slash ts) as Hseg
    by (apply join_slash_app; assumption).
  assert (endsWith (join_slash (dots ++ ts)) (js ".ts") = true) as Hsegend
    by (rewrite Hseg, cons_middle, app_assoc; apply endsWith_app; exact Hend).
  split; [exact Hsegend|].
  assert (join_slash (dots ++ ts) <> []) as Hsegne
    by (intros E; rewrite E in Hsegend; discriminate).
  set (seg := join_slash (dots ++ ts)) in *.
  unfold path_join. cbn [List.filter str_eqb negb].
  rewrite (str_eqb_neq id [] (proj1 Hid)), (str_eqb_neq seg [] Hsegne). cbn [negb].
  rewrite !join_slash_cons. cbn [join_slash].
  set (path := (CHAR_FORWARD_SLASH :: join_slash rs) ++
                 CHAR_FORWARD_SLASH :: id ++ CHAR_FORWARD_SLASH :: seg).
  assert (endsWith path [CHAR_FORWARD_SLASH] = false) as Htrail.
  { subst path. rewrite (cons_middle _ id seg), !app_comm_cons, !app_assoc.
    apply ts_has_no_trailing_slash. exact Hsegend. }
  assert (normalizeString path false = join_slash ts) as Hnorm.
  { unfold normalizeString, normalize_segments. subst path. f_equal.
    change ((CHAR_FORWARD_SLASH :: join_slash rs) ++
              CHAR_FORWARD_SLASH :: id ++ CHAR_FORWARD_SLASH :: seg)
      with ([] ++ CHAR_FORWARD_SLASH ::
              (join_slash rs ++ CHAR_FORWARD_SLASH :: id ++ CHAR_FORWARD_SLASH :: seg)).
    rewrite !split_slash_app.
    rewrite (split_slash_slashfree id) by (apply Hid).
    subst seg. rewrite (split_join (dots ++ ts)).
    - cbn [split_slash app fold_left]. unfold normalize_step at 2. cbn [str_eqb orb].
      rewrite !fold_left_app, fold_root by exact Hrs.
      cbn [fold_left]. rewrite (step_plain false _ _ Hid).
      subst dots. rewrite fold_left_app, fold_dotdot.
      + rewrite drop_ge by (cbn [length]; rewrite length_rev; lia).
        rewrite fold_plain by exact Hts. rewrite app_nil_r. apply rev_involutive.
      + constructor; [apply Hid|]. apply Forall_rev.
        apply (Forall_impl _ _ _ Hrs). intros s (_ & _ & H & _). exact H.
    - apply Forall_app. split; [|apply plain_slashfree; exact Hts].
      subst dots. apply Forall_replicate. exact slashfree_DOTDOT.
    - destruct ts; [contradiction|]. subst dots. discriminate. }
  rewrite path_normalize_absolute, Hnorm; [reflexivity | | exact Htrail |].
  - subst path. cbn [app isAbsolute]. apply Z.eqb_refl.
  - rewrite Hnorm. intros E. rewrite E in Hend. discriminate.
Qed.

(** ** Containment *)

Lemma not_inside_by_computation (root p : jsstring) :
  bool_decide (inside root p) = false -> ~ inside root p.
Proof. apply bool_decide_eq_false. Qed.

(** Traversal that leaves every directory whose name starts like the root
    is refused. *)
Example traversal_refused :
  safeAbsFromRel example_config (js "../../etc/passwd") = None
  /\ safeAbsFromRel example_config (js "/etc/passwd") = None.
Proof. split; reflexivity. Qed.

(** C3.  Path containment, evaluated where it fails: the relative path
    [../videos-private/clip.mp4] resolves to
    [/srv/app/videos-private/clip.mp4], which is outside the library root
    [/srv/app/videos]; [safeAbsFromRel] and [absFromId] return it all the
    same, because the root is compared as a string prefix and
    [/srv/app/videos-private] starts with [/srv/app/videos]. *)
Theorem sibling_directory_escapes_root :
  let cfg := example_config in
  let rel := js "../videos-private/clip.mp4" in
  let abs := js "/srv/app/videos-private/clip.mp4" in
  ~ inside (VIDEO_ROOT cfg) abs
  /\ safeAbsFromRel cfg rel = Some abs
  /\ absFromId cfg {[abs]} (encodeId rel) = Some abs
  /\ status (getVideo cfg {[abs]} (encodeId rel)) = 200.
Proof.
  cbv zeta. split; [|split; [|split]].
  - apply not_inside_by_computation. vm_compute. reflexivity.
  - vm_compute. reflexivity.
  - vm_compute. reflexivity.
  - vm_compute. reflexivity.
Qed.

(** C8.  Soft decode failure, evaluated where it fails: the ids [YS5tcDQ!]
    and [YS5t cDQ] are not base64url ([!] and the blank are outside the
    alphabet), yet [idToRelPath] does not return the invalid marker: the
    character is skipped, the id decodes to [a.mp4], and
    [GET /api/video/:id] answers 200 instead of 400. *)
Theorem malformed_id_is_decoded :
  let cfg := example_config in
  let disk : gset jsstring := {[js "/srv/app/videos/a.mp4"]} in
  (is_base64url (js "YS5tcDQ!") = false
   /\ idToRelPath (js "YS5tcDQ!") = Some (js "a.mp4")
   /\ status (getVideo cfg disk (js "YS5tcDQ!")) = 200)
  /\ (is_base64url (js "YS5t cDQ") = false
      /\ idToRelPath (js "YS5t cDQ") = Some (js "a.mp4")
      /\ status (getVideo cfg disk (js "YS5t cDQ")) = 200).
Proof. cbv zeta. repeat split; vm_compute; reflexivity. Qed.

(** [idToRelPath] has no failing case at all: the invalid marker is never
    returned, whatever the id. *)
Lemma idToRelPath_never_invalid (id : jsstring) : idToRelPath id <> None.
Proof. discriminate. Qed.

(** The only ids answered with 400 are those that decode to the empty
    string. *)
Lemma getVideo_bad_id (cfg : config) (disk : gset jsstring) (id : jsstring) :
  status (getVideo cfg disk id) = 400 <->
  utf8_decode (base64url_decode id) = [].
Proof.
  unfold getVideo, idToRelPath.
  destruct (utf8_decode (base64url_decode id)) as [|c rel] eqn:E.
  - split; reflexivity.
  - split; [|discriminate].
    intros H. exfalso. revert H.
    destruct (safeAbsFromRel cfg (c :: rel)) as [abs|];
      [destruct (negb (existsSync disk abs))|]; cbn [status]; discriminate.
Qed.

(** C10.  The segment endpoint filters on the [.ts] suffix only: for every
    [id] and [seg] with [seg] ending in [.ts], what is served is exactly the
    file at [path.join(CACHE_ROOT, id, seg)] when it exists (404 otherwise),
    with no containment check.  Parameters with [..] pieces thereby serve
    files outside the asset's cache directory and outside the cache root:
    below an absolute cache root, every existing file whose name ends in
    [.ts] can be selected, whatever its directory. *)
Theorem segment_served_without_containment
    (cfg : config) (disk : gset jsstring) (id seg : jsstring) :
  endsWith seg (js ".ts") = true ->
  getSegment cfg disk id seg =
    (if existsSync disk (path_join [CACHE_ROOT cfg; id; seg])
     then Response 200
            (FileStream (path_join [CACHE_ROOT cfg; id; seg]) (js "video/mp2t"))
     else Response 404 Empty)
  /\ (forall rs ts,
        CACHE_ROOT cfg = CHAR_FORWARD_SLASH :: join_slash rs ->
        Forall plain rs -> plain id -> Forall plain ts ->
        endsWith (join_slash ts) (js ".ts") = true ->
        let target := CHAR_FORWARD_SLASH :: join_slash ts in
        existsSync disk target = true ->
        exists seg',
          endsWith seg' (js ".ts") = true
          /\ getSegment cfg disk id seg'
             = Response 200 (FileStream target (js "video/mp2t")))
  /\ (let cfg := example_config in
      let outside := js "/etc/keys/session.ts" in
      ~ inside (CACHE_ROOT cfg) outside
      /\ getSegment cfg {[outside]} (js "x") (js "../../../../etc/keys/session.ts")
         = Response 200 (FileStream outside (js "video/mp2t"))
      /\ getSegment cfg {[js "/srv/app/notes.ts"]} (js "..") (js "notes.ts")
         = Response 200 (FileStream (js "/srv/app/notes.ts") (js "video/mp2t"))).
Proof.
  intros Hts. split; [|split].
  - unfold getSegment. rewrite Hts. cbn [negb].
    destruct (existsSync disk (path_join [CACHE_ROOT cfg; id; seg])); reflexivity.
  - intros rs ts Hroot Hrs Hid Htsp Hend target Hexists.
    destruct (join_reaches_any_ts (CACHE_ROOT cfg) id rs ts Hroot Hrs Hid Htsp Hend)
      as [Hseg Hjoin].
    eexists. split; [exact Hseg|].
    unfold getSegment. rewrite Hseg, Hjoin. cbn [negb].
    fold target. rewrite Hexists. reflexivity.
  - cbv zeta. split; [|split].
    + apply not_inside_by_computation. vm_compute. reflexivity.
    + vm_compute. reflexivity.
    + vm_compute. reflexivity.
Qed.

Lemma segment_served_without_containment_witness :
  endsWith (js "../../../../etc/keys/session.ts") (js ".ts") = true
  /\ getSegment example_config {[js "/etc/keys/session.ts"]} (js "x")
       (js "../../../../etc/keys/session.ts")
     = Response 200 (FileStream (js "/etc/keys/session.ts") (js "video/mp2t")).
Proof.
  split; [reflexivity|].
  destruct (segment_served_without_containment example_config
              {[js "/etc/keys/session.ts"]} (js "x")
              (js "../../../../etc/keys/session.ts") eq_refl) as [H _].
  rewrite H. vm_compute. reflexivity.
Defined.

End PathFacts.

(* ===================================================================== *)
(** * The catalog search *)
(* ===================================================================== *)

Module CatalogFacts.
Import JsString Codec Path Catalog Examples.

(** Every index entry carries an id that decodes to its own [relPath]. *)
Lemma index_entry_id_decodes (cfg : config) (abs : jsstring) :
  isWellFormed (relPath (index_entry cfg abs)) = true ->
  idToRelPath (id (index_entry cfg abs)) = Some (relPath (index_entry cfg abs)).
Proof. intros Hwf. apply CodecFacts.decode_encode_id. exact Hwf. Qed.

Lemma filter_none {A} (f : A -> bool) (l : list A) :
  (forall b, In b l -> f b = false) -> List.filter f l = [].
Proof.
  induction l as [|x l IH]; intros Hl; [reflexivity|].
  cbn [List.filter]. rewrite (Hl x) by (left; reflexivity).
  apply IH. intros b Hb. apply Hl. right. exact Hb.
Qed.

Lemma filter_single {A} (f : A -> bool) (l1 l2 : list A) (a : A) :
  f a = true -> (forall b, In b (l1 ++ l2) -> f b = false) ->
  List.filter f (l1 ++ a :: l2) = [a].
Proof.
  intros Ha Hothers. rewrite List.filter_app. cbn [List.filter]. rewrite Ha.
  rewrite (filter_none f l1), (filter_none f l2); [reflexivity | |];
    intros b Hb; apply Hothers; apply in_or_app; [right | left]; exact Hb.
Qed.

Lemma includes_app s t q : includes s q = true -> includes (s ++ t) q = true.
Proof.
  induction s as [|x s IH]; cbn [includes app]; intros H.
  - rewrite orb_false_r in H. destruct q; [|discriminate].
    destruct t; reflexivity.
  - apply orb_prop in H as [H | H].
    + change (x :: s ++ t) with ((x :: s) ++ t).
      rewrite (PathFacts.startsWith_app (x :: s) t q H). reflexivity.
    + rewrite (IH H). apply orb_true_r.
Qed.

(** A query found in the lower-cased name of an asset matches that asset;
    the converse is what fails. *)
Lemma match_in_name_is_a_match (q : jsstring) (a : asset) :
  includes (ascii_toLowerCase (name a)) q = true ->
  matches ascii_toLowerCase q a = true.
Proof.
  intros H. unfold matches, haystack, ascii_toLowerCase.
  rewrite map_app. apply includes_app. exact H.
Qed.

Section Listing.

Variable toLowerCase : jsstring -> jsstring.
Variable cfg : config.

Lemma getVideos_listing now library st q :
  (getVideos toLowerCase cfg now library st q).1 =
  search toLowerCase (query_text toLowerCase q)
    (buildIndexIfNeeded toLowerCase cfg now library st).1.
Proof.
  unfold getVideos. destruct (buildIndexIfNeeded toLowerCase cfg now library st). reflexivity.
Qed.

(** C9, as the code has it.  The listing holds the assets whose lower-cased
    [name + " " + relPath] contains the trimmed, lower-cased query: when
    exactly one asset of the index matches in this sense, the listing is
    exactly that asset; for the empty query (absent, empty or blank) the
    listing is the full index truncated to the 300-result cap. *)
Theorem search_by_name_and_path now library st (qparam : option jsstring) :
  let index := (buildIndexIfNeeded toLowerCase cfg now library st).1 in
  let q := query_text toLowerCase qparam in
  let listing := (getVideos toLowerCase cfg now library st qparam).1 in
  (forall l1 a l2,
      q <> [] -> index = l1 ++ a :: l2 ->
      matches toLowerCase q a = true ->
      (forall b, In b (l1 ++ l2) -> matches toLowerCase q b = false) ->
      listing = [a])
  /\ (toLowerCase [] = [] -> trim (env_or qparam []) = [] ->
      listing = firstn 300 index).
Proof.
  cbv zeta. rewrite getVideos_listing. split.
  - intros l1 a l2 Hq Hindex Ha Hothers. unfold search.
    destruct (query_text toLowerCase qparam) as [|c q] eqn:E; [contradiction|].
    rewrite Hindex, (filter_single _ l1 l2 a Ha Hothers). reflexivity.
  - intros Hnil Hblank. unfold search, query_text. rewrite Hblank, Hnil.
    reflexivity.
Qed.

End Listing.

Example example_index :
  (buildIndexIfNeeded ascii_toLowerCase example_config 0 example_library
     (IndexState None 0)).1 = [asset_a; asset_foo].
Proof. vm_compute. reflexivity. Qed.

Lemma search_by_name_and_path_witness :
  let listing q :=
    (getVideos ascii_toLowerCase example_config 0 example_library
       (IndexState None 0) q).1 in
  listing (Some (js " A.MP4 ")) = [asset_a]
  /\ listing (Some (js "  ")) = firstn 300 [asset_a; asset_foo].
Proof.
  cbv zeta.
  pose proof (search_by_name_and_path ascii_toLowerCase example_config
                0 example_library (IndexState None 0)) as H.
  split.
  - destruct (H (Some (js " A.MP4 "))) as [Hone _].
    apply (Hone [] asset_a [asset_foo]).
    + vm_compute. discriminate.
    + vm_compute. reflexivity.
    + vm_compute. reflexivity.
    + intros b [<- | []]. vm_compute. reflexivity.
  - destruct (H (Some (js "  "))) as [_ Hall].
    rewrite Hall; [| reflexivity | reflexivity]. vm_compute. reflexivity.
Defined.

(** C9 as stated fails: [foo] occurs in the name of exactly one asset
    ([foo.mp4]), yet the listing for [foo] has two assets, because
    [foo/a.mp4] matches through its directory. *)
Lemma search_by_name_only_fails :
  let index := [asset_a; asset_foo] in
  let listing :=
    (getVideos ascii_toLowerCase example_config 0 example_library
       (IndexState None 0) (Some (js "foo"))).1 in
  List.filter (fun v => includes (name v) (js "foo")) index = [asset_foo]
  /\ listing = [asset_a; asset_foo]
  /\ listing <> [asset_foo].
Proof.
  cbv zeta. split; [|split].
  - vm_compute. reflexivity.
  - vm_compute. reflexivity.
  - vm_compute. discriminate.
Qed.

End CatalogFacts.

(* ===================================================================== *)
(** * The transcode orchestrator and the concurrency gates *)
(* ===================================================================== *)

Module ServerFacts.
Import JsString Codec Path Server Examples.

(** ** [ensureDir] *)

Lemma existsSync_ensured (d : gset jsstring) (p q : jsstring) :
  existsSync d q = true -> existsSync (ensured p d) q = true.
Proof.
  unfold ensured, mkdirSync, existsSync. intros H.
  destruct (negb (bool_decide (p ∈ d))); [|exact H].
  apply bool_decide_eq_true. apply bool_decide_eq_true in H. set_solver.
Qed.




Lemma ensureDir_Some (throws : gset jsstring -> jsstring -> bool)
    (p : jsstring) (d d' : gset jsstring) :
  ensureDir throws p d = Some d' -> d' = ensured p d.
Proof.
  unfold ensureDir. destruct (negb (existsSync d p) && throws d p); congruence.
Qed.

Lemma ensureDir_None (throws : gset jsstring -> jsstring -> bool)
    (p : jsstring) (d : gset jsstring) :
  ensureDir throws p d = None <-> existsSync d p = false /\ throws d p = true.
Proof.
  unfold ensureDir. destruct (existsSync d p), (throws d p); cbn; split;
    try discriminate; try (intros [? ?]; discriminate); auto.
Qed.

Lemma ensureDir_returns (throws : gset jsstring -> jsstring -> bool)
    (p : jsstring) (d : gset jsstring) :
  existsSync d p = true \/ throws d p = false ->
  ensureDir throws p d = Some (ensured p d).
Proof.
  unfold ensureDir. intros [-> | ->]; [reflexivity|].
  rewrite andb_false_r. reflexivity.
Qed.

(** ** Children of jobs, as lists *)

Lemma children_ok_mono n n' cs : (n <= n')%nat -> children_ok n cs -> children_ok n' cs.
Proof.
  intros Hle (K0 & K1 & K2 & K3). split; [|auto].
  intros pid c j Hc Hj. specialize (K0 pid c j Hc Hj). lia.
Qed.

Lemma lookup_alter_status st pid (cs : list child) pid' c' :
  alter (set_child_status st) pid cs !! pid' = Some c' ->
  exists c, cs !! pid' = Some c /\ child_owner c' = child_owner c
            /\ (child_status_of c' = Running -> child_status_of c = Running \/ st = Running)
            /\ (pid' = pid -> child_status_of c' = st).
Proof.
  intros H. destruct (decide (pid = pid')) as [<- | Hne].
  - rewrite list_lookup_alter_eq in H. destruct (cs !! pid) as [c|]; [|discriminate].
    injection H as <-. exists c. cbn. auto.
  - rewrite list_lookup_alter_ne in H by exact Hne. exists c'.
    split; [exact H|]. split; [reflexivity|]. split; [auto | congruence].
Qed.

Lemma children_ok_status n cs pid st :
  st <> Running -> children_ok n cs ->
  children_ok n (alter (set_child_status st) pid cs).
Proof.
  intros Hst (K0 & K1 & K2 & K3). split; [|split; [|split]].
  - intros p c j Hc Hj. apply (lookup_alter_status st pid cs p c) in Hc as (c0 & Hc0 & Ho & _).
    rewrite Ho in Hj. exact (K0 p c0 j Hc0 Hj).
  - intros p1 p2 c1 c2 H1 H2 Ho Hjob.
    apply (lookup_alter_status st pid cs p1 c1) in H1 as (d1 & Hd1 & Ho1 & _).
    apply (lookup_alter_status st pid cs p2 c2) in H2 as (d2 & Hd2 & Ho2 & _).
    apply (K1 p1 p2 d1 d2 Hd1 Hd2); congruence.
  - intros p c j Hc Ho Hrun p' c' Hc'.
    apply (lookup_alter_status st pid cs p c) in Hc as (d & Hd & Hod & Hr & _).
    apply (lookup_alter_status st pid cs p' c') in Hc' as (d' & Hd' & Hod' & _).
    rewrite Hod'. refine (K2 p d j Hd _ _ p' d' Hd'); [congruence|].
    destruct (Hr Hrun); [assumption | contradiction].
  - intros p c j Hc Ho Hrun p' c' Hc'.
    apply (lookup_alter_status st pid cs p c) in Hc as (d & Hd & Hod & Hr & _).
    apply (lookup_alter_status st pid cs p' c') in Hc' as (d' & Hd' & Hod' & _).
    rewrite Hod'. refine (K3 p d j Hd _ _ p' d' Hd'); [congruence|].
    destruct (Hr Hrun); [assumption | contradiction].
Qed.

(** Adding a running child [c], given what is needed about its owner. *)
Lemma children_ok_spawn n cs c :
  child_status_of c = Running ->
  children_ok n cs ->
  (forall j, job_of_owner (child_owner c) = Some j -> (j < n)%nat) ->
  (is_Some (job_of_owner (child_owner c)) ->
   forall pid c', cs !! pid = Some c' -> child_owner c' <> child_owner c) ->
  (forall pid c' j, cs !! pid = Some c' -> child_owner c' = JobProbe j true ->
     child_status_of c' = Running ->
     child_owner c <> JobProbe j false /\ child_owner c <> JobEncoder j) ->
  (forall pid c' j, cs !! pid = Some c' -> child_owner c' = JobProbe j false ->
     child_status_of c' = Running -> child_owner c <> JobEncoder j) ->
  (forall j, child_owner c = JobProbe j true ->
     forall pid c', cs !! pid = Some c' ->
       child_owner c' <> JobProbe j false /\ child_owner c' <> JobEncoder j) ->
  (forall j, child_owner c = JobProbe j false ->
     forall pid c', cs !! pid = Some c' -> child_owner c' <> JobEncoder j) ->
  children_ok n (cs ++ [c]).
Proof.
  intros Hrun (K0 & K1 & K2 & K3) Hbound Hfresh Hv Ha Hnewv Hnewa.
  assert (forall pid c', (cs ++ [c]) !! pid = Some c' ->
            cs !! pid = Some c' \/ (pid = length cs /\ c' = c)) as Hsplit.
  { intros pid c' H. apply lookup_app_Some in H as [H | [Hlen H]]; [left; exact H|].
    apply list_lookup_singleton_Some in H as [Hz <-]. right. split; [lia | reflexivity]. }
  split; [|split; [|split]].
  - intros pid c' j Hc Hj. destruct (Hsplit pid c' Hc) as [H | [_ ->]];
      [exact (K0 pid c' j H Hj) | exact (Hbound j Hj)].
  - intros p1 p2 c1 c2 H1 H2 Ho Hjob.
    destruct (Hsplit p1 c1 H1) as [H1' | [-> ->]];
      destruct (Hsplit p2 c2 H2) as [H2' | [-> ->]].
    + exact (K1 p1 p2 c1 c2 H1' H2' Ho Hjob).
    + exfalso. exact (Hfresh ltac:(congruence) p1 c1 H1' Ho).
    + exfalso. exact (Hfresh Hjob p2 c2 H2' (eq_sym Ho)).
    + reflexivity.
  - intros p c0 j Hc Ho Hr p' c' Hc'.
    destruct (Hsplit p c0 Hc) as [H | [-> ->]];
      destruct (Hsplit p' c' Hc') as [H' | [-> ->]].
    + exact (K2 p c0 j H Ho Hr p' c' H').
    + exact (Hv p c0 j H Ho Hr).
    + exact (Hnewv j Ho p' c' H').
    + rewrite Ho. split; discriminate.
  - intros p c0 j Hc Ho Hr p' c' Hc'.
    destruct (Hsplit p c0 Hc) as [H | [-> ->]];
      destruct (Hsplit p' c' Hc') as [H' | [-> ->]].
    + exact (K3 p c0 j H Ho Hr p' c' H').
    + exact (Ha p c0 j H Ho Hr).
    + exact (Hnewa j Ho p' c' H').
    + rewrite Ho. discriminate.
Qed.


Lemma children_ok_spawn_thumb n cs c :
  child_status_of c = Running -> job_of_owner (child_owner c) = None ->
  children_ok n cs -> children_ok n (cs ++ [c]).
Proof.
  intros Hrun Hthumb Hok. apply children_ok_spawn; try assumption.
  - intros j Hj. congruence.
  - intros [j Hj]. congruence.
  - intros pid c' j _ _ _. split; intros E; rewrite E in Hthumb; discriminate.
  - intros pid c' j _ _ _ E. rewrite E in Hthumb. discriminate.
  - intros j E. rewrite E in Hthumb. discriminate.
  - intros j E. rewrite E in Hthumb. discriminate.
Qed.

Lemma children_ok_spawn_vprobe n cs cmd :
  children_ok n cs ->
  children_ok (S n) (cs ++ [Child cmd (JobProbe n true) Running]).
Proof.
  intros Hok. pose proof Hok as (K0 & _).
  apply children_ok_spawn; cbn [child_owner child_status_of job_of_owner].
  - reflexivity.
  - apply (children_ok_mono n); [lia | exact Hok].
  - intros j [= <-]. lia.
  - intros _ pid c' Hc' E.
    assert (n < n)%nat by (apply (K0 pid c' n Hc'); rewrite E; reflexivity). lia.
  - intros pid c' j _ _ _. split; discriminate.
  - intros pid c' j _ _ _. discriminate.
  - intros j [= <-] pid c' Hc'. split; intros E;
      (assert (n < n)%nat by (apply (K0 pid c' n Hc'); rewrite E; reflexivity); lia).
  - intros j [=].
Qed.

Lemma children_ok_spawn_aprobe n cs pid cmd0 cmd j st :
  children_ok n cs ->
  cs !! pid = Some (Child cmd0 (JobProbe j true) Running) -> st <> Running ->
  children_ok n
    (alter (set_child_status st) pid cs ++ [Child cmd (JobProbe j false) Running]).
Proof.
  intros Hok Hpid Hst. pose proof Hok as (K0 & K1 & K2 & K3).
  apply children_ok_spawn; cbn [child_owner child_status_of job_of_owner].
  - reflexivity.
  - apply children_ok_status; assumption.
  - intros j' [= <-]. exact (K0 pid _ j Hpid eq_refl).
  - intros _ pid' c' Hc' E.
    apply (lookup_alter_status st pid cs pid' c') in Hc' as (d & Hd & Hod & _).
    destruct (K2 pid _ j Hpid eq_refl eq_refl pid' d Hd) as [Hne _].
    apply Hne. congruence.
  - intros pid' c' j0 Hc' Ho Hrun. split; [|discriminate].
    intros [= <-].
    apply (lookup_alter_status st pid cs pid' c') in Hc' as (d & Hd & Hod & _ & Hsame).
    assert (pid' = pid) as Heq.
    { apply (K1 pid' pid d _ Hd Hpid); [cbn; congruence|].
      rewrite <- Hod, Ho. cbn. eauto. }
    rewrite (Hsame Heq) in Hrun. contradiction.
  - intros pid' c' j0 _ _ _. discriminate.
  - intros j0 [=].
  - intros j0 [= <-] pid' c' Hc'.
    apply (lookup_alter_status st pid cs pid' c') in Hc' as (d & Hd & Hod & _).
    rewrite Hod. exact (proj2 (K2 pid _ j Hpid eq_refl eq_refl pid' d Hd)).
Qed.

Lemma children_ok_spawn_encoder n cs pid cmd0 cmd j st :
  children_ok n cs ->
  cs !! pid = Some (Child cmd0 (JobProbe j false) Running) -> st <> Running ->
  children_ok n
    (alter (set_child_status st) pid cs ++ [Child cmd (JobEncoder j) Running]).
Proof.
  intros Hok Hpid Hst. pose proof Hok as (K0 & K1 & K2 & K3).
  apply children_ok_spawn; cbn [child_owner child_status_of job_of_owner].
  - reflexivity.
  - apply children_ok_status; assumption.
  - intros j' [= <-]. exact (K0 pid _ j Hpid eq_refl).
  - intros _ pid' c' Hc' E.
    apply (lookup_alter_status st pid cs pid' c') in Hc' as (d & Hd & Hod & _).
    apply (K3 pid _ j Hpid eq_refl eq_refl pid' d Hd). congruence.
  - intros pid' c' j0 Hc' Ho Hrun. split; [discriminate|].
    intros [= <-].
    apply (lookup_alter_status st pid cs pid' c') in Hc' as (d & Hd & Hod & Hr & _).
    assert (child_status_of d = Running) as Hdrun
      by (destruct (Hr Hrun); [assumption | contradiction]).
    destruct (K2 pid' d j Hd ltac:(congruence) Hdrun pid _ Hpid) as [Hne _].
    apply Hne. reflexivity.
  - intros pid' c' j0 Hc' Ho Hrun [= <-].
    apply (lookup_alter_status st pid cs pid' c') in Hc' as (d & Hd & Hod & _ & Hsame).
    assert (pid' = pid) as Heq.
    { apply (K1 pid' pid d _ Hd Hpid); [cbn; congruence|].
      rewrite <- Hod, Ho. cbn. eauto. }
    rewrite (Hsame Heq) in Hrun. contradiction.
  - intros j0 [=].
  - intros j0 [=].
Qed.

Section Facts.

Variable cfg : config.
Variable resolveVideoPathById : jsstring -> jsstring.
Variable mkdirSync_throws : gset jsstring -> jsstring -> bool.

Local Abbreviation getManifest := (getManifest cfg resolveVideoPathById mkdirSync_throws).
Local Abbreviation step := (step cfg resolveVideoPathById mkdirSync_throws).
Local Abbreviation run := (run cfg resolveVideoPathById mkdirSync_throws).
Local Abbreviation resume := (resume cfg).
Local Abbreviation drain := (drain cfg).
Local Abbreviation settled_job := (settled_job cfg resolveVideoPathById).
Local Abbreviation failed_job := (failed_job cfg resolveVideoPathById).

(** ** What a turn leaves alone *)

Lemma settle_requests j p t : requests (settle j p t).1 = requests t.1.
Proof. unfold settle. repeat case_match; reflexivity. Qed.

Lemma settle_children j p t : children (settle j p t).1 = children t.1.
Proof. unfold settle. repeat case_match; reflexivity. Qed.

Lemma settle_runningHls j p t : runningHls (settle j p t).1 = runningHls t.1.
Proof. unfold settle. repeat case_match; reflexivity. Qed.

Lemma settle_runningThumb j p t : runningThumb (settle j p t).1 = runningThumb t.1.
Proof. unfold settle. repeat case_match; reflexivity. Qed.

Lemma drain_awaiting t r id j :
  requests t.1 !! r = Some (AwaitJob id j) ->
  requests (drain t) !! r = Some (resume (jobs t.1) (AwaitJob id j)).
Proof.
  intros H. unfold Server.drain. cbn [requests set_requests].
  rewrite list_lookup_fmap, H. reflexivity.
Qed.

Lemma answer_awaiting rid f s r id j :
  requests s !! r = Some (AwaitJob id j) ->
  requests (answer rid f s) !! r = Some (AwaitJob id j).
Proof.
  intros H. unfold answer.
  destruct (requests s !! rid) as [[]|] eqn:E; try exact H.
  cbn [requests set_requests].
  rewrite list_lookup_insert_ne; [exact H | congruence].
Qed.


(** Every callback body leaves a handler that waits for a job where it
    is; only the end of the turn resumes it, and then all such handlers
    alike. *)
Lemma step_awaiting s e s' :
  step s e = Some s' ->
  (forall r id j, requests s !! r = Some (AwaitJob id j) ->
                  requests s' !! r = Some (AwaitJob id j))
  \/ (forall r id j, requests s !! r = Some (AwaitJob id j) ->
                     requests s' !! r = Some (resume (jobs s') (AwaitJob id j))).
Proof.
  intros Hstep.
  destruct e as [id0|id0|pid|pid code|j0|rid|p|p]; cbn [Server.step] in Hstep.
  - (* GetManifest *)
    injection Hstep as <-. right. intros r id j Hr. unfold Server.getManifest.
    destruct (ensureHls cfg mkdirSync_throws id0 (resolveVideoPathById id0) s)
      as [j1 [s1 settled]] eqn:E.
    assert (requests s1 = requests s) as Hreq.
    { unfold ensureHls in E. destruct (hlsJobs s !! id0).
      - injection E as _ <- _. reflexivity.
      - unfold executor_start in E. repeat case_match; simplify_eq; reflexivity. }
    rewrite (drain_awaiting _ r id j); [reflexivity|].
    cbn [fst requests add_request set_requests]. rewrite Hreq.
    apply lookup_app_l_Some. exact Hr.
  - (* GetThumb *)
    injection Hstep as <-. left. intros r id j Hr. unfold getThumb.
    repeat case_match;
      cbn [requests add_request set_requests spawn set_children set_runningThumb];
      apply lookup_app_l_Some; exact Hr.
  - (* ChildError *)
    unfold on_error in Hstep.
    destruct (children s !! pid) as [[cmd o []]|]; try discriminate.
    injection Hstep as <-. destruct o as [j1 []|j1|rid|rid].
    + left. intros r id j Hr. exact Hr.
    + left. intros r id j Hr. exact Hr.
    + right. intros r id j Hr.
      rewrite (drain_awaiting _ r id j); [reflexivity|].
      unfold encoder_error. case_match; rewrite ?settle_requests; exact Hr.
    + left. intros r id j Hr. exact Hr.
    + left. intros r id j Hr. unfold thumb_error. apply answer_awaiting. exact Hr.
  - (* ChildClose *)
    unfold on_close in Hstep.
    destruct (children s !! pid) as [[cmd o st]|]; [|discriminate].
    destruct o as [j1 []|j1|rid|rid]; destruct st; try discriminate;
      injection Hstep as <-;
      try (left; intros r id j Hr; exact Hr);
      try (left; intros r id j Hr; unfold thumb_close; apply answer_awaiting;
           exact Hr);
      (right; intros r id j Hr;
       rewrite (drain_awaiting _ r id j); [reflexivity|];
       unfold encoder_close; repeat case_match; rewrite ?settle_requests;
       exact Hr).
  - (* IntervalTick *)
    destruct (jobs s !! j0) as [jb|] eqn:E; [|discriminate].
    destruct (waitM3U8 jb); [|discriminate]. injection Hstep as <-.
    right. intros r id j Hr.
    rewrite (drain_awaiting _ r id j); [reflexivity|].
    unfold waitM3U8_tick. rewrite E. case_match; rewrite ?settle_requests; exact Hr.
  - (* HandlerTick *)
    destruct (requests s !! rid) as [[]|] eqn:E; try discriminate.
    injection Hstep as <-. left. intros r id j Hr. unfold manifest_poll.
    case_match; [|exact Hr]. cbn [requests set_requests].
    rewrite list_lookup_insert_ne; [exact Hr | congruence].
  - injection Hstep as <-. left. intros r id j Hr. exact Hr.
  - injection Hstep as <-. left. intros r id j Hr. exact Hr.
Qed.

Lemma awaiting_requests_agree s e s' r1 r2 id j :
  step s e = Some s' ->
  requests s !! r1 = Some (AwaitJob id j) ->
  requests s !! r2 = Some (AwaitJob id j) ->
  requests s' !! r1 = requests s' !! r2.
Proof.
  intros Hstep H1 H2.
  destruct (step_awaiting s e s' Hstep) as [H | H];
    rewrite (H r1 id j H1), (H r2 id j H2); reflexivity.
Qed.

(** The attached request in state [s]: nothing but the request list
    changes. *)
Lemma getManifest_attached s id j jb :
  hlsJobs s !! id = Some j -> jobs s !! j = Some jb -> promise jb = Pending ->
  let s' := getManifest id s in
  children s' = children s
  /\ jobs s' = jobs s
  /\ hlsJobs s' = hlsJobs s
  /\ runningHls s' = runningHls s
  /\ runningThumb s' = runningThumb s
  /\ disk s' = disk s
  /\ requests s' !! length (requests s) = Some (AwaitJob id j).
Proof.
  intros Hreg Hjob Hpending. cbv zeta. unfold Server.getManifest, ensureHls.
  rewrite Hreg. repeat split.
  rewrite (drain_awaiting _ _ id j).
  - unfold Server.resume. cbn [fst jobs add_request set_requests].
    rewrite Hjob. cbn [fmap option_fmap option_map]. rewrite Hpending. reflexivity.
  - cbn [fst requests add_request set_requests].
    rewrite lookup_app_r by lia. rewrite Nat.sub_diag. reflexivity.
Qed.

(** ** The executor up to its first [await] *)

Lemma executor_start_cached j id s :
  existsSync (disk s) (outDir_of cfg id) = true
  \/ mkdirSync_throws (disk s) (outDir_of cfg id) = false ->
  manifest_cached cfg id s = true ->
  executor_start cfg mkdirSync_throws j id (resolveVideoPathById id) s =
  (add_job (settled_job id (Ready (m3u8Path_of cfg id) false))
     (set_disk (ensured (outDir_of cfg id) (disk s)) s), Some j).
Proof.
  intros Hdir. unfold manifest_cached, m3u8Path_of, executor_start.
  rewrite (ensureDir_returns _ _ _ Hdir). cbn [disk set_disk].
  intros ->. reflexivity.
Qed.

Lemma executor_start_busy j id s :
  existsSync (disk s) (outDir_of cfg id) = true
  \/ mkdirSync_throws (disk s) (outDir_of cfg id) = false ->
  manifest_cached cfg id s = false -> MAX_HLS <= runningHls s ->
  executor_start cfg mkdirSync_throws j id (resolveVideoPathById id) s =
  (add_job (settled_job id Busy)
     (set_disk (ensured (outDir_of cfg id) (disk s)) s), Some j).
Proof.
  intros Hdir. unfold manifest_cached, m3u8Path_of, executor_start.
  rewrite (ensureDir_returns _ _ _ Hdir).
  cbn [disk set_disk runningHls]. intros -> Hfull.
  destruct (Z.leb_spec MAX_HLS (runningHls s)); [reflexivity | lia].
Qed.

(** [mkdirSync] throws: the [catch] rejects the job, nothing else is
    done. *)
Lemma executor_start_thrown j id s :
  existsSync (disk s) (outDir_of cfg id) = false ->
  mkdirSync_throws (disk s) (outDir_of cfg id) = true ->
  executor_start cfg mkdirSync_throws j id (resolveVideoPathById id) s =
  (add_job (failed_job id MkdirError) s, Some j).
Proof.
  intros Hdir Hthrows. unfold executor_start.
  rewrite (proj2 (ensureDir_None _ _ _) (conj Hdir Hthrows)). reflexivity.
Qed.

(** A request for an id without registry entry whose job is settled before
    the executor returns: the entry set on line 281 is deleted again by the
    [finally] callback, and the handler goes on in the same turn. *)
Lemma getManifest_settled_at_once s id jb s1 :
  hlsJobs s !! id = None ->
  executor_start cfg mkdirSync_throws (length (jobs s)) id (resolveVideoPathById id) s =
    (add_job jb s1, Some (length (jobs s))) ->
  job_id jb = id -> jobs s1 = jobs s -> hlsJobs s1 = hlsJobs s ->
  requests s1 = requests s ->
  let s' := getManifest id s in
  children s' = children s1
  /\ runningHls s' = runningHls s1
  /\ runningThumb s' = runningThumb s1
  /\ hlsJobs s' = hlsJobs s
  /\ jobs s' = jobs s ++ [jb]
  /\ disk s' = disk s1
  /\ requests s' !! length (requests s) =
       Some (resume (jobs s ++ [jb]) (AwaitJob id (length (jobs s)))).
Proof.
  intros Hreg Hexec Hid Hjobs Hh Hreq. cbv zeta. unfold Server.getManifest, ensureHls.
  rewrite Hreg, Hexec. split; [reflexivity|]. split; [reflexivity|].
  split; [reflexivity|]. split; [|split; [|split; [reflexivity|]]].
  - unfold Server.drain.
    cbn [fst snd hlsJobs jobs add_request add_job set_requests set_hlsJobs set_jobs].
    rewrite Hjobs, Hh, list_lookup_middle by reflexivity. rewrite Hid.
    apply delete_insert_id. exact Hreg.
  - unfold Server.drain.
    cbn [fst snd hlsJobs jobs add_request add_job set_requests set_hlsJobs set_jobs].
    rewrite Hjobs. reflexivity.
  - rewrite (drain_awaiting _ _ id (length (jobs s))).
    + cbn [fst jobs add_request add_job set_requests set_hlsJobs set_jobs].
      rewrite Hjobs. reflexivity.
    + cbn [fst requests add_request add_job set_requests set_hlsJobs set_jobs].
      rewrite Hreq, lookup_app_r by lia. rewrite Nat.sub_diag. reflexivity.
Qed.

Lemma resume_failed jbs id e :
  resume (jbs ++ [failed_job id e]) (AwaitJob id (length jbs)) = Threw e.
Proof.
  unfold Server.resume. rewrite list_lookup_middle by reflexivity. reflexivity.
Qed.

(** A request for an id without registry entry whose directory cannot be
    made: the job is rejected, the handler ends by throwing, and nothing
    else changes. *)
Lemma getManifest_thrown s id :
  hlsJobs s !! id = None ->
  existsSync (disk s) (outDir_of cfg id) = false ->
  mkdirSync_throws (disk s) (outDir_of cfg id) = true ->
  let s' := getManifest id s in
  children s' = children s
  /\ runningHls s' = runningHls s
  /\ runningThumb s' = runningThumb s
  /\ hlsJobs s' = hlsJobs s
  /\ jobs s' = jobs s ++ [failed_job id MkdirError]
  /\ disk s' = disk s
  /\ requests s' !! length (requests s) = Some (Threw MkdirError).
Proof.
  intros Hreg Hdir Hthrows. cbv zeta.
  destruct (getManifest_settled_at_once s id _ s Hreg
              (executor_start_thrown _ id s Hdir Hthrows)
              eq_refl eq_refl eq_refl eq_refl)
    as (Hc & Hh & Ht & Hm & Hj & Hd & Hr).
  rewrite resume_failed in Hr. auto 10.
Qed.

Lemma resume_settled jbs id v :
  resume (jbs ++ [settled_job id v]) (AwaitJob id (length jbs)) =
  match v with
  | Busy => Answered (Response 202 Empty)
  | Ready _ _ => PollManifest (m3u8Path_of cfg id)
  end.
Proof.
  unfold Server.resume. rewrite list_lookup_middle by reflexivity.
  destruct v; reflexivity.
Qed.

(** ** The claims about the manifest endpoint *)

(** C4, as the code has it.  Cache short-circuit: when the manifest of
    [id] is on disk, a manifest request spawns no child and leaves both
    counters alone.  With no job registered for [id], and the directory of
    the manifest on disk as well, the job is fulfilled as ready before the
    executor returns, the registry is left as it was, and the handler
    streams the manifest at its first poll.  With a pending job registered
    for [id] the request waits for that job: the registry is asked on line
    154, before the cache test of line 166. *)
Theorem cached_manifest_short_circuit s id :
  existsSync (disk s) (m3u8Path_of cfg id) = true ->
  let s' := getManifest id s in
  let rid := length (requests s) in
  let manifest :=
    Response 200
      (FileStream (m3u8Path_of cfg id) (js "application/vnd.apple.mpegurl")) in
  children s' = children s
  /\ runningHls s' = runningHls s
  /\ runningThumb s' = runningThumb s
  /\ (hlsJobs s !! id = None ->
      existsSync (disk s) (outDir_of cfg id) = true ->
      jobs s' = jobs s ++ [settled_job id (Ready (m3u8Path_of cfg id) false)]
      /\ hlsJobs s' = hlsJobs s
      /\ requests s' !! rid = Some (PollManifest (m3u8Path_of cfg id))
      /\ exists s'',
           step s' (HandlerTick rid) = Some s''
           /\ requests s'' !! rid = Some (Answered manifest)
           /\ children s'' = children s
           /\ runningHls s'' = runningHls s)
  /\ (forall j jb,
        hlsJobs s !! id = Some j -> jobs s !! j = Some jb -> promise jb = Pending ->
        requests s' !! rid = Some (AwaitJob id j)
        /\ jobs s' = jobs s
        /\ step s' (HandlerTick rid) = None).
Proof.
  intros Hdisk. cbv zeta.
  assert (manifest_cached cfg id s = true) as Hcached
    by (apply existsSync_ensured; exact Hdisk).
  destruct (hlsJobs s !! id) as [j|] eqn:Hreg.
  - split; [|split; [|split; [|split; [discriminate|]]]].
    1-3: unfold Server.getManifest, ensureHls; rewrite Hreg; reflexivity.
    intros j' jb [= <-] Hjob Hp.
    destruct (getManifest_attached s id j jb Hreg Hjob Hp)
      as (_ & Hj & _ & _ & _ & _ & Hr).
    split; [exact Hr|]. split; [exact Hj|].
    cbn [Server.step]. rewrite Hr. reflexivity.
  - assert (existsSync (disk s) (outDir_of cfg id) = true
            \/ mkdirSync_throws (disk s) (outDir_of cfg id) = false
            \/ (existsSync (disk s) (outDir_of cfg id) = false
                /\ mkdirSync_throws (disk s) (outDir_of cfg id) = true)) as Hcases
      by (destruct (existsSync (disk s) (outDir_of cfg id)),
            (mkdirSync_throws (disk s) (outDir_of cfg id)); auto).
    assert (forall Hdir : existsSync (disk s) (outDir_of cfg id) = true
                          \/ mkdirSync_throws (disk s) (outDir_of cfg id) = false,
              let s' := getManifest id s in
              children s' = children s /\ runningHls s' = runningHls s
              /\ runningThumb s' = runningThumb s
              /\ jobs s' = jobs s ++ [settled_job id (Ready (m3u8Path_of cfg id) false)]
              /\ hlsJobs s' = hlsJobs s
              /\ disk s' = ensured (outDir_of cfg id) (disk s)
              /\ requests s' !! length (requests s)
                 = Some (PollManifest (m3u8Path_of cfg id))) as Hready.
    { intros Hdir.
      destruct (getManifest_settled_at_once s id _ _ Hreg
                  (executor_start_cached _ id s Hdir Hcached)
                  eq_refl eq_refl eq_refl eq_refl)
        as (Hc & Hh & Ht & Hm & Hj & Hd & Hr).
      rewrite resume_settled in Hr. cbv zeta. auto 10. }
    split; [|split; [|split; [|split; [|intros ? ? [=]]]]].
    1-3: destruct Hcases as [H | [H | [H1 H2]]];
      [destruct (Hready (or_introl H)) as (? & ? & ? & _); assumption
      |destruct (Hready (or_intror H)) as (? & ? & ? & _); assumption
      |destruct (getManifest_thrown s id Hreg H1 H2) as (? & ? & ? & _); assumption].
    intros _ Hdir.
    destruct (Hready (or_introl Hdir)) as (Hc & Hh & Ht & Hj & Hm & Hd & Hr).
    split; [exact Hj|]. split; [exact Hm|]. split; [exact Hr|].
    eexists. cbn [Server.step]. rewrite Hr. split; [reflexivity|].
    unfold manifest_poll. rewrite Hd. fold (manifest_cached cfg id s).
    rewrite Hcached. cbn [requests set_requests children set_children runningHls].
    split; [|split; assumption].
    apply list_lookup_insert_eq. apply lookup_lt_Some in Hr. exact Hr.
Qed.

(** C6, as the code has it.  Busy load-shedding: a manifest request for an
    id with no registered job and no cached manifest, whose cache directory
    exists or can be made, that finds the running encodes at capacity is
    answered 202 in the same turn; no child is spawned, the counter is not
    touched, and the registry is the same after the turn as before it. *)
Theorem busy_sheds_load s id :
  hlsJobs s !! id = None ->
  existsSync (disk s) (outDir_of cfg id) = true
  \/ mkdirSync_throws (disk s) (outDir_of cfg id) = false ->
  manifest_cached cfg id s = false ->
  MAX_HLS <= runningHls s ->
  let s' := getManifest id s in
  requests s' !! length (requests s) = Some (Answered (Response 202 Empty))
  /\ children s' = children s
  /\ runningHls s' = runningHls s
  /\ hlsJobs s' = hlsJobs s.
Proof.
  intros Hreg Hdir Hcached Hfull. cbv zeta.
  destruct (getManifest_settled_at_once s id _ _ Hreg
              (executor_start_busy _ id s Hdir Hcached Hfull)
              eq_refl eq_refl eq_refl eq_refl)
    as (Hc & Hh & Ht & Hm & Hj & Hd & Hr).
  rewrite resume_settled in Hr. auto.
Qed.

(** ** The end of the encoder *)

Ltac job_simpl :=
  repeat first
    [ progress cbn [jobs update_job set_jobs set_runningHls disk fst snd
                    fmap option_fmap option_map set_waitM3U8 set_released
                    set_promise released outM3u8 promise negb andb]
    | rewrite list_lookup_alter_eq
    | match goal with
      | H : jobs _ !! _ = Some _ |- _ => rewrite H
      | H : promise _ = _ |- _ => rewrite H
      | H : released _ = _ |- _ => rewrite H
      | H : existsSync _ _ = _ |- _ => rewrite H
      end ].

Lemma encoder_close_present s j jb code :
  jobs s !! j = Some jb -> promise jb = Pending -> released jb = false ->
  existsSync (disk s) (outM3u8 jb) = true ->
  promise <$> jobs (encoder_close j code s).1 !! j
    = Some (Fulfilled (Ready (outM3u8 jb) false))
  /\ (encoder_close j code s).2 = Some j.
Proof.
  intros Hjob Hp Hr Hdisk. unfold encoder_close, settle, is_released.
  job_simpl. rewrite andb_false_r. job_simpl. split; reflexivity.
Qed.

Lemma encoder_close_absent_failed s j jb code :
  jobs s !! j = Some jb -> promise jb = Pending -> released jb = false ->
  existsSync (disk s) (outM3u8 jb) = false -> code <> 0 ->
  promise <$> jobs (encoder_close j code s).1 !! j
    = Some (Rejected (FfmpegFailed code))
  /\ (encoder_close j code s).2 = Some j.
Proof.
  intros Hjob Hp Hr Hdisk Hcode. unfold encoder_close, settle, is_released.
  job_simpl. destruct (Z.eqb_spec code 0); [contradiction|].
  job_simpl. split; reflexivity.
Qed.

Lemma encoder_close_absent_zero s j jb :
  jobs s !! j = Some jb -> promise jb = Pending -> released jb = false ->
  existsSync (disk s) (outM3u8 jb) = false ->
  promise <$> jobs (encoder_close j 0 s).1 !! j = Some Pending
  /\ (encoder_close j 0 s).2 = None.
Proof.
  intros Hjob Hp Hr Hdisk. unfold encoder_close, settle, is_released.
  job_simpl. cbn [Z.eqb]. job_simpl. split; reflexivity.
Qed.

Lemma encoder_error_rejects s j jb :
  jobs s !! j = Some jb -> promise jb = Pending -> released jb = false ->
  promise <$> jobs (encoder_error j s).1 !! j = Some (Rejected SpawnError)
  /\ (encoder_error j s).2 = Some j.
Proof.
  intros Hjob Hp Hr. unfold encoder_error, settle, is_released.
  job_simpl. split; reflexivity.
Qed.

(** A job released while the encoder ran keeps its result: neither handler
    settles it again. *)
Lemma released_job_keeps_result s j jb code :
  jobs s !! j = Some jb -> released jb = true ->
  promise <$> jobs (encoder_close j code s).1 !! j = Some (promise jb)
  /\ promise <$> jobs (encoder_error j s).1 !! j = Some (promise jb).
Proof.
  intros Hjob Hr. unfold encoder_close, encoder_error, settle, is_released.
  job_simpl. rewrite andb_false_r. job_simpl. split; reflexivity.
Qed.

Lemma encoder_close_requests j code s : requests (encoder_close j code s).1 = requests s.
Proof.
  unfold encoder_close. repeat case_match; rewrite ?settle_requests; reflexivity.
Qed.

Lemma encoder_error_requests j s : requests (encoder_error j s).1 = requests s.
Proof.
  unfold encoder_error. repeat case_match; rewrite ?settle_requests; reflexivity.
Qed.

Lemma resume_by_promise jbs id j p :
  promise <$> jbs !! j = Some p ->
  resume jbs (AwaitJob id j) =
  match p with
  | Fulfilled Busy => Answered (Response 202 Empty)
  | Fulfilled (Ready _ _) => PollManifest (m3u8Path_of cfg id)
  | Rejected e => Threw e
  | Pending => AwaitJob id j
  end.
Proof. intros H. unfold Server.resume. rewrite H. reflexivity. Qed.

(** C5, as the code has it.  Settlement at the end of the encoder, for a job
    that was not released before: with the manifest on disk the job settles
    as success whatever the exit code; with no manifest and a non-zero exit
    code, or when the child fails to launch, it settles as failure, and in
    no other case does the exit reject it.  The failure reaches a waiting
    manifest request as the rejection of the promise it awaits: the handler
    ends by throwing, [server.js] writes no status for it. *)
Theorem settlement_rule s pid cmd j jb rid id code :
  children s !! pid = Some (Child cmd (JobEncoder j) Running) ->
  jobs s !! j = Some jb -> promise jb = Pending -> released jb = false ->
  requests s !! rid = Some (AwaitJob id j) ->
  let present := existsSync (disk s) (outM3u8 jb) in
  exists closed failed,
    step s (ChildClose pid code) = Some closed
    /\ step s (ChildError pid) = Some failed
    /\ (present = true ->
        promise <$> jobs closed !! j = Some (Fulfilled (Ready (outM3u8 jb) false))
        /\ requests closed !! rid = Some (PollManifest (m3u8Path_of cfg id)))
    /\ (present = false -> code <> 0 ->
        promise <$> jobs closed !! j = Some (Rejected (FfmpegFailed code))
        /\ requests closed !! rid = Some (Threw (FfmpegFailed code)))
    /\ (promise <$> jobs failed !! j = Some (Rejected SpawnError)
        /\ requests failed !! rid = Some (Threw SpawnError))
    /\ (forall e, promise <$> jobs closed !! j = Some (Rejected e) ->
                  present = false /\ code <> 0 /\ e = FfmpegFailed code).
Proof.
  intros Hchild Hjob Hp Hr Hreq. cbv zeta.
  eexists _, _. cbn [Server.step]. unfold on_close, on_error. rewrite Hchild.
  split; [reflexivity|]. split; [reflexivity|].
  set (sc := set_status pid Closed s). set (sf := set_status pid Failed s).
  assert (jobs sc !! j = Some jb) as Hjc by exact Hjob.
  assert (jobs sf !! j = Some jb) as Hjf by exact Hjob.
  assert (forall t, requests t.1 = requests s ->
            requests (drain t) !! rid = Some (resume (jobs t.1) (AwaitJob id j)))
    as Hdrain.
  { intros t Ht. apply drain_awaiting. rewrite Ht. exact Hreq. }
  split; [|split; [|split]].
  - intros Hpresent.
    destruct (encoder_close_present sc j jb code Hjc Hp Hr Hpresent) as [Hq _].
    split; [exact Hq|].
    rewrite Hdrain by exact (encoder_close_requests j code sc).
    rewrite (resume_by_promise _ _ _ _ Hq). reflexivity.
  - intros Habsent Hcode.
    destruct (encoder_close_absent_failed sc j jb code Hjc Hp Hr Habsent Hcode)
      as [Hq _].
    split; [exact Hq|].
    rewrite Hdrain by exact (encoder_close_requests j code sc).
    rewrite (resume_by_promise _ _ _ _ Hq). reflexivity.
  - destruct (encoder_error_rejects sf j jb Hjf Hp Hr) as [Hq _].
    split; [exact Hq|].
    rewrite Hdrain by exact (encoder_error_requests j sf).
    rewrite (resume_by_promise _ _ _ _ Hq). reflexivity.
  - intros e He. change (jobs (drain (encoder_close j code sc))) with
      (jobs (encoder_close j code sc).1) in He.
    destruct (existsSync (disk s) (outM3u8 jb)) eqn:Hpresent.
    + destruct (encoder_close_present sc j jb code Hjc Hp Hr Hpresent) as [Hq _].
      congruence.
    + destruct (Z.eq_dec code 0) as [-> | Hcode].
      * destruct (encoder_close_absent_zero sc j jb Hjc Hp Hr Hpresent) as [Hq _].
        congruence.
      * destruct (encoder_close_absent_failed sc j jb code Hjc Hp Hr Hpresent Hcode)
          as [Hq _].
        split; [reflexivity|]. split; [exact Hcode|]. congruence.
Qed.

(** ** The concurrency gates *)

Lemma run_invariant (P : server -> Prop) :
  (forall s e s', P s -> step s e = Some s' -> P s') ->
  forall es s s', P s -> run s es = Some s' -> P s'.
Proof.
  intros Hstep es. induction es as [|e es IH]; intros s s' Hs Hrun.
  - injection Hrun as <-. exact Hs.
  - cbn [Server.run] in Hrun. destruct (step s e) as [s1|] eqn:E; [|discriminate].
    exact (IH s1 s' (Hstep s e s1 Hs E) Hrun).
Qed.

Lemma getManifest_gate id s :
  runningThumb (getManifest id s) = runningThumb s
  /\ (runningHls (getManifest id s) = runningHls s
      \/ (runningHls s < MAX_HLS
          /\ runningHls (getManifest id s) = runningHls s + 1)).
Proof.
  unfold Server.getManifest, ensureHls.
  destruct (hlsJobs s !! id); [split; [reflexivity | left; reflexivity]|].
  unfold executor_start.
  destruct (ensureDir _ _ _) as [d|]; [|split; [reflexivity | left; reflexivity]].
  cbn [disk set_disk runningHls].
  destruct (existsSync _ _); [split; [reflexivity | left; reflexivity]|].
  destruct (Z.leb_spec MAX_HLS (runningHls s));
    [split; [reflexivity | left; reflexivity]|].
  split; [reflexivity | right; split; [lia | reflexivity]].
Qed.

Lemma getThumb_gate id s :
  runningHls (getThumb cfg id s) = runningHls s
  /\ (runningThumb (getThumb cfg id s) = runningThumb s
      \/ (runningThumb s < MAX_THUMB
          /\ runningThumb (getThumb cfg id s) = runningThumb s + 1)).
Proof.
  unfold getThumb.
  destruct (absFromId cfg (disk s) id); [|split; [reflexivity | left; reflexivity]].
  destruct (existsSync _ _); [split; [reflexivity | left; reflexivity]|].
  destruct (Z.leb_spec MAX_THUMB (runningThumb s));
    [split; [reflexivity | left; reflexivity]|].
  split; [reflexivity | right; split; [lia | reflexivity]].
Qed.

Lemma encoder_close_gate j code s :
  runningHls (encoder_close j code s).1 = runningHls s - 1
  /\ runningThumb (encoder_close j code s).1 = runningThumb s.
Proof.
  unfold encoder_close.
  repeat case_match; rewrite ?settle_runningHls, ?settle_runningThumb;
    split; reflexivity.
Qed.

Lemma encoder_error_gate j s :
  runningHls (encoder_error j s).1 = runningHls s - 1
  /\ runningThumb (encoder_error j s).1 = runningThumb s.
Proof.
  unfold encoder_error.
  repeat case_match; rewrite ?settle_runningHls, ?settle_runningThumb;
    split; reflexivity.
Qed.

Lemma waitM3U8_tick_gate j s :
  runningHls (waitM3U8_tick j s).1 = runningHls s
  /\ runningThumb (waitM3U8_tick j s).1 = runningThumb s.
Proof.
  unfold waitM3U8_tick.
  repeat case_match; rewrite ?settle_runningHls, ?settle_runningThumb;
    split; reflexivity.
Qed.

Lemma answer_gate rid f s :
  runningHls (answer rid f s) = runningHls s
  /\ runningThumb (answer rid f s) = runningThumb s.
Proof. unfold answer. repeat case_match; split; reflexivity. Qed.

(** No turn raises a counter that is at its capacity; every other turn
    leaves it or lowers it. *)
Lemma step_gate s e s' :
  step s e = Some s' ->
  (runningHls s' <= runningHls s
   \/ (runningHls s < MAX_HLS /\ runningHls s' = runningHls s + 1))
  /\ (runningThumb s' <= runningThumb s
      \/ (runningThumb s < MAX_THUMB /\ runningThumb s' = runningThumb s + 1)).
Proof.
  intros Hstep.
  destruct e as [id0|id0|pid|pid code|j0|rid|p|p]; cbn [Server.step] in Hstep.
  - injection Hstep as <-. destruct (getManifest_gate id0 s) as [-> [-> | [? ->]]]; lia.
  - injection Hstep as <-. destruct (getThumb_gate id0 s) as [-> [-> | [? ->]]]; lia.
  - unfold on_error in Hstep.
    destruct (children s !! pid) as [[cmd o []]|]; try discriminate.
    injection Hstep as <-. destruct o as [j1 []|j1|rid|rid];
      try (split; left; cbn; lia).
    + change (runningHls (drain (encoder_error j1 (set_status pid Failed s))))
        with (runningHls (encoder_error j1 (set_status pid Failed s)).1).
      change (runningThumb (drain (encoder_error j1 (set_status pid Failed s))))
        with (runningThumb (encoder_error j1 (set_status pid Failed s)).1).
      destruct (encoder_error_gate j1 (set_status pid Failed s)) as [-> ->].
      cbn. lia.
    + unfold thumb_error.
      destruct (answer_gate rid (fun _ => thumb_failed)
                  (set_runningThumb (runningThumb (set_status pid Failed s) - 1)
                     (set_status pid Failed s))) as [-> ->].
      cbn. lia.
  - unfold on_close in Hstep.
    destruct (children s !! pid) as [[cmd o st]|]; [|discriminate].
    destruct o as [j1 []|j1|rid|rid]; destruct st; try discriminate;
      injection Hstep as <-; try (split; left; cbn; lia).
    all: try (change (runningHls (drain (encoder_close j1 code (set_status pid Closed s))))
        with (runningHls (encoder_close j1 code (set_status pid Closed s)).1);
      change (runningThumb (drain (encoder_close j1 code (set_status pid Closed s))))
        with (runningThumb (encoder_close j1 code (set_status pid Closed s)).1);
      destruct (encoder_close_gate j1 code (set_status pid Closed s)) as [-> ->];
      cbn; lia).
    all: unfold thumb_close;
      match goal with
      | |- context [answer ?r ?f ?t] => destruct (answer_gate r f t) as [-> ->]
      end; cbn; lia.
  - destruct (jobs s !! j0) as [jb|] eqn:E; [|discriminate].
    destruct (waitM3U8 jb); [|discriminate]. injection Hstep as <-.
    change (runningHls (drain (waitM3U8_tick j0 s)))
      with (runningHls (waitM3U8_tick j0 s).1).
    change (runningThumb (drain (waitM3U8_tick j0 s)))
      with (runningThumb (waitM3U8_tick j0 s).1).
    destruct (waitM3U8_tick_gate j0 s) as [-> ->]. lia.
  - destruct (requests s !! rid) as [[]|] eqn:E; try discriminate.
    injection Hstep as <-. unfold manifest_poll. case_match; cbn; lia.
  - injection Hstep as <-. cbn. lia.
  - injection Hstep as <-. cbn. lia.
Qed.

(** The upper half of the gate invariant: neither counter ever exceeds its
    capacity. *)
Lemma gate_never_exceeds_capacity s :
  reachable cfg resolveVideoPathById mkdirSync_throws s ->
  runningHls s <= MAX_HLS /\ runningThumb s <= MAX_THUMB.
Proof.
  intros (files & es & Hrun).
  refine (run_invariant
            (fun s => runningHls s <= MAX_HLS /\ runningThumb s <= MAX_THUMB)
            _ es _ s _ Hrun).
  - intros s0 e s1 [Hh Ht] Hstep.
    destruct (step_gate s0 e s1 Hstep) as [[?|[? ?]] [?|[? ?]]]; lia.
  - cbn. unfold MAX_HLS, MAX_THUMB. lia.
Qed.

(** ** The registry holds exactly the pending jobs *)

Lemma turn_ok_refl s : turn_ok s (s, None).
Proof. split; [reflexivity | intros j'; reflexivity]. Qed.

Lemma lookup_alter_key (f : job -> job) (jbs : list job) j j' :
  (forall jb, key (f jb) = key jb) ->
  key <$> alter f j jbs !! j' = key <$> jbs !! j'.
Proof.
  intros Hf. destruct (decide (j = j')) as [<- | Hne].
  - rewrite list_lookup_alter_eq. destruct (jbs !! j) as [jb|]; [|reflexivity].
    cbn. rewrite Hf. reflexivity.
  - rewrite list_lookup_alter_ne by exact Hne. reflexivity.
Qed.

Lemma turn_ok_update s t j f :
  (forall jb, key (f jb) = key jb) ->
  turn_ok s t -> turn_ok s (update_job j f t.1, t.2).
Proof.
  intros Hf [Hreg Hjobs]. split; [exact Hreg|]. cbn [fst snd].
  destruct t as [s1 [j0|]]; cbn [fst snd] in *.
  - destruct Hjobs as [(jb & jb' & H1 & H2 & H3 & H4 & H5) Hothers]. split.
    + pose proof (lookup_alter_key f (jobs s1) j j0 Hf) as Hk.
      cbn [jobs update_job set_jobs]. rewrite H3 in Hk.
      destruct (alter f j (jobs s1) !! j0) as [jb2|]; [|discriminate].
      injection Hk as Hid Hpr. exists jb, jb2.
      split; [assumption|]. split; [assumption|]. split; [reflexivity|].
      split; congruence.
    + intros j' Hne. cbn [jobs update_job set_jobs].
      rewrite lookup_alter_key by exact Hf. apply Hothers. exact Hne.
  - intros j'. cbn [jobs update_job set_jobs].
    rewrite lookup_alter_key by exact Hf. apply Hjobs.
Qed.

Lemma turn_ok_settle s s1 j p :
  p <> Pending -> turn_ok s (s1, None) -> turn_ok s (settle j p (s1, None)).
Proof.
  intros Hp [Hreg Hjobs]. unfold settle. cbn [fst snd] in *.
  destruct (jobs s1 !! j) as [jb1|] eqn:E; [|split; assumption].
  destruct (promise jb1) eqn:Ep; try (split; assumption).
  split; [exact Hreg|]. cbn [fst snd]. split.
  - pose proof (Hjobs j) as Hk. rewrite E in Hk.
    destruct (jobs s !! j) as [jb|]; [|discriminate]. injection Hk as Hid Hpr.
    exists jb, (set_promise p jb1). cbn [jobs update_job set_jobs].
    rewrite list_lookup_alter_eq, E.
    split; [reflexivity|]. split; [congruence|]. split; [reflexivity|].
    split; [cbn; congruence | exact Hp].
  - intros j' Hne. cbn [jobs update_job set_jobs].
    rewrite list_lookup_alter_ne by congruence. apply Hjobs.
Qed.

Lemma turn_ok_settle_again s t j p :
  t.2 = Some j -> turn_ok s t -> settle j p t = t.
Proof.
  intros Hj [_ Hjobs]. rewrite Hj in Hjobs.
  destruct Hjobs as [(jb & jb' & _ & _ & H3 & _ & H5) _].
  unfold settle. rewrite H3. destruct (promise jb'); [contradiction | |]; reflexivity.
Qed.

Lemma registry_inv_turn s t :
  registry_inv s -> turn_ok s t -> registry_inv (drain t).
Proof.
  intros [Inv1 Inv2] [Hreg Hjobs]. unfold Server.drain.
  destruct t as [s1 [j0|]]; cbn [fst snd] in *.
  - destruct Hjobs as [(jb & jb' & H1 & H2 & H3 & H4 & H5) Hothers].
    rewrite H3, H4, Hreg.
    pose proof (Inv2 j0 jb H1 H2) as Hentry.
    split; cbn [hlsJobs jobs set_requests set_hlsJobs].
    + intros id j Hlook.
      destruct (decide (job_id jb = id)) as [<- | Hne];
        [rewrite lookup_delete_eq in Hlook; discriminate|].
      rewrite lookup_delete_ne in Hlook by exact Hne.
      destruct (Inv1 id j Hlook) as (jbj & Hj & Hpj & Hidj).
      assert (j <> j0) as Hjne by (intros ->; congruence).
      pose proof (Hothers j Hjne) as Hk. rewrite Hj in Hk.
      destruct (jobs s1 !! j) as [jbj'|]; [|discriminate]. injection Hk as Hid Hpr.
      exists jbj'. repeat split; congruence.
    + intros j jbj' Hj Hpj.
      assert (j <> j0) as Hjne by (intros ->; congruence).
      pose proof (Hothers j Hjne) as Hk. rewrite Hj in Hk.
      destruct (jobs s !! j) as [jbj|] eqn:Ej; [|discriminate].
      injection Hk as Hid Hpr.
      pose proof (Inv2 j jbj Ej ltac:(congruence)) as Hentryj.
      rewrite lookup_delete_ne; [congruence|].
      intros Heq. assert (job_id jb = job_id jbj) as Hsame by congruence.
      rewrite <- Hsame, Hentry in Hentryj. congruence.
  - rewrite Hreg. split; cbn [hlsJobs jobs set_requests set_hlsJobs].
    + intros id j Hlook. destruct (Inv1 id j Hlook) as (jbj & Hj & Hpj & Hidj).
      pose proof (Hjobs j) as Hk. rewrite Hj in Hk.
      destruct (jobs s1 !! j) as [jbj'|]; [|discriminate]. injection Hk as Hid Hpr.
      exists jbj'. repeat split; congruence.
    + intros j jbj' Hj Hpj. pose proof (Hjobs j) as Hk. rewrite Hj in Hk.
      destruct (jobs s !! j) as [jbj|] eqn:Ej; [|discriminate].
      injection Hk as Hid Hpr. rewrite Hid. apply (Inv2 j jbj Ej). congruence.
Qed.

Lemma registry_inv_same s s' :
  hlsJobs s' = hlsJobs s -> jobs s' = jobs s -> registry_inv s -> registry_inv s'.
Proof. unfold registry_inv. intros -> ->. auto. Qed.

Lemma turn_ok_same s s1 :
  hlsJobs s1 = hlsJobs s -> jobs s1 = jobs s -> turn_ok s (s1, None).
Proof. intros Hh Hj. split; [exact Hh | intros j'; cbn; rewrite Hj; reflexivity]. Qed.

Lemma registry_inv_flags s s' :
  registry_inv s -> turn_ok s (s', None) ->
  hlsJobs s' = hlsJobs s -> registry_inv s'.
Proof.
  intros Hinv Hok Hh.
  apply (registry_inv_same (drain (s', None)) s'); [reflexivity | reflexivity |].
  apply (registry_inv_turn s); assumption.
Qed.

Lemma settle_snd j p s1 :
  (settle j p (s1, None)).2 = None \/ (settle j p (s1, None)).2 = Some j.
Proof. unfold settle. repeat case_match; auto. Qed.

Lemma turn_ok_settle_any s t j p :
  p <> Pending -> t.2 = None \/ t.2 = Some j -> turn_ok s t ->
  turn_ok s (settle j p t).
Proof.
  intros Hp [Hnone | Hsome] Hok.
  - destruct t as [s1 o]. cbn in Hnone. subst o. apply turn_ok_settle; assumption.
  - rewrite (turn_ok_settle_again s t j p Hsome Hok). exact Hok.
Qed.

Lemma key_set_waitM3U8 b jb : key (set_waitM3U8 b jb) = key jb.
Proof. reflexivity. Qed.
Lemma key_set_released jb : key (set_released jb) = key jb.
Proof. reflexivity. Qed.

Lemma encoder_close_ok s0 s j code :
  turn_ok s0 (s, None) -> turn_ok s0 (encoder_close j code s).
Proof.
  intros Hok. unfold encoder_close.
  set (s2 := update_job j (set_waitM3U8 false) (set_runningHls (runningHls s - 1) s)).
  assert (turn_ok s0 (s2, None)) as Hok2.
  { apply (turn_ok_update s0 (set_runningHls (runningHls s - 1) s, None) j);
      [apply key_set_waitM3U8|]. exact Hok. }
  destruct (jobs s2 !! j) as [jb|]; [|exact Hok2].
  set (t := if negb (released jb) && existsSync (disk s2) (outM3u8 jb)
            then settle j (Fulfilled (Ready (outM3u8 jb) false))
                   (update_job j set_released s2, None)
            else (s2, None)).
  assert (turn_ok s0 t /\ (t.2 = None \/ t.2 = Some j)) as [Hokt Hsnd].
  { subst t. destruct (negb (released jb) && existsSync (disk s2) (outM3u8 jb)).
    - split; [|apply settle_snd].
      apply turn_ok_settle; [discriminate|].
      apply (turn_ok_update s0 (s2, None) j); [apply key_set_released | exact Hok2].
    - split; [exact Hok2 | left; reflexivity]. }
  destruct (negb (code =? 0) && negb (is_released t.1 j)); [|exact Hokt].
  apply turn_ok_settle_any; [discriminate | exact Hsnd | exact Hokt].
Qed.

Lemma encoder_error_ok s0 s j :
  turn_ok s0 (s, None) -> turn_ok s0 (encoder_error j s).
Proof.
  intros Hok. unfold encoder_error.
  set (s2 := update_job j (set_waitM3U8 false) (set_runningHls (runningHls s - 1) s)).
  assert (turn_ok s0 (s2, None)) as Hok2.
  { apply (turn_ok_update s0 (set_runningHls (runningHls s - 1) s, None) j);
      [apply key_set_waitM3U8|]. exact Hok. }
  destruct (negb (is_released s2 j)); [|exact Hok2].
  apply turn_ok_settle; [discriminate | exact Hok2].
Qed.

Lemma waitM3U8_tick_ok s j : turn_ok s (waitM3U8_tick j s).
Proof.
  unfold waitM3U8_tick.
  destruct (jobs s !! j) as [jb|]; [|apply turn_ok_refl].
  destruct (negb (released jb) && existsSync (disk s) (outM3u8 jb));
    [|apply turn_ok_refl].
  apply turn_ok_settle; [discriminate|].
  apply (turn_ok_update s (s, None) j); [reflexivity | apply turn_ok_refl].
Qed.

Lemma registry_inv_getManifest s id :
  registry_inv s -> registry_inv (getManifest id s).
Proof.
  intros [Inv1 Inv2]. unfold Server.getManifest, ensureHls.
  destruct (hlsJobs s !! id) as [j|] eqn:Hreg.
  - apply (registry_inv_turn s); [split; assumption|].
    apply turn_ok_same; reflexivity.
  - set (j := length (jobs s)).
    assert (forall j' jb', jobs s !! j' = Some jb' -> promise jb' = Pending ->
                           job_id jb' <> id) as Hfresh.
    { intros j' jb' Hj' Hp' Heq. rewrite <- Heq, (Inv2 j' jb' Hj' Hp') in Hreg.
      discriminate. }
    assert (forall jb p,
      promise jb <> Pending -> job_id jb = id ->
      registry_inv
        (drain (add_request (AwaitJob id j)
                  (set_hlsJobs (<[id:=j]> (hlsJobs s))
                     (add_job jb (set_disk p s))), Some j))) as Hsettled.
    { intros jb p Hp Hid. unfold Server.drain.
      cbn [fst snd hlsJobs jobs add_request add_job set_requests set_hlsJobs
           set_jobs set_disk].
      subst j. rewrite list_lookup_middle by reflexivity.
      rewrite Hid, delete_insert_id by exact Hreg.
      split; cbn [hlsJobs jobs set_requests set_hlsJobs].
      - intros id' j' Hlook. destruct (Inv1 id' j' Hlook) as (jb' & H1 & H2 & H3).
        exists jb'. split; [apply lookup_app_l_Some; exact H1 | auto].
      - intros j' jb' Hj' Hp'. apply lookup_app_Some in Hj' as [Hj' | [_ Hj']].
        + apply (Inv2 j' jb' Hj' Hp').
        + apply list_lookup_singleton_Some in Hj' as [_ <-]. contradiction. }
    unfold executor_start.
    destruct (ensureDir _ _ _) as [d|].
    2: { destruct s as [h t m jbs cs rs d0].
         apply (Hsettled _ d0); [discriminate | reflexivity]. }
    cbn [disk set_disk runningHls].
    destruct (existsSync _ _); [apply Hsettled; [discriminate | reflexivity]|].
    destruct (MAX_HLS <=? runningHls s); [apply Hsettled; [discriminate | reflexivity]|].
    unfold Server.drain.
    cbn [fst snd hlsJobs jobs add_request add_job spawn set_requests set_hlsJobs
         set_jobs set_disk set_children set_runningHls].
    split; cbn [hlsJobs jobs set_requests set_hlsJobs].
    + intros id' j' Hlook. destruct (decide (id = id')) as [<- | Hne].
      * rewrite lookup_insert_eq in Hlook. injection Hlook as <-.
        eexists. split; [apply list_lookup_middle; reflexivity|]. split; reflexivity.
      * rewrite lookup_insert_ne in Hlook by exact Hne.
        destruct (Inv1 id' j' Hlook) as (jb' & H1 & H2 & H3).
        exists jb'. split; [apply lookup_app_l_Some; exact H1 | auto].
    + intros j' jb' Hj' Hp'. apply lookup_app_Some in Hj' as [Hj' | [Hlen Hj']].
      * rewrite lookup_insert_ne by (apply not_eq_sym; exact (Hfresh j' jb' Hj' Hp')).
        apply (Inv2 j' jb' Hj' Hp').
      * apply list_lookup_singleton_Some in Hj' as [Hz <-]. cbn [job_id].
        rewrite lookup_insert_eq. f_equal. subst j.
        cbn [jobs set_runningHls set_disk] in Hlen, Hz. lia.
Qed.

(** At every reachable state the registry holds exactly the pending jobs,
    each under its own id: no two pending jobs share an id. *)
Lemma registry_inv_step s e s' :
  registry_inv s -> step s e = Some s' -> registry_inv s'.
Proof.
  intros Hinv Hstep.
  destruct e as [id0|id0|pid|pid code|j0|rid|p|p]; cbn [Server.step] in Hstep.
  - injection Hstep as <-. apply registry_inv_getManifest. exact Hinv.
  - injection Hstep as <-. revert Hinv. apply registry_inv_same;
      unfold getThumb; repeat case_match; reflexivity.
  - unfold on_error in Hstep.
    destruct (children s !! pid) as [[cmd o []]|]; try discriminate.
    injection Hstep as <-. destruct o as [j1 []|j1|rid|rid].
    + revert Hinv. apply registry_inv_same; reflexivity.
    + apply (registry_inv_flags s); [exact Hinv | | reflexivity].
      apply (turn_ok_update s (spawn FFMPEG (JobEncoder j1) (set_status pid Failed s), None) j1);
        [reflexivity | apply turn_ok_same; reflexivity].
    + apply (registry_inv_turn s); [exact Hinv|].
      apply encoder_error_ok. apply turn_ok_same; reflexivity.
    + revert Hinv. apply registry_inv_same; reflexivity.
    + revert Hinv. apply registry_inv_same;
        unfold thumb_error, answer; repeat case_match; reflexivity.
  - unfold on_close in Hstep.
    destruct (children s !! pid) as [[cmd o st]|]; [|discriminate].
    destruct o as [j1 []|j1|rid|rid]; destruct st; try discriminate;
      injection Hstep as <-.
    all: try (revert Hinv; apply registry_inv_same; reflexivity).
    all: try (apply (registry_inv_flags s); [exact Hinv | | reflexivity];
              apply (turn_ok_update s
                       (spawn FFMPEG (JobEncoder j1) (set_status pid Closed s), None) j1);
              [reflexivity | apply turn_ok_same; reflexivity]).
    all: try (apply (registry_inv_turn s); [exact Hinv|];
              apply encoder_close_ok; apply turn_ok_same; reflexivity).
    all: revert Hinv; apply registry_inv_same;
      unfold thumb_close, answer; repeat case_match; reflexivity.
  - destruct (jobs s !! j0) as [jb|] eqn:E; [|discriminate].
    destruct (waitM3U8 jb); [|discriminate]. injection Hstep as <-.
    apply (registry_inv_turn s); [exact Hinv | apply waitM3U8_tick_ok].
  - destruct (requests s !! rid) as [[]|] eqn:E; try discriminate.
    injection Hstep as <-. revert Hinv. apply registry_inv_same;
      unfold manifest_poll; case_match; reflexivity.
  - injection Hstep as <-. revert Hinv. apply registry_inv_same; reflexivity.
  - injection Hstep as <-. revert Hinv. apply registry_inv_same; reflexivity.
Qed.

Lemma registry_inv_reachable s :
  reachable cfg resolveVideoPathById mkdirSync_throws s -> registry_inv s.
Proof.
  intros (files & es & Hrun).
  refine (run_invariant registry_inv registry_inv_step es _ s _ Hrun).
  split.
  - intros id j Hlook. cbn in Hlook. rewrite lookup_empty in Hlook. discriminate.
  - intros j jb Hj. cbn in Hj. discriminate.
Qed.

(** Single flight as an invariant: two distinct pending jobs never carry
    the same id. *)
Lemma pending_jobs_have_distinct_ids s j1 j2 jb1 jb2 :
  reachable cfg resolveVideoPathById mkdirSync_throws s ->
  jobs s !! j1 = Some jb1 -> jobs s !! j2 = Some jb2 ->
  promise jb1 = Pending -> promise jb2 = Pending ->
  job_id jb1 = job_id jb2 -> j1 = j2.
Proof.
  intros Hreach H1 H2 Hp1 Hp2 Hid.
  destruct (registry_inv_reachable s Hreach) as [_ Inv2].
  pose proof (Inv2 j1 jb1 H1 Hp1) as E1. pose proof (Inv2 j2 jb2 H2 Hp2) as E2.
  congruence.
Qed.

(** ** Every job has at most one encoder *)

Lemma settle_shape j p t :
  children (settle j p t).1 = children t.1
  /\ length (jobs (settle j p t).1) = length (jobs t.1).
Proof.
  unfold settle. repeat case_match; split; try reflexivity.
  cbn [fst jobs update_job set_jobs]. apply length_alter.
Qed.

Lemma encoder_close_shape j code s :
  children (encoder_close j code s).1 = children s
  /\ length (jobs (encoder_close j code s).1) = length (jobs s).
Proof.
  unfold encoder_close.
  repeat case_match;
    repeat match goal with
    | |- context [settle ?j ?p ?t] =>
        let H1 := fresh in let H2 := fresh in
        destruct (settle_shape j p t) as [H1 H2]; rewrite H1, H2; clear H1 H2
    end;
    cbn [fst children jobs update_job set_jobs set_runningHls];
    rewrite ?length_alter; split; reflexivity.
Qed.

Lemma encoder_error_shape j s :
  children (encoder_error j s).1 = children s
  /\ length (jobs (encoder_error j s).1) = length (jobs s).
Proof.
  unfold encoder_error.
  repeat case_match;
    repeat match goal with
    | |- context [settle ?j ?p ?t] =>
        let H1 := fresh in let H2 := fresh in
        destruct (settle_shape j p t) as [H1 H2]; rewrite H1, H2; clear H1 H2
    end;
    cbn [fst children jobs update_job set_jobs set_runningHls];
    rewrite ?length_alter; split; reflexivity.
Qed.

Lemma waitM3U8_tick_shape j s :
  children (waitM3U8_tick j s).1 = children s
  /\ length (jobs (waitM3U8_tick j s).1) = length (jobs s).
Proof.
  unfold waitM3U8_tick.
  repeat case_match;
    repeat match goal with
    | |- context [settle ?j ?p ?t] =>
        let H1 := fresh in let H2 := fresh in
        destruct (settle_shape j p t) as [H1 H2]; rewrite H1, H2; clear H1 H2
    end;
    cbn [fst children jobs update_job set_jobs set_runningHls];
    rewrite ?length_alter; split; reflexivity.
Qed.

Lemma answer_shape rid f s :
  children (answer rid f s) = children s /\ jobs (answer rid f s) = jobs s.
Proof. unfold answer. repeat case_match; split; reflexivity. Qed.

Lemma children_inv_same s s' :
  children s' = children s -> length (jobs s') = length (jobs s) ->
  children_inv s -> children_inv s'.
Proof. unfold children_inv. intros -> ->. auto. Qed.

Lemma children_inv_step s e s' :
  children_inv s -> step s e = Some s' -> children_inv s'.
Proof.
  intros Hinv Hstep.
  destruct e as [id0|id0|pid|pid code|j0|rid|p|p]; cbn [Server.step] in Hstep.
  - (* GetManifest *)
    injection Hstep as <-. unfold children_inv, getManifest, ensureHls.
    destruct (hlsJobs s !! id0); [exact Hinv|].
    unfold executor_start.
    destruct (ensureDir _ _ _) as [d|];
      [|cbn; rewrite length_app; apply (children_ok_mono (length (jobs s)));
        [lia | exact Hinv]].
    cbn [disk set_disk runningHls].
    destruct (existsSync _ _);
      [cbn; rewrite length_app; apply (children_ok_mono (length (jobs s)));
       [lia | exact Hinv]|].
    destruct (MAX_HLS <=? runningHls s);
      [cbn; rewrite length_app; apply (children_ok_mono (length (jobs s)));
       [lia | exact Hinv]|].
    cbn. rewrite length_app, Nat.add_1_r.
    apply children_ok_spawn_vprobe. exact Hinv.
  - (* GetThumb *)
    injection Hstep as <-. unfold children_inv, getThumb.
    repeat case_match; try exact Hinv.
    cbn. apply children_ok_spawn_thumb; [reflexivity | reflexivity | exact Hinv].
  - (* ChildError *)
    unfold on_error in Hstep.
    destruct (children s !! pid) as [[cmd o []]|] eqn:Hpid; try discriminate.
    injection Hstep as <-. unfold children_inv.
    destruct o as [j1 []|j1|rid|rid].
    + apply (children_ok_spawn_aprobe _ _ pid cmd); [exact Hinv | exact Hpid | discriminate].
    + cbn. rewrite length_alter.
      apply (children_ok_spawn_encoder _ _ pid cmd); [exact Hinv | exact Hpid | discriminate].
    + change (children_ok
                (length (jobs (encoder_error j1 (set_status pid Failed s)).1))
                (children (encoder_error j1 (set_status pid Failed s)).1)).
      destruct (encoder_error_shape j1 (set_status pid Failed s)) as [-> ->].
      apply children_ok_status; [discriminate | exact Hinv].
    + apply children_ok_spawn_thumb; [reflexivity | reflexivity |].
      apply children_ok_status; [discriminate | exact Hinv].
    + unfold thumb_error.
      match goal with
      | |- context [answer ?r ?f ?t] => destruct (answer_shape r f t) as [-> ->]
      end.
      apply children_ok_status; [discriminate | exact Hinv].
  - (* ChildClose *)
    unfold on_close in Hstep.
    destruct (children s !! pid) as [[cmd o st]|] eqn:Hpid; [|discriminate].
    assert (children_ok (length (jobs s))
              (alter (set_child_status Closed) pid (children s))) as Hclosed
      by (apply children_ok_status; [discriminate | exact Hinv]).
    unfold children_inv.
    destruct o as [j1 []|j1|rid|rid]; destruct st; try discriminate;
      injection Hstep as <-.
    + apply (children_ok_spawn_aprobe _ _ pid cmd); [exact Hinv | exact Hpid | discriminate].
    + exact Hclosed.
    + cbn. rewrite length_alter.
      apply (children_ok_spawn_encoder _ _ pid cmd); [exact Hinv | exact Hpid | discriminate].
    + exact Hclosed.
    + change (children_ok
                (length (jobs (encoder_close j1 code (set_status pid Closed s)).1))
                (children (encoder_close j1 code (set_status pid Closed s)).1)).
      destruct (encoder_close_shape j1 code (set_status pid Closed s)) as [-> ->].
      exact Hclosed.
    + change (children_ok
                (length (jobs (encoder_close j1 code (set_status pid Closed s)).1))
                (children (encoder_close j1 code (set_status pid Closed s)).1)).
      destruct (encoder_close_shape j1 code (set_status pid Closed s)) as [-> ->].
      exact Hclosed.
    + apply children_ok_spawn_thumb; [reflexivity | reflexivity | exact Hclosed].
    + exact Hclosed.
    + unfold thumb_close.
      match goal with
      | |- context [answer ?r ?f ?t] => destruct (answer_shape r f t) as [-> ->]
      end.
      exact Hclosed.
    + unfold thumb_close.
      match goal with
      | |- context [answer ?r ?f ?t] => destruct (answer_shape r f t) as [-> ->]
      end.
      exact Hclosed.
  - (* IntervalTick *)
    destruct (jobs s !! j0) as [jb|] eqn:E; [|discriminate].
    destruct (waitM3U8 jb); [|discriminate]. injection Hstep as <-.
    unfold children_inv.
    change (children_ok (length (jobs (waitM3U8_tick j0 s).1))
              (children (waitM3U8_tick j0 s).1)).
    destruct (waitM3U8_tick_shape j0 s) as [-> ->]. exact Hinv.
  - destruct (requests s !! rid) as [[]|] eqn:E; try discriminate.
    injection Hstep as <-. revert Hinv. apply children_inv_same;
      unfold manifest_poll; case_match; reflexivity.
  - injection Hstep as <-. exact Hinv.
  - injection Hstep as <-. exact Hinv.
Qed.


Lemma children_inv_reachable s :
  reachable cfg resolveVideoPathById mkdirSync_throws s -> children_inv s.
Proof.
  intros (files & es & Hrun).
  refine (run_invariant children_inv children_inv_step es _ s _ Hrun).
  repeat split; intros; cbn in *; discriminate.
Qed.

(** No job ever has two encoder children. *)
Lemma one_encoder_per_job s pid1 pid2 c1 c2 j :
  reachable cfg resolveVideoPathById mkdirSync_throws s ->
  children s !! pid1 = Some c1 -> children s !! pid2 = Some c2 ->
  child_owner c1 = JobEncoder j -> child_owner c2 = JobEncoder j ->
  pid1 = pid2.
Proof.
  intros Hreach H1 H2 Ho1 Ho2.
  destruct (children_inv_reachable s Hreach) as (_ & K1 & _).
  apply (K1 pid1 pid2 c1 c2 H1 H2); [congruence|].
  rewrite Ho1. cbn. eauto.
Qed.

(** Single flight over whole runs: the encoders of pending jobs for one id
    are one and the same child. *)
Lemma one_encoder_per_outstanding_id s pid1 pid2 c1 c2 j1 j2 jb1 jb2 :
  reachable cfg resolveVideoPathById mkdirSync_throws s ->
  children s !! pid1 = Some c1 -> child_owner c1 = JobEncoder j1 ->
  children s !! pid2 = Some c2 -> child_owner c2 = JobEncoder j2 ->
  jobs s !! j1 = Some jb1 -> promise jb1 = Pending ->
  jobs s !! j2 = Some jb2 -> promise jb2 = Pending ->
  job_id jb1 = job_id jb2 ->
  pid1 = pid2.
Proof.
  intros Hreach H1 Ho1 H2 Ho2 Hj1 Hp1 Hj2 Hp2 Hid.
  assert (j1 = j2) as <-
    by exact (pending_jobs_have_distinct_ids s j1 j2 jb1 jb2 Hreach Hj1 Hj2 Hp1 Hp2 Hid).
  exact (one_encoder_per_job s pid1 pid2 c1 c2 j1 Hreach H1 H2 Ho1 Ho2).
Qed.

(** ** The handlers that wait for a job *)

Lemma turn_ok_advance s t : turn_ok s t -> jobs_advance (jobs s) (jobs t.1).
Proof.
  intros [_ Hjobs] j jb Hj. destruct t as [s1 [j0|]]; cbn [fst snd] in *.
  - destruct Hjobs as [(jb0 & jb0' & H1 & H2 & H3 & H4 & _) Hothers].
    destruct (decide (j = j0)) as [-> | Hne].
    + exists jb0'. split; [exact H3|]. split; [congruence|]. right. congruence.
    + pose proof (Hothers j Hne) as Hk. rewrite Hj in Hk.
      destruct (jobs s1 !! j) as [jb'|]; [|discriminate].
      injection Hk as Hid Hp. exists jb'. split; [reflexivity|].
      split; [exact Hid | left; exact Hp].
  - pose proof (Hjobs j) as Hk. rewrite Hj in Hk.
    destruct (jobs s1 !! j) as [jb'|]; [|discriminate].
    injection Hk as Hid Hp. exists jb'. split; [reflexivity|].
    split; [exact Hid | left; exact Hp].
Qed.

Lemma turn_ok_jobs_same s s1 : turn_ok s (s1, None) -> jobs_same (jobs s) (jobs s1).
Proof.
  intros [_ Hjobs] j jb Hj. cbn [fst snd] in Hjobs.
  pose proof (Hjobs j) as Hk. rewrite Hj in Hk.
  destruct (jobs s1 !! j) as [jb'|]; [|discriminate].
  injection Hk as Hid Hp. exists jb'. split; [reflexivity|]. split; assumption.
Qed.

Lemma jobs_same_refl jbs : jobs_same jbs jbs.
Proof. intros j jb Hj. exists jb. split; [exact Hj|]. split; reflexivity. Qed.

Lemma jobs_same_advance jbs jbs' : jobs_same jbs jbs' -> jobs_advance jbs jbs'.
Proof.
  intros H j jb Hj. destruct (H j jb Hj) as (jb' & H1 & H2 & H3).
  exists jb'. split; [exact H1|]. split; [exact H2 | left; exact H3].
Qed.

Lemma jobs_same_alter (f : job -> job) j jbs :
  (forall jb, key (f jb) = key jb) -> jobs_same jbs (alter f j jbs).
Proof.
  intros Hf j' jb Hj. pose proof (lookup_alter_key f jbs j j' Hf) as Hk.
  rewrite Hj in Hk. destruct (alter f j jbs !! j') as [jb'|]; [|discriminate].
  injection Hk as Hid Hp. exists jb'. split; [reflexivity|]. split; assumption.
Qed.

Lemma advances_refl q : advances q q.
Proof. left. reflexivity. Qed.

Lemma requests_advance_refl rs : requests_advance rs rs.
Proof.
  split.
  - intros r q Hr. exists q. split; [exact Hr | apply advances_refl].
  - intros r q' Hr Hn. congruence.
Qed.

Lemma requests_advance_answer rid f s :
  requests_advance (requests s) (requests (answer rid f s)).
Proof.
  unfold answer. destruct (requests s !! rid) as [q0|] eqn:E; [|apply requests_advance_refl].
  destruct q0; try apply requests_advance_refl.
  cbn [requests set_requests]. split.
  - intros r q Hr. destruct (decide (r = rid)) as [-> | Hne].
    + rewrite list_lookup_insert_eq by (apply lookup_lt_Some in E; exact E).
      eexists. split; [reflexivity|]. right. right.
      rewrite E in Hr. injection Hr as <-. eauto.
    + rewrite list_lookup_insert_ne by congruence.
      exists q. split; [exact Hr | apply advances_refl].
  - intros r q' Hr Hn. apply lookup_lt_Some in Hr. rewrite length_insert in Hr.
    apply lookup_ge_None in Hn. lia.
Qed.

Lemma requests_advance_poll rid m s :
  requests s !! rid = Some (PollManifest m) ->
  requests_advance (requests s) (requests (manifest_poll rid m s)).
Proof.
  intros E. unfold manifest_poll.
  destruct (existsSync (disk s) m); [|apply requests_advance_refl].
  cbn [requests set_requests]. split.
  - intros r q Hr. destruct (decide (r = rid)) as [-> | Hne].
    + rewrite list_lookup_insert_eq by (apply lookup_lt_Some in E; exact E).
      eexists. split; [reflexivity|]. right. left.
      rewrite E in Hr. injection Hr as <-. eauto.
    + rewrite list_lookup_insert_ne by congruence.
      exists q. split; [exact Hr | apply advances_refl].
  - intros r q' Hr Hn. apply lookup_lt_Some in Hr. rewrite length_insert in Hr.
    apply lookup_ge_None in Hn. lia.
Qed.

Lemma requests_advance_add q0 rs :
  (forall id j, q0 <> AwaitJob id j) -> requests_advance rs (rs ++ [q0]).
Proof.
  intros Hq0. split.
  - intros r q Hr. exists q. split; [apply lookup_app_l_Some; exact Hr | apply advances_refl].
  - intros r q' Hr Hn. apply lookup_ge_None in Hn.
    rewrite lookup_app_r in Hr by exact Hn.
    apply list_lookup_singleton_Some in Hr as [_ <-]. exact Hq0.
Qed.

Lemma resume_not_awaiting jbs q :
  (forall id j, q <> AwaitJob id j) -> resume jbs q = q.
Proof. intros H. destruct q; try reflexivity. exfalso. exact (H _ _ eq_refl). Qed.

Lemma resume_awaiting jbs q id j :
  resume jbs q = AwaitJob id j ->
  q = AwaitJob id j /\ (promise <$> jbs !! j = Some Pending \/ jbs !! j = None).
Proof.
  destruct q as [id0 j0| | | |]; cbn [Server.resume]; try discriminate.
  destruct (jbs !! j0) as [jb|] eqn:E; cbn [fmap option_fmap option_map].
  - destruct (promise jb) as [|[]|] eqn:Ep; try discriminate.
    intros [= -> ->]. split; [reflexivity|]. left. rewrite E. cbn. rewrite Ep. reflexivity.
  - intros [= -> ->]. split; [reflexivity|]. right. exact E.
Qed.

Lemma outcome_resume id j jb jbs :
  jbs !! j = Some jb -> outcome cfg id j (promise jb) (resume jbs (AwaitJob id j)).
Proof.
  intros Hj. unfold Server.resume. rewrite Hj. cbn [fmap option_fmap option_map].
  destruct (promise jb) as [|[]|]; cbn [outcome]; auto.
Qed.

Lemma outcome_settled id j p q :
  p <> Pending -> outcome cfg id j p q -> forall id' j', q <> AwaitJob id' j'.
Proof.
  intros Hp Ho id' j' ->. destruct p as [|[]|]; cbn [outcome] in Ho;
    [contradiction | destruct Ho; discriminate | discriminate | discriminate].
Qed.

Lemma outcome_advances id j p q q' :
  p <> Pending -> outcome cfg id j p q -> advances q q' -> outcome cfg id j p q'.
Proof.
  intros Hp Ho [-> | [(m & -> & ->) | (o & resp & -> & ->)]]; [exact Ho | |].
  - destruct p as [|[]|]; cbn [outcome] in *; try discriminate; try contradiction.
    destruct Ho as [[= <-] | ?]; [right; reflexivity | discriminate].
  - destruct p as [|[]|]; cbn [outcome] in *; try discriminate; try contradiction.
    destruct Ho; discriminate.
Qed.

(** The end of a turn that resumed the waiting handlers, seen from one of
    them and from the invariant. *)
Lemma resumed_turn s s' extra :
  jobs_advance (jobs s) (jobs s') ->
  requests s' = resume (jobs s') <$> (requests s ++ extra) ->
  (forall q, q ∈ extra -> exists id j, q = AwaitJob id j /\ is_Some (jobs s' !! j)) ->
  waiting_inv s ->
  waiting_inv s'
  /\ forall id j r, observes cfg id j s r -> observes cfg id j s' r.
Proof.
  intros Hadv Hreq Hextra Hw. split.
  - intros r id j Hr. rewrite Hreq, list_lookup_fmap in Hr.
    destruct ((requests s ++ extra) !! r) as [q|] eqn:Eq; [|discriminate].
    injection Hr as Hr. apply resume_awaiting in Hr as [-> Hp].
    assert (is_Some (jobs s' !! j)) as [jb' Hj'].
    { apply lookup_app_Some in Eq as [Eq | [_ Eq]].
      - destruct (Hw r id j Eq) as (jb & Hj & _).
        destruct (Hadv j jb Hj) as (jb' & Hj' & _). eauto.
      - apply list_elem_of_lookup_2 in Eq.
        destruct (Hextra _ Eq) as (id' & j' & [= <- <-] & Hs). exact Hs. }
    exists jb'. split; [exact Hj'|].
    destruct Hp as [Hp | Hp]; [|congruence].
    rewrite Hj' in Hp. injection Hp as Hp. exact Hp.
  - intros id j r (jb & q & Hj & Hid & Hr & Ho).
    destruct (Hadv j jb Hj) as (jb' & Hj' & Hid' & Hp).
    assert (requests s' !! r = Some (resume (jobs s') q)) as Hr'.
    { rewrite Hreq, list_lookup_fmap, (lookup_app_l_Some _ _ _ _ Hr). reflexivity. }
    exists jb', (resume (jobs s') q). split; [exact Hj'|]. split; [congruence|].
    split; [exact Hr'|].
    destruct (promise jb) eqn:Ep.
    + cbn [outcome] in Ho. subst q. apply outcome_resume. exact Hj'.
    + destruct Hp as [Hp | Hp]; [|discriminate].
      rewrite resume_not_awaiting
        by (apply (outcome_settled id j (Fulfilled v)); [discriminate | exact Ho]).
      rewrite Hp. exact Ho.
    + destruct Hp as [Hp | Hp]; [|discriminate].
      rewrite resume_not_awaiting
        by (apply (outcome_settled id j (Rejected e)); [discriminate | exact Ho]).
      rewrite Hp. exact Ho.
Qed.

(** A turn that resumed nobody. *)
Lemma quiet_turn s s' :
  jobs_same (jobs s) (jobs s') ->
  requests_advance (requests s) (requests s') ->
  waiting_inv s ->
  waiting_inv s'
  /\ forall id j r, observes cfg id j s r -> observes cfg id j s' r.
Proof.
  intros Hsame [Hold Hnew] Hw. split.
  - intros r id j Hr.
    destruct (requests s !! r) as [q|] eqn:Eq;
      [|exfalso; exact (Hnew r _ Hr Eq id j eq_refl)].
    destruct (Hold r q Eq) as (q' & Hq' & Hadv).
    rewrite Hr in Hq'. injection Hq' as <-.
    assert (q = AwaitJob id j) as ->
      by (destruct Hadv as [? | [(m & _ & ?) | (o & resp & _ & ?)]];
          [auto | discriminate | discriminate]).
    destruct (Hw r id j Eq) as (jb & Hj & Hp).
    destruct (Hsame j jb Hj) as (jb' & Hj' & _ & Hp'). exists jb'. split; congruence.
  - intros id j r (jb & q & Hj & Hid & Hr & Ho).
    destruct (Hsame j jb Hj) as (jb' & Hj' & Hid' & Hp').
    destruct (Hold r q Hr) as (q' & Hq' & Hadv).
    exists jb', q'. split; [exact Hj'|]. split; [congruence|].
    split; [exact Hq'|]. rewrite Hp'.
    destruct (promise jb) eqn:Ep.
    + cbn [outcome] in *. subst q.
      destruct Hadv as [? | [(m & ? & _) | (o & resp & ? & _)]];
        [assumption | discriminate | discriminate].
    + apply (outcome_advances id j _ q); [discriminate | exact Ho | exact Hadv].
    + apply (outcome_advances id j _ q); [discriminate | exact Ho | exact Hadv].
Qed.

Lemma waitM3U8_tick_requests j s : requests (waitM3U8_tick j s).1 = requests s.
Proof.
  unfold waitM3U8_tick. repeat case_match; rewrite ?settle_requests; reflexivity.
Qed.

Lemma drained_turn s t :
  turn_ok s t -> requests t.1 = requests s ->
  jobs_advance (jobs s) (jobs (drain t))
  /\ requests (drain t) = resume (jobs (drain t)) <$> (requests s ++ []).
Proof.
  intros Hok Hreq. split.
  - exact (turn_ok_advance s t Hok).
  - unfold Server.drain. cbn [requests jobs set_requests set_hlsJobs].
    rewrite Hreq, app_nil_r. reflexivity.
Qed.

Lemma no_extra (jbs : list job) (q : request) :
  q ∈ @nil request -> exists id j, q = AwaitJob id j /\ is_Some (jbs !! j).
Proof. intros H. inversion H. Qed.

Lemma getManifest_handlers s id :
  registry_inv s ->
  exists j,
    jobs_advance (jobs s) (jobs (getManifest id s))
    /\ requests (getManifest id s)
       = resume (jobs (getManifest id s)) <$> (requests s ++ [AwaitJob id j])
    /\ is_Some (jobs (getManifest id s) !! j).
Proof.
  intros [Inv1 _]. unfold Server.getManifest, ensureHls.
  destruct (hlsJobs s !! id) as [j|] eqn:Hreg.
  - exists j. destruct (Inv1 id j Hreg) as (jb & Hj & _).
    split; [apply jobs_same_advance, jobs_same_refl|].
    split; [reflexivity | exists jb; exact Hj].
  - exists (length (jobs s)).
    assert (forall jb : job, jobs_advance (jobs s) (jobs s ++ [jb])) as Hadv.
    { intros jb j jb0 Hj. exists jb0.
      split; [apply lookup_app_l_Some; exact Hj|]. split; [reflexivity | left; reflexivity]. }
    unfold executor_start.
    destruct (ensureDir _ _ _) as [d|];
      [cbn [disk set_disk runningHls]; destruct (existsSync d _);
       [|destruct (MAX_HLS <=? runningHls s)]|];
      (split; [apply Hadv|]; split; [reflexivity|];
       cbn; rewrite list_lookup_middle by reflexivity; eauto).
Qed.

(** Every turn keeps the invariant of the waiting handlers, and a handler
    that awaited a job stays in step with the promise of that job. *)
Lemma step_handlers s e s' :
  registry_inv s -> waiting_inv s -> step s e = Some s' ->
  waiting_inv s'
  /\ forall id j r, observes cfg id j s r -> observes cfg id j s' r.
Proof.
  intros Hreg Hw Hstep.
  assert (forall t, turn_ok s t -> requests t.1 = requests s ->
            waiting_inv (drain t)
            /\ forall id j r, observes cfg id j s r -> observes cfg id j (drain t) r)
    as Hdrained.
  { intros t Hok Hreq. destruct (drained_turn s t Hok Hreq) as [Hadv Hrs].
    exact (resumed_turn s (drain t) [] Hadv Hrs (no_extra _) Hw). }
  assert (forall s1, jobs s1 = jobs s -> requests_advance (requests s) (requests s1) ->
            waiting_inv s1
            /\ forall id j r, observes cfg id j s r -> observes cfg id j s1 r)
    as Hquiet.
  { intros s1 Hj Hr. apply (quiet_turn s s1); [|exact Hr | exact Hw].
    rewrite Hj. apply jobs_same_refl. }
  assert (forall s1 j1 f, (forall jb, key (f jb) = key jb) ->
            jobs s1 = jobs s -> requests s1 = requests s ->
            waiting_inv (update_job j1 f s1)
            /\ forall id j r, observes cfg id j s r -> observes cfg id j (update_job j1 f s1) r)
    as Hflags.
  { intros s1 j1 f Hf Hj Hr. apply (quiet_turn s (update_job j1 f s1)).
    - cbn [jobs update_job set_jobs]. rewrite Hj. apply jobs_same_alter. exact Hf.
    - cbn [requests update_job set_jobs]. rewrite Hr. apply requests_advance_refl.
    - exact Hw. }
  destruct e as [id0|id0|pid|pid code|j0|rid|p|p]; cbn [Server.step] in Hstep.
  - injection Hstep as <-.
    destruct (getManifest_handlers s id0 Hreg) as (j1 & Hadv & Hrs & Hsome).
    apply (resumed_turn s _ [AwaitJob id0 j1] Hadv Hrs); [|exact Hw].
    intros q Hq. apply list_elem_of_singleton in Hq as ->. eauto.
  - injection Hstep as <-. apply Hquiet.
    + unfold getThumb; repeat case_match; reflexivity.
    + unfold getThumb; repeat case_match;
        cbn [requests add_request set_requests spawn set_children set_runningThumb];
        apply requests_advance_add; discriminate.
  - unfold on_error in Hstep.
    destruct (children s !! pid) as [[cmd o []]|]; try discriminate.
    injection Hstep as <-. destruct o as [j1 []|j1|rid|rid].
    + apply Hquiet; [reflexivity | apply requests_advance_refl].
    + apply Hflags; reflexivity.
    + apply Hdrained; [|rewrite encoder_error_requests; reflexivity].
      apply encoder_error_ok. apply turn_ok_same; reflexivity.
    + apply Hquiet; [reflexivity | apply requests_advance_refl].
    + apply Hquiet.
      * unfold thumb_error.
        match goal with
        | |- context [answer ?r ?f ?t] => destruct (answer_shape r f t) as [_ ->]
        end. reflexivity.
      * unfold thumb_error.
        match goal with
        | |- context [answer ?r ?f ?t] => exact (requests_advance_answer r f t)
        end.
  - unfold on_close in Hstep.
    destruct (children s !! pid) as [[cmd o st]|]; [|discriminate].
    destruct o as [j1 []|j1|rid|rid]; destruct st; try discriminate;
      injection Hstep as <-.
    all: try (apply Hquiet; [reflexivity | apply requests_advance_refl]).
    all: try (apply Hflags; reflexivity).
    all: try (apply Hdrained; [|rewrite encoder_close_requests; reflexivity];
              apply encoder_close_ok; apply turn_ok_same; reflexivity).
    all: apply Hquiet;
      [unfold thumb_close;
       match goal with
       | |- context [answer ?r ?f ?t] => destruct (answer_shape r f t) as [_ ->]
       end; reflexivity
      |unfold thumb_close;
       match goal with
       | |- context [answer ?r ?f ?t] => exact (requests_advance_answer r f t)
       end].
  - destruct (jobs s !! j0) as [jb|] eqn:E; [|discriminate].
    destruct (waitM3U8 jb); [|discriminate]. injection Hstep as <-.
    apply Hdrained; [apply waitM3U8_tick_ok | apply waitM3U8_tick_requests].
  - destruct (requests s !! rid) as [[]|] eqn:E; try discriminate.
    injection Hstep as <-. apply Hquiet.
    + unfold manifest_poll; case_match; reflexivity.
    + apply requests_advance_poll. exact E.
  - injection Hstep as <-. apply Hquiet; [reflexivity | apply requests_advance_refl].
  - injection Hstep as <-. apply Hquiet; [reflexivity | apply requests_advance_refl].
Qed.

Lemma run_handlers es s s' :
  registry_inv s -> waiting_inv s -> run s es = Some s' ->
  registry_inv s' /\ waiting_inv s'
  /\ forall id j r, observes cfg id j s r -> observes cfg id j s' r.
Proof.
  revert s. induction es as [|e es IH]; intros s Hreg Hw Hrun.
  - injection Hrun as <-. auto.
  - cbn [Server.run] in Hrun. destruct (step s e) as [s1|] eqn:E; [|discriminate].
    destruct (step_handlers s e s1 Hreg Hw E) as [Hw1 Ho1].
    destruct (IH s1 (registry_inv_step s e s1 Hreg E) Hw1 Hrun) as (Hreg' & Hw' & Ho').
    auto.
Qed.

Lemma waiting_inv_reachable s :
  reachable cfg resolveVideoPathById mkdirSync_throws s -> waiting_inv s.
Proof.
  intros (files & es & Hrun).
  refine (proj1 (proj2 (run_handlers es _ s _ _ Hrun))).
  - apply registry_inv_reachable. exists files, []. reflexivity.
  - intros r id j Hr. cbn in Hr. discriminate.
Qed.

Lemma waitM3U8_tick_present s j jb :
  jobs s !! j = Some jb -> promise jb = Pending -> released jb = false ->
  existsSync (disk s) (outM3u8 jb) = true ->
  promise <$> jobs (waitM3U8_tick j s).1 !! j
    = Some (Fulfilled (Ready (outM3u8 jb) true)).
Proof.
  intros Hjob Hp Hr Hdisk. unfold waitM3U8_tick, settle.
  job_simpl. reflexivity.
Qed.

(** The turns that settle a pending job hand its result to a handler that
    waits for it: the failure to launch and the end of the encoder, and the
    interval that finds the manifest. *)
Lemma settling_turns s j jb r id :
  jobs s !! j = Some jb -> promise jb = Pending -> released jb = false ->
  requests s !! r = Some (AwaitJob id j) ->
  (forall pid cmd code,
     children s !! pid = Some (Child cmd (JobEncoder j) Running) ->
     exists failed closed,
       step s (ChildError pid) = Some failed
       /\ step s (ChildClose pid code) = Some closed
       /\ requests failed !! r = Some (Threw SpawnError)
       /\ (existsSync (disk s) (outM3u8 jb) = true ->
           requests closed !! r = Some (PollManifest (m3u8Path_of cfg id)))
       /\ (existsSync (disk s) (outM3u8 jb) = false -> code <> 0 ->
           requests closed !! r = Some (Threw (FfmpegFailed code))))
  /\ (waitM3U8 jb = true -> existsSync (disk s) (outM3u8 jb) = true ->
      exists released,
        step s (IntervalTick j) = Some released
        /\ requests released !! r = Some (PollManifest (m3u8Path_of cfg id))).
Proof.
  intros Hjob Hp Hr Hreq.
  assert (forall t, requests t.1 = requests s ->
            requests (drain t) !! r = Some (resume (jobs t.1) (AwaitJob id j)))
    as Hdrain.
  { intros t Ht. apply drain_awaiting. rewrite Ht. exact Hreq. }
  split.
  - intros pid cmd code Hchild.
    eexists _, _. cbn [Server.step]. unfold on_close, on_error. rewrite Hchild.
    split; [reflexivity|]. split; [reflexivity|].
    set (sc := set_status pid Closed s). set (sf := set_status pid Failed s).
    assert (jobs sc !! j = Some jb) as Hjc by exact Hjob.
    assert (jobs sf !! j = Some jb) as Hjf by exact Hjob.
    split; [|split].
    + destruct (encoder_error_rejects sf j jb Hjf Hp Hr) as [Hq _].
      rewrite Hdrain by exact (encoder_error_requests j sf).
      rewrite (resume_by_promise _ _ _ _ Hq). reflexivity.
    + intros Hpresent.
      destruct (encoder_close_present sc j jb code Hjc Hp Hr Hpresent) as [Hq _].
      rewrite Hdrain by exact (encoder_close_requests j code sc).
      rewrite (resume_by_promise _ _ _ _ Hq). reflexivity.
    + intros Habsent Hcode.
      destruct (encoder_close_absent_failed sc j jb code Hjc Hp Hr Habsent Hcode)
        as [Hq _].
      rewrite Hdrain by exact (encoder_close_requests j code sc).
      rewrite (resume_by_promise _ _ _ _ Hq). reflexivity.
  - intros Hwait Hpresent. eexists. cbn [Server.step]. rewrite Hjob, Hwait.
    split; [reflexivity|].
    rewrite Hdrain by exact (waitM3U8_tick_requests j s).
    rewrite (resume_by_promise _ _ _ _
               (waitM3U8_tick_present s j jb Hjob Hp Hr Hpresent)).
    reflexivity.
Qed.

(** A handler that polls is answered with the manifest at its next poll,
    if the manifest is on disk then. *)
Lemma poll_answers s r m :
  requests s !! r = Some (PollManifest m) -> existsSync (disk s) m = true ->
  exists t,
    step s (HandlerTick r) = Some t
    /\ requests t !! r
       = Some (Answered (Response 200
                 (FileStream m (js "application/vnd.apple.mpegurl")))).
Proof.
  intros Hr Hdisk. eexists. cbn [Server.step]. rewrite Hr. split; [reflexivity|].
  unfold manifest_poll. rewrite Hdisk. cbn [requests set_requests].
  apply list_lookup_insert_eq. apply lookup_lt_Some in Hr. exact Hr.
Qed.

(** Over the invariants: the encoders of pending jobs for one id are one
    child of one job. *)
Lemma encoders_agree s pid1 pid2 c1 c2 j1 j2 jb1 jb2 :
  registry_inv s -> children_inv s ->
  children s !! pid1 = Some c1 -> child_owner c1 = JobEncoder j1 ->
  children s !! pid2 = Some c2 -> child_owner c2 = JobEncoder j2 ->
  jobs s !! j1 = Some jb1 -> promise jb1 = Pending ->
  jobs s !! j2 = Some jb2 -> promise jb2 = Pending ->
  job_id jb1 = job_id jb2 ->
  pid1 = pid2 /\ j1 = j2.
Proof.
  intros [_ Inv2] (_ & K1 & _) H1 Ho1 H2 Ho2 Hj1 Hp1 Hj2 Hp2 Hid.
  pose proof (Inv2 j1 jb1 Hj1 Hp1) as E1. pose proof (Inv2 j2 jb2 Hj2 Hp2) as E2.
  assert (j1 = j2) as <- by congruence.
  split; [|reflexivity].
  apply (K1 pid1 pid2 c1 c2 H1 H2); [congruence|]. rewrite Ho1. cbn. eauto.
Qed.

(** C1.  Single flight per asset id.  In a state the server can reach,
    while the registry holds a pending job for [id], a manifest request
    for [id] spawns no child, creates no job and touches neither counter
    nor registry: it waits on the job that is already there.  From then
    on, whatever happens, the request and every other request that waits
    on that job stand to the promise of the job in the same way: while the
    promise is pending both wait; once it is fulfilled as busy both have
    the 202; once it is fulfilled as ready both poll for the one manifest,
    and each is answered with it at its own poll if the manifest is on
    disk then; once it is rejected both have ended by throwing the one
    failure.  While the job is pending, every encoder child of a pending
    job for [id] is the one encoder of this job.  And the turns that
    settle the job hand the result to both requests in that very turn: the
    failure to launch the encoder, the end of the encoder, and the interval
    that finds the manifest. *)
Theorem single_flight s id j jb :
  reachable cfg resolveVideoPathById mkdirSync_throws s ->
  hlsJobs s !! id = Some j -> jobs s !! j = Some jb -> promise jb = Pending ->
  let s' := getManifest id s in
  let new := length (requests s) in
  (children s' = children s
   /\ jobs s' = jobs s
   /\ hlsJobs s' = hlsJobs s
   /\ runningHls s' = runningHls s
   /\ requests s' !! new = Some (AwaitJob id j))
  /\ forall r es s'',
       requests s' !! r = Some (AwaitJob id j) ->
       run s' es = Some s'' ->
       let both (t : server) (q : request) :=
         requests t !! r = Some q /\ requests t !! new = Some q in
       exists jb'',
         jobs s'' !! j = Some jb'' /\ job_id jb'' = id
         /\ (exists q q',
               requests s'' !! r = Some q /\ requests s'' !! new = Some q'
               /\ outcome cfg id j (promise jb'') q
               /\ outcome cfg id j (promise jb'') q')
         /\ (forall r0, r0 = r \/ r0 = new ->
               requests s'' !! r0 = Some (PollManifest (m3u8Path_of cfg id)) ->
               existsSync (disk s'') (m3u8Path_of cfg id) = true ->
               exists t,
                 step s'' (HandlerTick r0) = Some t
                 /\ requests t !! r0
                    = Some (Answered (Response 200
                              (FileStream (m3u8Path_of cfg id)
                                 (js "application/vnd.apple.mpegurl")))))
         /\ (promise jb'' = Pending ->
             forall pid1 pid2 c1 c2 j2 jb2,
               children s'' !! pid1 = Some c1 -> child_owner c1 = JobEncoder j ->
               children s'' !! pid2 = Some c2 -> child_owner c2 = JobEncoder j2 ->
               jobs s'' !! j2 = Some jb2 -> promise jb2 = Pending -> job_id jb2 = id ->
               pid2 = pid1 /\ j2 = j)
         /\ (promise jb'' = Pending -> released jb'' = false ->
             (forall pid cmd code,
                children s'' !! pid = Some (Child cmd (JobEncoder j) Running) ->
                exists failed closed,
                  step s'' (ChildError pid) = Some failed
                  /\ step s'' (ChildClose pid code) = Some closed
                  /\ both failed (Threw SpawnError)
                  /\ (existsSync (disk s'') (outM3u8 jb'') = true ->
                      both closed (PollManifest (m3u8Path_of cfg id)))
                  /\ (existsSync (disk s'') (outM3u8 jb'') = false -> code <> 0 ->
                      both closed (Threw (FfmpegFailed code))))
             /\ (waitM3U8 jb'' = true ->
                 existsSync (disk s'') (outM3u8 jb'') = true ->
                 exists released,
                   step s'' (IntervalTick j) = Some released
                   /\ both released (PollManifest (m3u8Path_of cfg id)))).
Proof.
  intros Hreach Hreg Hjob Hpending. cbv zeta.
  destruct (getManifest_attached s id j jb Hreg Hjob Hpending)
    as (Hc & Hj & Hh & Hr & _ & _ & Hnew).
  split; [auto|].
  intros r es s'' Hwait Hrun.
  pose proof (registry_inv_reachable s Hreach) as Hri.
  assert (job_id jb = id) as Hid.
  { destruct Hri as [Inv1 _]. destruct (Inv1 id j Hreg) as (jb0 & H0 & _ & Hid0).
    congruence. }
  assert (registry_inv (getManifest id s) /\ waiting_inv (getManifest id s)
          /\ children_inv (getManifest id s))
    as (Hreg' & Hw' & Hch').
  { split; [exact (registry_inv_step s (GetManifest id) _ Hri eq_refl)|].
    split; [exact (proj1 (step_handlers s (GetManifest id) _ Hri
                           (waiting_inv_reachable s Hreach) eq_refl))|].
    exact (children_inv_step s (GetManifest id) _ (children_inv_reachable s Hreach)
             eq_refl). }
  destruct (run_handlers es _ s'' Hreg' Hw' Hrun) as (Hreg'' & _ & Hobs).
  pose proof (run_invariant children_inv children_inv_step es _ s'' Hch' Hrun) as Hch''.
  assert (forall r0, requests (getManifest id s) !! r0 = Some (AwaitJob id j) ->
            observes cfg id j (getManifest id s) r0) as Hstart.
  { intros r0 Hr0. exists jb, (AwaitJob id j).
    split; [rewrite Hj; exact Hjob|]. split; [exact Hid|]. split; [exact Hr0|].
    rewrite Hpending. reflexivity. }
  destruct (Hobs id j r (Hstart r Hwait)) as (jb1 & q & Hj1 & Hid1 & Hq & Ho).
  destruct (Hobs id j _ (Hstart _ Hnew)) as (jb2 & q' & Hj2 & _ & Hq' & Ho').
  assert (jb2 = jb1) as -> by congruence.
  exists jb1. split; [exact Hj1|]. split; [exact Hid1|].
  split; [exists q, q'; auto|].
  split; [intros r0 _ Hr0 Hdisk; exact (poll_answers s'' r0 _ Hr0 Hdisk)|]. split.
  { intros Hp1 pid1 pid2 c1 c2 j2 jb2 H1 Ho1 H2 Ho2 Hjb2 Hp2 Hid2.
    destruct (encoders_agree s'' pid2 pid1 c2 c1 j2 j jb2 jb1 Hreg'' Hch''
                H2 Ho2 H1 Ho1 Hjb2 Hp2 Hj1 Hp1 ltac:(congruence)) as [-> ->].
    split; reflexivity. }
  intros Hp1 Hr1. rewrite Hp1 in Ho, Ho'. cbn [outcome] in Ho, Ho'. subst q q'.
  destruct (settling_turns s'' j jb1 r id Hj1 Hp1 Hr1 Hq) as [Hend Htick].
  destruct (settling_turns s'' j jb1 _ id Hj1 Hp1 Hr1 Hq') as [Hend' Htick'].
  split.
  - intros pid cmd code Hchild.
    destruct (Hend pid cmd code Hchild) as (failed & closed & Hf & Hcl & H1 & H2 & H3).
    destruct (Hend' pid cmd code Hchild) as (failed' & closed' & Hf' & Hcl' & H1' & H2' & H3').
    assert (failed' = failed) as -> by congruence.
    assert (closed' = closed) as -> by congruence.
    exists failed, closed. split; [exact Hf|]. split; [exact Hcl|].
    split; [split; assumption|]. split.
    + intros Hpresent. split; auto.
    + intros Habsent Hcode. split; auto.
  - intros Hwt Hpresent.
    destruct (Htick Hwt Hpresent) as (t & Ht & H1).
    destruct (Htick' Hwt Hpresent) as (t' & Ht' & H1').
    assert (t' = t) as -> by congruence.
    exists t. split; [exact Ht | split; assumption].
Qed.

End Facts.


(** ** The claims evaluated on concrete runs *)

Local Abbreviation cfg0 := example_config.

(** C2.  The gate counters, evaluated where the invariant fails.  The
    counter is raised before the first child of a job is spawned; when the
    encoder cannot be started, Node emits ['error'] and then ['close'], and
    both handlers lower the counter: the slot taken once is released twice
    and the counter of running encodes falls to -1.  The thumbnail counter
    does the same. *)
Theorem spawn_failure_releases_slot_twice :
  observe ∅ until_encoding (fun s => Some (runningHls s)) = Some 1
  /\ observe ∅ (until_encoding ++ [ChildError 2])
       (fun s => Some (runningHls s)) = Some 0
  /\ observe ∅ (until_encoding ++ [ChildError 2; ChildClose 2 (-2)])
       (fun s => Some (runningHls s)) = Some (-1)
  /\ observe {[example_video]}
       [GetThumb example_id; ChildClose 0 0; ChildError 1; ChildClose 1 (-2)]
       (fun s => Some (runningThumb s)) = Some (-1).
Proof. repeat split; vm_compute; reflexivity. Qed.

(** Without a spawn failure the slot is released once. *)
Example normal_exit_releases_slot_once :
  observe ∅ (until_encoding ++ [ChildClose 2 1])
    (fun s => Some (runningHls s)) = Some 0.
Proof. vm_compute. reflexivity. Qed.

(** C5 as stated fails: an encoder that exits with code zero while no
    manifest is on disk settles nothing; the job stays pending and
    registered, and the request keeps waiting.  And a failure is handed to
    the waiting request as a rejection, not as a response. *)
Lemma exit_zero_without_manifest_settles_nothing :
  observe ∅ (until_encoding ++ [ChildClose 2 0])
    (fun s => promise <$> jobs s !! 0%nat) = Some Pending
  /\ observe ∅ (until_encoding ++ [ChildClose 2 0])
       (fun s => hlsJobs s !! example_id) = Some 0%nat
  /\ observe ∅ (until_encoding ++ [ChildClose 2 0])
       (fun s => requests s !! 0%nat) = Some (AwaitJob example_id 0)
  /\ observe ∅ (until_encoding ++ [ChildClose 2 1])
       (fun s => requests s !! 0%nat) = Some (Threw (FfmpegFailed 1)).
Proof. repeat split; vm_compute; reflexivity. Qed.

Lemma settlement_rule_witness :
  children encoding_state !! 2%nat = Some (Child FFMPEG (JobEncoder 0) Running)
  /\ exists closed,
       step cfg0 example_resolve example_throws encoding_state (ChildClose 2 1) = Some closed
       /\ requests closed !! 0%nat = Some (Threw (FfmpegFailed 1)).
Proof.
  split; [vm_compute; reflexivity|].
  destruct (settlement_rule cfg0 example_resolve example_throws encoding_state 2 FFMPEG 0
              encoding_job 0 example_id 1)
    as (closed & failed & Hclose & _ & _ & Hfail & _).
  - vm_compute. reflexivity.
  - vm_compute. reflexivity.
  - reflexivity.
  - reflexivity.
  - vm_compute. reflexivity.
  - exists closed. split; [exact Hclose|].
    apply Hfail; [vm_compute; reflexivity | discriminate].
Defined.

Lemma single_flight_witness :
  hlsJobs probing_state !! example_id = Some 0%nat
  /\ children (getManifest cfg0 example_resolve example_throws example_id probing_state)
     = children probing_state
  /\ requests (getManifest cfg0 example_resolve example_throws example_id probing_state)
       !! 1%nat
     = Some (AwaitJob example_id 0)
  /\ forall es s'',
       run cfg0 example_resolve example_throws
         (getManifest cfg0 example_resolve example_throws example_id probing_state) es
       = Some s'' ->
       exists jb q q',
         jobs s'' !! 0%nat = Some jb
         /\ requests s'' !! 0%nat = Some q /\ requests s'' !! 1%nat = Some q'
         /\ outcome cfg0 example_id 0 (promise jb) q
         /\ outcome cfg0 example_id 0 (promise jb) q'.
Proof.
  split; [vm_compute; reflexivity|].
  destruct (single_flight cfg0 example_resolve example_throws probing_state example_id 0
              probing_job)
    as [(Hc & _ & _ & _ & Hr) Hlater].
  - exists ∅, [GetManifest example_id]. reflexivity.
  - vm_compute. reflexivity.
  - vm_compute. reflexivity.
  - reflexivity.
  - split; [exact Hc|]. split; [exact Hr|].
    intros es s'' Hrun.
    assert (requests (getManifest cfg0 example_resolve example_throws example_id
                        probing_state) !! 0%nat = Some (AwaitJob example_id 0)) as Hfirst
      by (vm_compute; reflexivity).
    pose proof (Hlater 0%nat es s'' Hfirst Hrun) as H. cbv zeta in H.
    destruct H as (jb & Hjb & _ & (q & q' & Hq & Hq' & Ho) & _).
    exists jb, q, q'. auto.
Defined.

(** Two requests for one id, and the encoder that cannot be launched: one
    child of each kind was spawned, and both requests end with the one
    failure. *)
Example both_requests_get_the_one_result :
  observe ∅ [GetManifest example_id; GetManifest example_id;
             ChildClose 0 0; ChildClose 1 0; ChildError 2]
    (fun s => Some (requests s, length (children s), length (jobs s)))
  = Some ([Threw SpawnError; Threw SpawnError], 3%nat, 1%nat).
Proof. vm_compute. reflexivity. Qed.

(** Once the job is ready each request polls on its own: after the poll of
    the first request has fired, the first is answered and the second
    still polls for the same manifest. *)
Example requests_are_answered_at_their_own_poll :
  observe ∅ [GetManifest example_id; GetManifest example_id;
             ChildClose 0 0; ChildClose 1 0;
             FsWrite (m3u8Path_of cfg0 example_id); IntervalTick 0; HandlerTick 0]
    (fun s => Some (requests s))
  = Some [Answered (Response 200
                      (FileStream (m3u8Path_of cfg0 example_id)
                         (js "application/vnd.apple.mpegurl")));
          PollManifest (m3u8Path_of cfg0 example_id)].
Proof. vm_compute. reflexivity. Qed.

Lemma cached_manifest_short_circuit_witness :
  existsSync (disk cached_state) (m3u8Path_of cfg0 example_id) = true
  /\ children (getManifest cfg0 example_resolve example_throws example_id cached_state) = []
  /\ runningHls (getManifest cfg0 example_resolve example_throws example_id cached_state) = 0
  /\ requests (getManifest cfg0 example_resolve example_throws example_id cached_state)
       !! 0%nat
     = Some (PollManifest (m3u8Path_of cfg0 example_id)).
Proof.
  split; [vm_compute; reflexivity|].
  destruct (cached_manifest_short_circuit cfg0 example_resolve example_throws cached_state
              example_id)
    as (Hc & Hh & _ & Hfresh & _).
  - vm_compute. reflexivity.
  - split; [exact Hc|]. split; [exact Hh|].
    destruct Hfresh as (_ & _ & Hr & _).
    + vm_compute. reflexivity.
    + vm_compute. reflexivity.
    + exact Hr.
Defined.

(** C4 as stated fails: while the job of an id is pending, a request for
    the id waits for that job although the manifest is on disk, here in the
    state in which the encoder has written the manifest and the interval of
    line 246 has not fired yet.  No poll of the handler is armed. *)
Lemma registered_job_comes_before_the_cache :
  observe ∅ (until_encoding ++ [FsWrite (m3u8Path_of cfg0 example_id)])
    (fun s => Some (existsSync (disk s) (m3u8Path_of cfg0 example_id),
                    hlsJobs s !! example_id)) = Some (true, Some 0%nat)
  /\ observe ∅ (until_encoding ++ [FsWrite (m3u8Path_of cfg0 example_id);
                                   GetManifest example_id])
       (fun s => Some (requests s !! 1%nat,
                       step cfg0 example_resolve example_throws s (HandlerTick 1)))
     = Some (Some (AwaitJob example_id 0), None)
  /\ observe ∅ (until_encoding ++ [ChildClose 2 0;
                                   FsWrite (m3u8Path_of cfg0 example_id);
                                   GetManifest example_id; IntervalTick 0])
       (fun s => Some (requests s !! 3%nat)) = None
  /\ observe ∅ (until_encoding ++ [ChildClose 2 0;
                                   FsWrite (m3u8Path_of cfg0 example_id);
                                   GetManifest example_id; GetManifest example_id])
       (fun s => Some (existsSync (disk s) (m3u8Path_of cfg0 example_id),
                       requests s !! 1%nat, requests s !! 2%nat))
     = Some (true, Some (AwaitJob example_id 0), Some (AwaitJob example_id 0)).
Proof. repeat split; vm_compute; reflexivity. Qed.

Lemma busy_sheds_load_witness :
  MAX_HLS <= runningHls full_state
  /\ requests (getManifest cfg0 example_resolve example_throws example_id full_state) !! 0%nat
     = Some (Answered (Response 202 Empty))
  /\ hlsJobs (getManifest cfg0 example_resolve example_throws example_id full_state) = ∅.
Proof.
  split; [reflexivity|].
  destruct (busy_sheds_load cfg0 example_resolve example_throws full_state example_id)
    as (Hr & _ & _ & Hreg).
  - reflexivity.
  - right. reflexivity.
  - vm_compute. reflexivity.
  - reflexivity.
  - split; [exact Hr | exact Hreg].
Defined.

(** C6 as stated fails: the busy job is entered in the registry on line
    281, before the [finally] callback deletes it. *)
Lemma busy_job_enters_registry :
  hlsJobs full_state !! example_id = None
  /\ manifest_cached cfg0 example_id full_state = false
  /\ MAX_HLS <= runningHls full_state
  /\ promise <$> jobs (ensureHls cfg0 example_throws example_id (example_resolve example_id)
                         full_state).2.1 !! 0%nat
     = Some (Fulfilled Busy)
  /\ hlsJobs (ensureHls cfg0 example_throws example_id (example_resolve example_id)
                full_state).2.1 !! example_id
     = Some 0%nat.
Proof. repeat split; vm_compute; try reflexivity. discriminate. Qed.

End ServerFacts.

(* ===================================================================== *)
(** * The id codec on arbitrary ids *)
(* ===================================================================== *)

Module DecoderFacts.
Import JsString Codec Decoder BitFacts CodecFacts.

(** ** Whatever the bytes, the decoder writes a well-formed string *)

Lemma isWellFormed_units cp rest :
  scalar_value cp ->
  isWellFormed (utf16_units cp ++ rest) = isWellFormed rest.
Proof.
  intros Hcp. unfold utf16_units.
  destruct (Z.ltb_spec cp 65536).
  - cbn [app isWellFormed]. unfold is_high_surrogate, is_low_surrogate.
    destruct Hcp; split_tests; reflexivity.
  - cbn [app isWellFormed]. unfold is_high_surrogate, is_low_surrogate.
    bits_to_arith.
    assert (0 <= (cp - 65536) / 1024 < 1024) by (destruct Hcp; arith).
    assert (0 <= (cp - 65536) mod 1024 < 1024) by arith.
    split_tests; reflexivity.
Qed.

Ltac open_state k :=
  unfold state_ok; cbn [u_lower u_upper u_cp u_needed]; bits_to_arith;
  split; [lia|]; split; [lia|]; split; [arith|];
  exists k; split; [reflexivity|]; cbv zeta; arith.

(** A lead byte either gives a scalar value at once or opens a sequence
    that can only end in one. *)
Lemma lead_ok b :
  match utf8_lead b with
  | LeadEmit cp => scalar_value cp
  | LeadStart st => state_ok st
  end.
Proof.
  unfold utf8_lead.
  destruct (Z.leb_spec 0 b); destruct (Z.leb_spec b 127); cbn [andb];
    try (left; lia).
  all: destruct (Z.leb_spec 194 b); destruct (Z.leb_spec b 223); cbn [andb];
    try lia.
  all: try open_state 1.
  all: destruct (Z.leb_spec 224 b); destruct (Z.leb_spec b 239); cbn [andb];
    try lia.
  all: try (destruct (Z.eqb_spec b 224); destruct (Z.eqb_spec b 237); try lia;
            open_state 64).
  all: destruct (Z.leb_spec 240 b); destruct (Z.leb_spec b 244); cbn [andb];
    try lia.
  all: try (destruct (Z.eqb_spec b 240); destruct (Z.eqb_spec b 244); try lia;
            open_state 4096).
  all: right; unfold REPLACEMENT; lia.
Qed.

Lemma continuation_ok st b :
  state_ok st -> u_lower st <= b <= u_upper st ->
  let cp := Z.lor (Z.shiftl (u_cp st) 6) (Z.land b 63) in
  match u_needed st with
  | S (S n) => state_ok (Utf8State cp (S n) 128 191)
  | _ => scalar_value cp
  end.
Proof.
  intros (Hl & Hu & Hcp & k & Hk & Hz) Hb. cbv zeta in *.
  assert (Z.lor (Z.shiftl (u_cp st) 6) (Z.land b 63) = u_cp st * 64 + (b - 128)) as ->
    by (bits_to_arith; arith).
  destruct (u_needed st) as [|[|[|[|n]]]]; try contradiction; subst k.
  - unfold scalar_value. lia.
  - unfold state_ok. cbn [u_lower u_upper u_cp u_needed].
    split; [lia|]. split; [lia|]. split; [lia|].
    exists 1. split; [reflexivity|]. cbv zeta. lia.
  - unfold state_ok. cbn [u_lower u_upper u_cp u_needed].
    split; [lia|]. split; [lia|]. split; [lia|].
    exists 64. split; [reflexivity|]. cbv zeta. lia.
Qed.

Lemma decode_from_well_formed bs :
  forall st,
    match st with Some s => state_ok s | None => True end ->
    isWellFormed (utf8_decode_from st bs) = true.
Proof.
  induction bs as [|b rest IH]; intros st Hst.
  - destruct st; reflexivity.
  - assert (isWellFormed
              match utf8_lead b with
              | LeadEmit cp => utf16_units cp ++ utf8_decode_from None rest
              | LeadStart st' => utf8_decode_from (Some st') rest
              end = true) as Hlead.
    { pose proof (lead_ok b) as Hb. destruct (utf8_lead b) as [cp|st'].
      - rewrite isWellFormed_units by exact Hb. apply IH. exact I.
      - apply IH. exact Hb. }
    destruct st as [s|]; [|exact Hlead].
    cbn [utf8_decode_from].
    destruct (Z.leb_spec (u_lower s) b); destruct (Z.leb_spec b (u_upper s));
      cbn [andb]; try exact Hlead.
    pose proof (continuation_ok s b Hst ltac:(lia)) as Hc. cbv zeta in Hc.
    destruct (u_needed s) as [|[|n]].
    + rewrite isWellFormed_units by exact Hc. apply IH. exact I.
    + rewrite isWellFormed_units by exact Hc. apply IH. exact I.
    + apply IH. exact Hc.
Qed.

Lemma utf8_decode_well_formed bs : isWellFormed (utf8_decode bs) = true.
Proof. apply (decode_from_well_formed bs None). exact I. Qed.

(** X1.  Whatever the id, the path [idToRelPath] decodes it to is a
    well-formed string: malformed bytes become U+FFFD, and no lone
    surrogate is ever written. *)
Theorem decoded_path_is_well_formed (id : jsstring) :
  exists rel, idToRelPath id = Some rel /\ isWellFormed rel = true.
Proof. eexists. split; [reflexivity|]. apply utf8_decode_well_formed. Qed.

(** X2.  Every id, however it is spelled, has a canonical spelling: the id
    the server itself writes for the path it decodes to.  That id is
    URL-safe and decodes to the same path. *)
Theorem every_id_has_a_canonical_id (id : jsstring) :
  exists rel,
    idToRelPath id = Some rel
    /\ idToRelPath (encodeId rel) = Some rel
    /\ is_base64url (encodeId rel) = true.
Proof.
  eexists. split; [reflexivity|].
  split; [apply decode_encode_id | apply encodeId_is_base64url];
    apply utf8_decode_well_formed.
Qed.

(** ** The ids the server writes *)

(** X3.  Distinct well-formed relative paths get distinct ids. *)
Theorem distinct_paths_get_distinct_ids (p q : jsstring) :
  isWellFormed p = true -> isWellFormed q = true -> p <> q ->
  encodeId p <> encodeId q.
Proof.
  intros Hp Hq Hne E. apply Hne.
  pose proof (decode_encode_id p Hp) as Dp. pose proof (decode_encode_id q Hq) as Dq.
  rewrite E in Dp. congruence.
Qed.

Lemma distinct_paths_get_distinct_ids_witness :
  isWellFormed (js "foo/a.mp4") = true
  /\ js "foo/a.mp4" <> js "b/foo.mp4"
  /\ encodeId (js "foo/a.mp4") <> encodeId (js "b/foo.mp4").
Proof.
  split; [reflexivity|]. split; [discriminate|].
  apply (distinct_paths_get_distinct_ids (js "foo/a.mp4") (js "b/foo.mp4"));
    [reflexivity | reflexivity | discriminate].
Defined.

(** X4.  The id of a well-formed path is made of characters of the
    URL-safe alphabet only, without padding, and has a length that
    unpadded base64 can have. *)
Theorem ids_are_url_safe (p : jsstring) :
  isWellFormed p = true ->
  forallb is_url_char (encodeId p) = true
  /\ Z.of_nat (length (encodeId p)) mod 4 <> 1
  /\ is_base64url (encodeId p) = true.
Proof.
  intros Hwf. pose proof (encodeId_is_base64url p Hwf) as H.
  split; [|split; [|exact H]]; unfold is_base64url in H;
    apply andb_prop in H as [Hc Hl].
  - exact Hc.
  - intros E. rewrite E in Hl. discriminate.
Qed.

Lemma ids_are_url_safe_witness :
  isWellFormed (js "Show/S01E01.mkv") = true
  /\ is_base64url (encodeId (js "Show/S01E01.mkv")) = true.
Proof.
  split; [reflexivity|].
  apply (ids_are_url_safe (js "Show/S01E01.mkv")). reflexivity.
Defined.

(** ** What the reader accepts *)

Lemma sextets_standard id pad :
  sextets (map to_standard_alphabet id ++ CHAR_EQUALS :: pad) = sextets id.
Proof.
  induction id as [|c id IH]; cbn [map app sextets].
  - reflexivity.
  - assert (unbase64 (to_standard_alphabet c) = unbase64 c) as ->.
    { unfold to_standard_alphabet.
      destruct (Z.eqb_spec c 45) as [-> | ?]; [reflexivity|].
      destruct (Z.eqb_spec c 95) as [-> | ?]; reflexivity. }
    assert ((low_byte (to_standard_alphabet c) =? CHAR_EQUALS)
            = (low_byte c =? CHAR_EQUALS)) as ->.
    { unfold to_standard_alphabet.
      destruct (Z.eqb_spec c 45) as [-> | ?]; [reflexivity|].
      destruct (Z.eqb_spec c 95) as [-> | ?]; reflexivity. }
    rewrite IH. reflexivity.
Qed.

Lemma sextets_padding s pad : sextets (s ++ CHAR_EQUALS :: pad) = sextets s.
Proof.
  induction s as [|c s IH]; cbn [app sextets]; [reflexivity|].
  rewrite IH. reflexivity.
Qed.

(** X5.  An id spelled in the standard base64 alphabet ([+] and [/] for
    [-] and [_]), with or without [=] padding and whatever follows the
    first [=], decodes to the same path as its URL-safe spelling. *)
Theorem standard_base64_is_accepted (id pad : jsstring) :
  idToRelPath (map to_standard_alphabet id ++ CHAR_EQUALS :: pad) = idToRelPath id
  /\ idToRelPath (map to_standard_alphabet id) = idToRelPath id
  /\ idToRelPath (id ++ CHAR_EQUALS :: pad) = idToRelPath id.
Proof.
  unfold idToRelPath, base64url_decode.
  split; [rewrite sextets_standard; reflexivity|]. split.
  - rewrite <- (sextets_padding (map to_standard_alphabet id) pad), sextets_standard.
    reflexivity.
  - rewrite sextets_padding. reflexivity.
Qed.

(** ** The ids answered with 400 *)

Lemma decode_from_nonempty bs st :
  is_Some st \/ bs <> [] -> utf8_decode_from st bs <> [].
Proof.
  revert st. induction bs as [|b rest IH]; intros st H.
  - destruct H as [[s ->] | H]; [cbn; discriminate | contradiction].
  - assert (match utf8_lead b with
            | LeadEmit cp => utf16_units cp ++ utf8_decode_from None rest
            | LeadStart st' => utf8_decode_from (Some st') rest
            end <> []) as Hlead.
    { destruct (utf8_lead b) as [cp|st']; [|apply IH; left; eauto].
      unfold utf16_units. destruct (cp <? 65536); discriminate. }
    destruct st as [s|]; [|exact Hlead].
    cbn [utf8_decode_from].
    destruct ((u_lower s <=? b) && (b <=? u_upper s)); [|discriminate].
    cbv zeta.
    destruct (u_needed s) as [|[|n]]; try (apply IH; left; eauto);
      unfold utf16_units; destruct (_ <? 65536); discriminate.
Qed.

Lemma bytes_of_sextets_empty vs :
  bytes_of_sextets vs = [] <-> (length vs < 2)%nat.
Proof.
  destruct vs as [|v0 [|v1 [|v2 [|v3 rest]]]]; cbn [bytes_of_sextets length app];
    split; intros H; try reflexivity; try discriminate; try lia.
Qed.

(** X6.  [GET /api/video/:id] answers 400 exactly for the ids in which
    fewer than two code units are read as a 6-bit value before reading
    stops: units whose low byte is a character of one of the two base64
    alphabets count, whatever their high byte, and reading stops at the
    first unit whose low byte is [=].  Those ids, and only those, decode to
    the empty path. *)
Theorem bad_request_means_no_byte
    (cfg : Path.config) (disk : gset jsstring) (id : jsstring) :
  Path.status (Path.getVideo cfg disk id) = 400 <-> (length (sextets id) < 2)%nat.
Proof.
  rewrite PathFacts.getVideo_bad_id. unfold base64url_decode.
  rewrite <- bytes_of_sextets_empty.
  destruct (bytes_of_sextets (sextets id)) as [|b bs] eqn:E.
  - split; reflexivity.
  - split; [|discriminate]. intros H. exfalso.
    apply (decode_from_nonempty (b :: bs) None); [right; discriminate | exact H].
Qed.

(** Code units above 255 are read by their low byte: two U+0141 are read
    as [AA], which is one byte, and the request gets past the 400; U+013D
    ends the reading like [=]. *)
Example high_code_units_are_read_by_their_low_byte :
  sextets [321; 321] = sextets (js "AA")
  /\ sextets (js "AA" ++ [317] ++ js "AA") = sextets (js "AA")
  /\ Path.status (Path.getVideo Examples.example_config ∅ [321; 321]) = 404
  /\ Path.status (Path.getVideo Examples.example_config ∅ [321]) = 400.
Proof. repeat split; vm_compute; reflexivity. Qed.

End DecoderFacts.

(* ===================================================================== *)
(** * Resolved paths: the roots, accepted paths and the cache layout *)
(* ===================================================================== *)

Module ResolveFacts.
Import JsString Codec Path Catalog Server Library Examples PathFacts.

Local Abbreviation slashfree := (Forall (fun c => c <> CHAR_FORWARD_SLASH)).

Ltac by_decide := apply (bool_decide_unpack _); vm_compute; reflexivity.

(** ** [path.resolve] from an absolute working directory *)

Lemma split_slash_pieces s :
  Forall (Forall (fun c => c <> CHAR_FORWARD_SLASH)) (split_slash s).
Proof.
  induction s as [|c s IH]; cbn [split_slash]; [repeat constructor|].
  destruct (Z.eqb_spec c CHAR_FORWARD_SLASH); [constructor; [constructor | exact IH]|].
  destruct (split_slash s) as [|seg segs]; [repeat constructor; assumption|].
  apply Forall_cons_1 in IH as [Hseg Hsegs].
  constructor; [constructor; assumption | exact Hsegs].
Qed.

Lemma normalize_step_keeps_plain stack seg :
  Forall plain stack -> Forall (fun c => c <> CHAR_FORWARD_SLASH) seg ->
  Forall plain (normalize_step false stack seg).
Proof.
  intros Hstack Hseg. unfold normalize_step.
  destruct (str_eqb seg []) eqn:E0; [exact Hstack|].
  destruct (str_eqb seg DOT) eqn:E1; [exact Hstack|]. cbn [orb].
  destruct (str_eqb seg DOTDOT) eqn:E2.
  - destruct Hstack as [|top below Htop Hbelow]; [constructor|].
    destruct (str_eqb top DOTDOT); [constructor|]; assumption.
  - constructor; [|exact Hstack].
    repeat split; try exact Hseg; intros ->; discriminate.
Qed.

Lemma fold_keeps_plain segs stack :
  Forall plain stack -> Forall (Forall (fun c => c <> CHAR_FORWARD_SLASH)) segs ->
  Forall plain (fold_left (normalize_step false) segs stack).
Proof.
  intros Hstack Hsegs. revert stack Hstack.
  induction Hsegs as [|seg segs Hseg _ IH]; intros stack Hstack; [exact Hstack|].
  cbn [fold_left]. apply IH. apply normalize_step_keeps_plain; assumption.
Qed.

Lemma resolve_loop_absolute cwd l acc :
  isAbsolute cwd = true -> exists p, resolve_loop (l ++ [cwd]) acc = (p, true).
Proof.
  intros Hcwd. revert acc. induction l as [|a l IH]; intros acc.
  - destruct cwd as [|c cwd]; [discriminate|]. cbn [app resolve_loop].
    rewrite Hcwd. eauto.
  - cbn [app resolve_loop]. destruct a as [|c a]; [apply IH|].
    destruct (isAbsolute (c :: a)); [eauto | apply IH].
Qed.

Lemma resolve_shape cwd args :
  isAbsolute cwd = true ->
  exists rs, path_resolve cwd args = CHAR_FORWARD_SLASH :: join_slash rs
             /\ Forall plain rs.
Proof.
  intros Hcwd. unfold path_resolve.
  destruct (resolve_loop_absolute cwd (rev args) [] Hcwd) as [p ->].
  eexists. split; [reflexivity|].
  unfold normalize_segments. apply Forall_rev.
  apply fold_keeps_plain; [constructor | apply split_slash_pieces].
Qed.

Lemma fold_join b xs stack :
  Forall plain xs ->
  fold_left (normalize_step b) (split_slash (join_slash xs)) stack = rev xs ++ stack.
Proof.
  intros Hxs. destruct xs as [|x xs]; [reflexivity|].
  rewrite split_join by (try discriminate; apply plain_slashfree; exact Hxs).
  apply fold_plain. exact Hxs.
Qed.

Lemma step_empty b stack : normalize_step b stack [] = stack.
Proof. reflexivity. Qed.

Lemma plain_join_relative p ps :
  plain p -> exists c t, join_slash (p :: ps) = c :: t /\ c <> CHAR_FORWARD_SLASH.
Proof.
  intros (Hne & _ & _ & Hs). destruct p as [|c p]; [contradiction|].
  apply Forall_cons_1 in Hs as [Hc _].
  destruct ps; cbn [join_slash app]; eauto.
Qed.

Lemma split_leading_slash x :
  split_slash (CHAR_FORWARD_SLASH :: x) = [] :: split_slash x.
Proof. reflexivity. Qed.

Lemma resolve_root cwd rs :
  Forall plain rs ->
  path_resolve cwd [CHAR_FORWARD_SLASH :: join_slash rs] = CHAR_FORWARD_SLASH :: join_slash rs.
Proof.
  intros Hrs. unfold path_resolve. cbn [rev app resolve_loop isAbsolute].
  rewrite Z.eqb_refl. cbn [negb]. f_equal.
  unfold normalizeString, normalize_segments. f_equal.
  cbn [app]. rewrite split_leading_slash, split_slash_app.
  cbn [split_slash app fold_left].
  rewrite step_empty, fold_left_app, fold_join by exact Hrs.
  cbn [fold_left]. rewrite step_empty, app_nil_r. apply rev_involutive.
Qed.

Lemma resolve_below cwd rs ps :
  Forall plain rs -> Forall plain ps ->
  path_resolve cwd [CHAR_FORWARD_SLASH :: join_slash rs; join_slash ps]
  = CHAR_FORWARD_SLASH :: join_slash (rs ++ ps).
Proof.
  intros Hrs Hps. destruct ps as [|p ps].
  { rewrite app_nil_r. unfold path_resolve. cbn [rev app resolve_loop join_slash].
    exact (resolve_root cwd rs Hrs). }
  apply Forall_cons_1 in Hps as Hps'. destruct Hps' as [Hp _].
  destruct (plain_join_relative p ps Hp) as (c & t & Hjoin & Hc).
  unfold path_resolve. cbn [rev app resolve_loop]. rewrite Hjoin.
  cbn [isAbsolute]. destruct (Z.eqb_spec c CHAR_FORWARD_SLASH); [contradiction|].
  rewrite Z.eqb_refl. cbn [negb]. f_equal. rewrite <- Hjoin.
  unfold normalizeString, normalize_segments. f_equal.
  cbn [app]. rewrite split_leading_slash, !split_slash_app.
  cbn [split_slash app fold_left].
  rewrite step_empty, !fold_left_app, !fold_join by assumption.
  cbn [fold_left]. rewrite step_empty, app_nil_r, rev_app_distr, !rev_involutive.
  reflexivity.
Qed.

Lemma filter_nonempty_plain xs :
  Forall plain xs -> List.filter (fun seg => negb (str_eqb seg [])) xs = xs.
Proof.
  induction 1 as [|x xs Hx _ IH]; [reflexivity|].
  cbn [List.filter]. rewrite (str_eqb_neq x [] (proj1 Hx)). cbn [negb].
  f_equal. exact IH.
Qed.

Lemma segments_rooted xs :
  Forall plain xs -> nonempty_segments (CHAR_FORWARD_SLASH :: join_slash xs) = xs.
Proof.
  intros Hxs. unfold nonempty_segments. rewrite split_leading_slash.
  cbn [List.filter str_eqb negb]. destruct xs as [|x xs]; [reflexivity|].
  rewrite split_join by (try discriminate; apply plain_slashfree; exact Hxs).
  apply filter_nonempty_plain. exact Hxs.
Qed.

Lemma startsWith_refl_app s t : startsWith (s ++ t) s = true.
Proof.
  induction s as [|c s IH]; [destruct t; reflexivity|].
  cbn [app startsWith]. rewrite Z.eqb_refl. exact IH.
Qed.

Lemma rooted_startsWith rs ps :
  startsWith (CHAR_FORWARD_SLASH :: join_slash (rs ++ ps))
             (CHAR_FORWARD_SLASH :: join_slash rs) = true.
Proof.
  destruct rs as [|r rs]; [destruct (join_slash ([] ++ ps)); reflexivity|].
  destruct ps as [|p ps].
  - rewrite app_nil_r. rewrite <- (app_nil_r (_ :: join_slash (r :: rs))) at 1.
    apply startsWith_refl_app.
  - rewrite join_slash_app by discriminate.
    rewrite app_comm_cons. apply startsWith_refl_app.
Qed.

Lemma join_last_char names :
  names <> [] -> Forall plain names ->
  exists pre c, join_slash names = pre ++ [c] /\ c <> CHAR_FORWARD_SLASH.
Proof.
  intros Hne Hnames. induction Hnames as [|n names Hn Hnames IH]; [contradiction|].
  destruct names as [|n2 names].
  - destruct Hn as (Hn & _ & _ & Hs).
    destruct (exists_last Hn) as (pre & c & ->).
    apply Forall_app in Hs as [_ Hc]. apply Forall_cons_1 in Hc as [Hc _].
    exists pre, c. split; [reflexivity | exact Hc].
  - destruct IH as (pre & c & E & Hc); [discriminate|].
    rewrite join_slash_cons, E. exists (n ++ CHAR_FORWARD_SLASH :: pre), c.
    split; [|exact Hc]. rewrite <- app_assoc. reflexivity.
Qed.

Lemma no_trailing_slash a names :
  names <> [] -> Forall plain names ->
  endsWith (a ++ join_slash names) [CHAR_FORWARD_SLASH] = false.
Proof.
  intros Hne Hnames. destruct (join_last_char names Hne Hnames) as (pre & c & -> & Hc).
  unfold endsWith. rewrite !rev_app_distr. cbn [rev app startsWith].
  destruct (Z.eqb_spec c CHAR_FORWARD_SLASH); [contradiction | reflexivity].
Qed.

Lemma join_nonempty names :
  names <> [] -> Forall plain names -> join_slash names <> [].
Proof.
  intros Hne Hnames E. destruct (join_last_char names Hne Hnames) as (pre & c & E' & _).
  rewrite E in E'. destruct pre; discriminate.
Qed.

(** [path.join] of a normalized absolute directory and plain names. *)
Lemma join_below ds names :
  Forall plain ds -> Forall plain names -> names <> [] ->
  path_join ((CHAR_FORWARD_SLASH :: join_slash ds) :: names)
  = CHAR_FORWARD_SLASH :: join_slash (ds ++ names).
Proof.
  intros Hds Hnames Hne. unfold path_join.
  cbn [List.filter str_eqb negb]. rewrite filter_nonempty_plain by exact Hnames.
  destruct names as [|n names]; [contradiction|].
  rewrite join_slash_cons.
  assert (normalizeString ((CHAR_FORWARD_SLASH :: join_slash ds) ++
                             CHAR_FORWARD_SLASH :: join_slash (n :: names)) false
          = join_slash (ds ++ n :: names)) as Hnorm.
  { unfold normalizeString, normalize_segments. f_equal.
    cbn [app]. rewrite split_leading_slash, split_slash_app.
    cbn [fold_left]. rewrite step_empty, fold_left_app, !fold_join by assumption.
    rewrite app_nil_r, rev_app_distr, !rev_involutive. reflexivity. }
  rewrite path_normalize_absolute, Hnorm; [reflexivity | reflexivity | |].
  - rewrite cons_middle, app_assoc.
    apply no_trailing_slash; [discriminate | exact Hnames].
  - rewrite Hnorm. apply join_nonempty; [destruct ds; discriminate|].
    apply Forall_app. split; assumption.
Qed.

Lemma str_eqb_refl a : str_eqb a a = true.
Proof. apply str_eqb_eq. reflexivity. Qed.

Lemma strip_common_prefix rs ps : strip_common rs (rs ++ ps) = ([], ps).
Proof.
  induction rs as [|r rs IH]; [destruct ps; reflexivity|].
  cbn [app strip_common]. rewrite str_eqb_refl. exact IH.
Qed.

Lemma relative_below cwd rs ps :
  Forall plain rs -> Forall plain ps ->
  path_relative cwd (CHAR_FORWARD_SLASH :: join_slash rs)
                    (CHAR_FORWARD_SLASH :: join_slash (rs ++ ps))
  = join_slash ps.
Proof.
  intros Hrs Hps. unfold path_relative.
  assert (Forall plain (rs ++ ps)) as Hall by (apply Forall_app; split; assumption).
  rewrite !resolve_root, !segments_rooted by assumption.
  rewrite strip_common_prefix. reflexivity.
Qed.

Lemma last_app_nonempty {A} (xs ps : list A) d :
  ps <> [] -> List.last (xs ++ ps) d = List.last ps d.
Proof.
  intros Hne. rewrite (app_removelast_last d Hne), app_assoc, !List.last_last.
  reflexivity.
Qed.

Lemma basename_below xs ps :
  Forall plain xs -> Forall plain ps -> ps <> [] ->
  path_basename (CHAR_FORWARD_SLASH :: join_slash (xs ++ ps)) = List.last ps [].
Proof.
  intros Hxs Hps Hne. unfold path_basename.
  fold (nonempty_segments (CHAR_FORWARD_SLASH :: join_slash (xs ++ ps))).
  rewrite segments_rooted by (apply Forall_app; split; assumption).
  apply last_app_nonempty. exact Hne.
Qed.

Lemma replaceAll_none s :
  Forall (fun c => c <> CHAR_BACKWARD_SLASH) s -> replaceAll_backslash s = s.
Proof.
  induction 1 as [|c s Hc _ IH]; [reflexivity|].
  unfold replaceAll_backslash in *. cbn [map].
  destruct (Z.eqb_spec c CHAR_BACKWARD_SLASH); [contradiction|]. f_equal. exact IH.
Qed.

Lemma join_no_backslash ps :
  Forall (Forall (fun c => c <> CHAR_BACKWARD_SLASH)) ps ->
  Forall (fun c => c <> CHAR_BACKWARD_SLASH) (join_slash ps).
Proof.
  induction 1 as [|p ps Hp Hps IH]; [constructor|].
  destruct ps as [|p2 ps]; [exact Hp|].
  rewrite join_slash_cons. apply Forall_app. split; [exact Hp|].
  constructor; [discriminate | exact IH].
Qed.

Lemma startsWith_nil s : startsWith s [] = true.
Proof. destruct s; reflexivity. Qed.

Lemma startsWith_within_piece a t r :
  slashfree r -> startsWith (a ++ CHAR_FORWARD_SLASH :: t) r = true ->
  startsWith a r = true.
Proof.
  intros Hr. revert a. induction Hr as [|y r Hy _ IH]; intros a H;
    [apply startsWith_nil|].
  destruct a as [|x a]; cbn [app startsWith] in *.
  - apply andb_prop in H as [H _]. apply Z.eqb_eq in H. symmetry in H. contradiction.
  - apply andb_prop in H as [-> H]. exact (IH a H).
Qed.

Lemma startsWith_across_piece a A r R :
  slashfree a -> slashfree r ->
  startsWith (a ++ CHAR_FORWARD_SLASH :: A) (r ++ CHAR_FORWARD_SLASH :: R) = true ->
  a = r /\ startsWith A R = true.
Proof.
  intros Ha. revert r. induction Ha as [|x a Hx _ IH]; intros r Hr H.
  - destruct Hr as [|y r Hy _]; cbn [app startsWith] in H.
    + apply andb_prop in H as [_ H]. auto.
    + apply andb_prop in H as [H _]. apply Z.eqb_eq in H. symmetry in H. contradiction.
  - destruct Hr as [|y r Hy Hr]; cbn [app startsWith] in H.
    + apply andb_prop in H as [H _]. apply Z.eqb_eq in H. contradiction.
    + apply andb_prop in H as [Hxy H]. apply Z.eqb_eq in Hxy. subst y.
      destruct (IH r Hr H) as [-> HAR]. auto.
Qed.

Lemma startsWith_slash_inside s r R :
  slashfree s -> startsWith s (r ++ CHAR_FORWARD_SLASH :: R) = false.
Proof.
  intros Hs. revert r. induction Hs as [|x s Hx _ IH]; intros r.
  - destruct r; reflexivity.
  - destruct r as [|y r]; cbn [app startsWith].
    + destruct (Z.eqb_spec x CHAR_FORWARD_SLASH); [contradiction | reflexivity].
    + rewrite IH. apply andb_false_r.
Qed.

(** A joined path that starts, as a string, with another joined path. *)
Lemma startsWith_join rs :
  rs <> [] -> Forall plain rs ->
  forall xs, Forall slashfree xs ->
    startsWith (join_slash xs) (join_slash rs) = true ->
    removelast rs `prefix_of` xs
    /\ exists seg, xs !! (length rs - 1)%nat = Some seg
                   /\ startsWith seg (List.last rs []) = true.
Proof.
  intros Hne Hrs. induction Hrs as [|r rs Hr Hrs IH]; [contradiction|].
  destruct Hr as (Hrne & _ & _ & Hr).
  intros xs Hxs H. destruct rs as [|r2 rs].
  - cbn [removelast List.last length join_slash] in *. split; [apply prefix_nil|].
    destruct xs as [|x [|x2 xs]].
    + exfalso. destruct r; [contradiction | discriminate].
    + exists x. split; [reflexivity | exact H].
    + exists x. split; [reflexivity|]. rewrite join_slash_cons in H.
      exact (startsWith_within_piece _ _ _ Hr H).
  - destruct xs as [|x [|x2 xs]].
    + exfalso. rewrite join_slash_cons in H. cbn [join_slash] in H.
      destruct r; cbn in H; discriminate.
    + exfalso. rewrite join_slash_cons in H. cbn [join_slash] in H.
      apply Forall_cons_1 in Hxs as [Hx _].
      rewrite (startsWith_slash_inside x r _ Hx) in H. discriminate.
    + rewrite !join_slash_cons in H.
      apply Forall_cons_1 in Hxs as [Hx Hxs].
      destruct (startsWith_across_piece _ _ _ _ Hx Hr H) as [-> H'].
      destruct (IH ltac:(discriminate) (x2 :: xs) Hxs H') as [Hpre (seg & Hseg & Hstart)].
      split.
      * change (removelast (r :: r2 :: rs)) with (r :: removelast (r2 :: rs)).
        apply prefix_cons. exact Hpre.
      * exists seg. split; [|exact Hstart].
        cbn [length Nat.sub] in *. rewrite Nat.sub_0_r in Hseg. exact Hseg.
Qed.


(** ** The roots *)

Lemma video_root_shape cfg :
  isAbsolute (cwd cfg) = true ->
  exists rs, VIDEO_ROOT cfg = CHAR_FORWARD_SLASH :: join_slash rs /\ Forall plain rs.
Proof. intros H. apply resolve_shape. exact H. Qed.

Lemma cache_root_shape cfg :
  isAbsolute (cwd cfg) = true ->
  exists cs, CACHE_ROOT cfg = CHAR_FORWARD_SLASH :: join_slash cs /\ Forall plain cs.
Proof. intros H. apply resolve_shape. exact H. Qed.

Lemma plain_thumbs : plain (js "thumbs").
Proof. by_decide. Qed.

Lemma plain_index_m3u8 : plain (js "index.m3u8").
Proof. by_decide. Qed.

(** X7.  With an absolute working directory, whatever the environment
    variables hold, the library root and the cache root are normalized
    absolute paths: a slash followed by pieces that are not empty, not [.]
    and not [..], joined by single slashes.  The thumbnail directory is the
    piece [thumbs] below the cache root, and resolving a root again gives
    the root. *)
Theorem roots_are_normalized cfg :
  isAbsolute (cwd cfg) = true ->
  exists rs cs,
    Forall plain rs /\ Forall plain cs
    /\ VIDEO_ROOT cfg = CHAR_FORWARD_SLASH :: join_slash rs
    /\ CACHE_ROOT cfg = CHAR_FORWARD_SLASH :: join_slash cs
    /\ THUMB_DIR cfg = CHAR_FORWARD_SLASH :: join_slash (cs ++ [js "thumbs"])
    /\ path_resolve (cwd cfg) [VIDEO_ROOT cfg] = VIDEO_ROOT cfg
    /\ path_resolve (cwd cfg) [CACHE_ROOT cfg] = CACHE_ROOT cfg.
Proof.
  intros Hcwd.
  destruct (video_root_shape cfg Hcwd) as (rs & Hv & Hrs).
  destruct (cache_root_shape cfg Hcwd) as (cs & Hc & Hcs).
  exists rs, cs. split; [exact Hrs|]. split; [exact Hcs|].
  split; [exact Hv|]. split; [exact Hc|]. split; [|split].
  - unfold THUMB_DIR. rewrite Hc.
    apply join_below; [exact Hcs | | discriminate].
    apply Forall_singleton. exact plain_thumbs.
  - rewrite Hv. apply resolve_root. exact Hrs.
  - rewrite Hc. apply resolve_root. exact Hcs.
Qed.

Lemma roots_are_normalized_witness :
  isAbsolute (cwd (Config (js "/srv/app") (Some (js "../media//films/")) None)) = true
  /\ exists rs cs,
       Forall plain rs /\ Forall plain cs
       /\ VIDEO_ROOT (Config (js "/srv/app") (Some (js "../media//films/")) None)
          = CHAR_FORWARD_SLASH :: join_slash rs
       /\ CACHE_ROOT (Config (js "/srv/app") (Some (js "../media//films/")) None)
          = CHAR_FORWARD_SLASH :: join_slash cs.
Proof.
  split; [reflexivity|].
  destruct (roots_are_normalized
              (Config (js "/srv/app") (Some (js "../media//films/")) None) eq_refl)
    as (rs & cs & Hrs & Hcs & Hv & Hc & _).
  exists rs, cs. auto.
Defined.

(** ** Paths that are accepted *)

Lemma safeAbsFromRel_below cfg rs rel ps :
  VIDEO_ROOT cfg = CHAR_FORWARD_SLASH :: join_slash rs -> Forall plain rs ->
  replaceAll_backslash rel = join_slash ps -> Forall plain ps ->
  safeAbsFromRel cfg rel = Some (CHAR_FORWARD_SLASH :: join_slash (rs ++ ps)).
Proof.
  intros Hv Hrs Hrel Hps. unfold safeAbsFromRel. cbv zeta.
  rewrite Hrel, Hv, resolve_below by assumption.
  rewrite rooted_startsWith. reflexivity.
Qed.

Lemma root_segments cfg rs :
  VIDEO_ROOT cfg = CHAR_FORWARD_SLASH :: join_slash rs -> Forall plain rs ->
  nonempty_segments (VIDEO_ROOT cfg) = rs.
Proof. intros -> Hrs. apply segments_rooted. exact Hrs. Qed.

(** X8.  A relative path made of plain pieces (none empty, [.] or [..]),
    written with slashes or with backslashes, is accepted by
    [safeAbsFromRel]: the result is the path with exactly these pieces
    below the library root, and it lies inside the root. *)
Theorem plain_paths_are_accepted cfg rel ps :
  isAbsolute (cwd cfg) = true ->
  replaceAll_backslash rel = join_slash ps -> Forall plain ps ->
  safeAbsFromRel cfg rel = Some (below (VIDEO_ROOT cfg) ps)
  /\ inside (VIDEO_ROOT cfg) (below (VIDEO_ROOT cfg) ps)
  /\ nonempty_segments (below (VIDEO_ROOT cfg) ps)
     = nonempty_segments (VIDEO_ROOT cfg) ++ ps.
Proof.
  intros Hcwd Hrel Hps.
  destruct (video_root_shape cfg Hcwd) as (rs & Hv & Hrs).
  pose proof (root_segments cfg rs Hv Hrs) as Hsegs.
  assert (nonempty_segments (below (VIDEO_ROOT cfg) ps) = rs ++ ps) as Hbelow.
  { unfold below. rewrite Hsegs. apply segments_rooted.
    apply Forall_app. split; assumption. }
  split; [|split].
  - unfold below. rewrite Hsegs. apply (safeAbsFromRel_below cfg rs rel ps); assumption.
  - unfold inside. rewrite Hbelow, Hsegs. apply prefix_app_r. reflexivity.
  - rewrite Hbelow, Hsegs. reflexivity.
Qed.

Lemma plain_paths_are_accepted_witness :
  isAbsolute (cwd example_config) = true
  /\ replaceAll_backslash (js "Show\S01\E01.mkv")
     = join_slash [js "Show"; js "S01"; js "E01.mkv"]
  /\ safeAbsFromRel example_config (js "Show\S01\E01.mkv")
     = Some (js "/srv/app/videos/Show/S01/E01.mkv").
Proof.
  split; [reflexivity|]. split; [reflexivity|].
  destruct (plain_paths_are_accepted example_config (js "Show\S01\E01.mkv")
              [js "Show"; js "S01"; js "E01.mkv"] eq_refl eq_refl) as [H _].
  - by_decide.
  - rewrite H. vm_compute. reflexivity.
Defined.

(** X9.  What [safeAbsFromRel] accepts never lies farther away than a
    sibling of the library root: an accepted path is normalized, has all
    pieces of the root but the last, and its next piece starts with the
    last piece of the root. *)
Theorem accepted_path_stays_near_root cfg rel abs :
  isAbsolute (cwd cfg) = true ->
  safeAbsFromRel cfg rel = Some abs ->
  exists rs xs,
    VIDEO_ROOT cfg = CHAR_FORWARD_SLASH :: join_slash rs /\ Forall plain rs
    /\ abs = CHAR_FORWARD_SLASH :: join_slash xs /\ Forall plain xs
    /\ removelast rs `prefix_of` xs
    /\ (rs <> [] ->
        exists seg, xs !! (length rs - 1)%nat = Some seg
                    /\ startsWith seg (List.last rs []) = true).
Proof.
  intros Hcwd Hsafe.
  destruct (video_root_shape cfg Hcwd) as (rs & Hv & Hrs).
  unfold safeAbsFromRel in Hsafe. cbv zeta in Hsafe.
  destruct (resolve_shape (cwd cfg) [VIDEO_ROOT cfg; replaceAll_backslash rel] Hcwd)
    as (xs & Hx & Hxs).
  rewrite Hx in Hsafe.
  destruct (startsWith _ _) eqn:Hstart; [|discriminate].
  injection Hsafe as <-. exists rs, xs.
  split; [exact Hv|]. split; [exact Hrs|]. split; [reflexivity|]. split; [exact Hxs|].
  rewrite Hv in Hstart. cbn [startsWith] in Hstart. rewrite Z.eqb_refl in Hstart.
  cbn [andb] in Hstart.
  destruct rs as [|r rs]; [split; [apply prefix_nil | contradiction]|].
  destruct (startsWith_join (r :: rs) ltac:(discriminate) Hrs xs
              (plain_slashfree xs Hxs) Hstart) as [Hpre Hseg].
  split; [exact Hpre | intros _; exact Hseg].
Qed.

Lemma accepted_path_stays_near_root_witness :
  isAbsolute (cwd example_config) = true
  /\ safeAbsFromRel example_config (js "../videos-private/clip.mp4")
     = Some (js "/srv/app/videos-private/clip.mp4")
  /\ exists rs xs,
       VIDEO_ROOT example_config = CHAR_FORWARD_SLASH :: join_slash rs
       /\ js "/srv/app/videos-private/clip.mp4" = CHAR_FORWARD_SLASH :: join_slash xs
       /\ removelast rs `prefix_of` xs.
Proof.
  split; [reflexivity|]. split; [reflexivity|].
  destruct (accepted_path_stays_near_root example_config
              (js "../videos-private/clip.mp4")
              (js "/srv/app/videos-private/clip.mp4") eq_refl eq_refl)
    as (rs & xs & Hv & _ & Hx & _ & Hpre & _).
  exists rs, xs. auto.
Defined.

(** ** The two readers of an id *)

Lemma absFromId_by_safeAbsFromRel cfg disk id :
  absFromId cfg disk id =
  match idToRelPath id with
  | Some (c :: rel) =>
      safeAbsFromRel cfg (c :: rel) ≫=
        (fun abs => if existsSync disk abs then Some abs else None)
  | _ => None
  end.
Proof.
  unfold absFromId, safeAbsFromRel.
  destruct (idToRelPath id) as [[|c rel]|]; try reflexivity.
  cbv zeta. destruct (negb (startsWith _ _)); reflexivity.
Qed.

(** X10.  The thumbnail endpoint and the video endpoint accept the same
    ids: [absFromId] finds a file for an id exactly when
    [GET /api/video/:id] answers 200 for it, and the answer then names the
    file [absFromId] returns. *)
Theorem info_and_thumb_accept_the_same_ids cfg disk id :
  (status (getVideo cfg disk id) = 200 <-> is_Some (absFromId cfg disk id))
  /\ forall abs, absFromId cfg disk id = Some abs ->
       exists rel,
         idToRelPath id = Some rel
         /\ getVideo cfg disk id
            = Response 200 (VideoInfo id (path_basename abs) rel
                              (js "/api/hls/" ++ id ++ js "/index.m3u8")).
Proof.
  rewrite absFromId_by_safeAbsFromRel. unfold getVideo.
  destruct (idToRelPath id) as [[|c rel]|].
  - split; [split; [discriminate | intros [? ?]; discriminate] | discriminate].
  - destruct (safeAbsFromRel cfg (c :: rel)) as [abs|]; cbn [mbind option_bind].
    + destruct (existsSync disk abs); cbn [negb status].
      * split; [split; eauto|]. intros ? [= <-]. eauto.
      * split; [split; [discriminate | intros [? ?]; discriminate] | discriminate].
    + split; [split; [discriminate | intros [? ?]; discriminate] | discriminate].
  - split; [split; [discriminate | intros [? ?]; discriminate] | discriminate].
Qed.

(** ** The layout of the cache *)

(** X11.  For an id and a segment name that are plain pieces, the
    manifest of the asset is [index.m3u8] in the directory named by the id
    below the cache root, and the segment endpoint serves the file of that
    very directory: what the encoder writes next to the manifest is what
    the players are sent. *)
Theorem manifest_and_segments_share_a_directory cfg disk id seg :
  isAbsolute (cwd cfg) = true -> plain id -> plain seg ->
  endsWith seg (js ".ts") = true ->
  outDir_of cfg id = below (CACHE_ROOT cfg) [id]
  /\ m3u8Path_of cfg id = below (CACHE_ROOT cfg) [id; js "index.m3u8"]
  /\ getSegment cfg disk id seg =
       (if existsSync disk (below (CACHE_ROOT cfg) [id; seg])
        then Response 200
               (FileStream (below (CACHE_ROOT cfg) [id; seg]) (js "video/mp2t"))
        else Response 404 Empty)
  /\ inside (outDir_of cfg id) (below (CACHE_ROOT cfg) [id; seg])
  /\ inside (CACHE_ROOT cfg) (outDir_of cfg id).
Proof.
  intros Hcwd Hid Hseg Hts.
  destruct (cache_root_shape cfg Hcwd) as (cs & Hc & Hcs).
  assert (nonempty_segments (CACHE_ROOT cfg) = cs) as Hsegs
    by (rewrite Hc; apply segments_rooted; exact Hcs).
  unfold below. rewrite Hsegs.
  assert (outDir_of cfg id = CHAR_FORWARD_SLASH :: join_slash (cs ++ [id])) as Hout.
  { unfold outDir_of. rewrite Hc.
    apply join_below; [exact Hcs | apply Forall_singleton; exact Hid | discriminate]. }
  assert (Forall plain (cs ++ [id])) as Hcsid
    by (apply Forall_app; split; [exact Hcs | apply Forall_singleton; exact Hid]).
  assert (Forall plain [id; seg]) as Hidseg
    by (constructor; [exact Hid | apply Forall_singleton; exact Hseg]).
  split; [exact Hout|]. split; [|split; [|split]].
  - unfold m3u8Path_of. rewrite Hout.
    rewrite join_below;
      [rewrite <- app_assoc; reflexivity | exact Hcsid
       | apply Forall_singleton; exact plain_index_m3u8 | discriminate].
  - unfold getSegment. rewrite Hts. cbn [negb]. rewrite Hc.
    rewrite join_below;
      [| exact Hcs | exact Hidseg | discriminate].
    destruct (existsSync disk _); reflexivity.
  - unfold inside. rewrite Hout, !segments_rooted.
    + exists [seg]. rewrite <- app_assoc. reflexivity.
    + apply Forall_app. split; [exact Hcs | exact Hidseg].
    + exact Hcsid.
  - unfold inside. rewrite Hout, Hsegs, segments_rooted by exact Hcsid.
    apply prefix_app_r. reflexivity.
Qed.

Lemma manifest_and_segments_share_a_directory_witness :
  isAbsolute (cwd example_config) = true
  /\ endsWith (js "index7.ts") (js ".ts") = true
  /\ m3u8Path_of example_config example_id = js "/srv/app/cache/YS5tcDQ/index.m3u8"
  /\ getSegment example_config {[js "/srv/app/cache/YS5tcDQ/index7.ts"]}
       example_id (js "index7.ts")
     = Response 200
         (FileStream (js "/srv/app/cache/YS5tcDQ/index7.ts") (js "video/mp2t")).
Proof.
  split; [reflexivity|]. split; [reflexivity|].
  destruct (manifest_and_segments_share_a_directory example_config
              {[js "/srv/app/cache/YS5tcDQ/index7.ts"]} example_id (js "index7.ts")
              eq_refl)
    as (_ & Hm & Hs & _).
  - by_decide.
  - by_decide.
  - reflexivity.
  - split; [rewrite Hm | rewrite Hs]; vm_compute; reflexivity.
Defined.

(** ** The entry of a file in the index *)

Lemma index_entry_below cfg rs ps :
  VIDEO_ROOT cfg = CHAR_FORWARD_SLASH :: join_slash rs -> Forall plain rs ->
  Forall plain ps -> ps <> [] ->
  Forall (Forall (fun c => c <> CHAR_BACKWARD_SLASH)) ps ->
  index_entry cfg (CHAR_FORWARD_SLASH :: join_slash (rs ++ ps))
  = Asset (encodeId (join_slash ps)) (List.last ps []) (join_slash ps).
Proof.
  intros Hv Hrs Hps Hne Hbs. unfold index_entry. cbv zeta.
  rewrite Hv, relative_below, basename_below by assumption.
  rewrite replaceAll_none by (apply join_no_backslash; exact Hbs).
  reflexivity.
Qed.

(** X12.  The index entry of a file below the library root: its [relPath]
    is the pieces from the root to the file joined by slashes, its [name]
    is the last piece, and its id is the encoding of that [relPath],
    provided no piece holds a backslash. *)
Theorem index_entry_of_a_library_file cfg ps :
  isAbsolute (cwd cfg) = true ->
  Forall plain ps -> ps <> [] ->
  Forall (Forall (fun c => c <> CHAR_BACKWARD_SLASH)) ps ->
  index_entry cfg (below (VIDEO_ROOT cfg) ps)
  = Asset (encodeId (join_slash ps)) (List.last ps []) (join_slash ps).
Proof.
  intros Hcwd Hps Hne Hbs.
  destruct (video_root_shape cfg Hcwd) as (rs & Hv & Hrs).
  unfold below. rewrite (root_segments cfg rs Hv Hrs).
  apply index_entry_below; assumption.
Qed.

Lemma index_entry_of_a_library_file_witness :
  isAbsolute (cwd example_config) = true
  /\ index_entry example_config (js "/srv/app/videos/foo/a.mp4") = asset_a.
Proof.
  split; [reflexivity|].
  pose proof (index_entry_of_a_library_file example_config [js "foo"; js "a.mp4"]
                eq_refl) as H.
  change (js "/srv/app/videos/foo/a.mp4")
    with (below (VIDEO_ROOT example_config) [js "foo"; js "a.mp4"]).
  rewrite H; [vm_compute; reflexivity | by_decide | discriminate | by_decide].
Defined.

End ResolveFacts.

(* ===================================================================== *)
(** * The library scan, the index and its listing *)
(* ===================================================================== *)

Module LibraryFacts.
Import JsString Codec Path Catalog Library Examples PathFacts ResolveFacts.

Lemma dirent_names_dir P n its :
  dirent_names P (DDir n (Some its)) <-> P n /\ Forall (dirent_names P) its.
Proof.
  cbn [dirent_names]. split; intros [Hn H]; (split; [exact Hn|]).
  - induction its as [|x its IH]; [constructor|]. destruct H as [Hx H].
    constructor; [exact Hx | exact (IH H)].
  - induction H as [|x its Hx _ IH]; [exact I | split; assumption].
Qed.

Lemma dirent_names_name P it : dirent_names P it -> P (dirent_name it).
Proof. destruct it as [n | n items]; cbn [dirent_names dirent_name]; tauto. Qed.

Lemma good_plain ps : Forall good_name ps -> Forall plain ps.
Proof. intros H. apply (Forall_impl _ _ _ H). intros p (Hp & _). exact Hp. Qed.

(** ** [walk] *)

Section Walk.

Variable toLowerCase : jsstring -> jsstring.
Variable rs : list jsstring.
Hypothesis Hrs : Forall plain rs.

Local Abbreviation listed := (listed toLowerCase rs).

Lemma walk_entry_listed it :
  dirent_names good_name it ->
  forall ds out, Forall good_name ds -> Forall listed out ->
    Forall listed
      (walk_entry toLowerCase (CHAR_FORWARD_SLASH :: join_slash (rs ++ ds)) out it).
Proof.
  induction it as [n | n items IH] using dirent_ind'; intros Hnames ds out Hds Hout.
  - cbn [walk_entry dirent_names] in *.
    destruct (VIDEO_EXTS_has _) eqn:Hext; [|exact Hout].
    apply Forall_app. split; [exact Hout|]. apply Forall_singleton.
    exists (ds ++ [n]). split; [|split; [|split]].
    + rewrite join_below, <- app_assoc;
        [reflexivity | apply Forall_app; split; [exact Hrs | apply good_plain, Hds]
         | apply Forall_singleton, Hnames | discriminate].
    + destruct ds; discriminate.
    + apply Forall_app. split; [exact Hds | apply Forall_singleton, Hnames].
    + rewrite List.last_last. exact Hext.
  - destruct items as [its|]; [|exact Hout].
    apply dirent_names_dir in Hnames as [Hn Hits].
    cbn [walk_entry].
    match goal with
    | |- context [walk_entry _ ?d] =>
        assert (d = CHAR_FORWARD_SLASH :: join_slash (rs ++ (ds ++ [n]))) as ->
    end.
    { rewrite join_below, <- app_assoc;
        [reflexivity | apply Forall_app; split; [exact Hrs | apply good_plain, Hds]
         | apply Forall_singleton, Hn | discriminate]. }
    assert (Forall good_name (ds ++ [n])) as Hdsn
      by (apply Forall_app; split; [exact Hds | apply Forall_singleton, Hn]).
    revert out Hout. induction its as [|x its IHits]; intros out Hout; [exact Hout|].
    apply Forall_cons_1 in IH as [IHx IH]. apply Forall_cons_1 in Hits as [Hx Hits].
    cbn [fold_left]. apply (IHits IH Hits). apply IHx; assumption.
Qed.

Lemma walk_listed items :
  listing_names good_name items ->
  Forall listed (walk toLowerCase (CHAR_FORWARD_SLASH :: join_slash rs) items []).
Proof.
  intros Hnames. destruct items as [its|]; [|constructor]. cbn [walk listing_names] in *.
  assert (forall out, Forall listed out ->
            Forall listed
              (fold_left (walk_entry toLowerCase
                            (CHAR_FORWARD_SLASH :: join_slash (rs ++ []))) its out))
    as H.
  { induction Hnames as [|x its Hx _ IH]; intros out Hout; [exact Hout|].
    cbn [fold_left]. apply IH. apply walk_entry_listed; [exact Hx | constructor | exact Hout]. }
  rewrite app_nil_r in H. apply H. constructor.
Qed.

End Walk.

Lemma example_library_names : listing_names good_name example_library.
Proof.
  repeat first
    [ apply List.Forall_nil
    | apply List.Forall_cons
    | apply dirent_names_dir; split
    | by_decide ].
Qed.

(** ** [walk], exactly *)

Lemma files_of_nonempty it ps : In ps (files_of it) -> ps <> [].
Proof.
  destruct it as [n | n [its|]]; cbn [files_of].
  - intros [<- | []]. discriminate.
  - intros H. apply in_map_iff in H as (qs & <- & _). discriminate.
  - intros [].
Qed.

Lemma filter_is_video_cons toLowerCase n (l : list (list jsstring)) :
  (forall ps, In ps l -> ps <> []) ->
  List.filter (is_video toLowerCase) (map (cons n) l)
  = map (cons n) (List.filter (is_video toLowerCase) l).
Proof.
  induction l as [|ps l IH]; intros Hne; [reflexivity|].
  cbn [map List.filter].
  assert (is_video toLowerCase (n :: ps) = is_video toLowerCase ps) as ->.
  { unfold is_video. destruct ps as [|p ps]; [|reflexivity].
    exfalso. apply (Hne []); [left; reflexivity | reflexivity]. }
  rewrite IH by (intros qs Hq; apply Hne; right; exact Hq).
  destruct (is_video toLowerCase ps); reflexivity.
Qed.

Lemma files_of_plain it :
  dirent_names plain it -> Forall (Forall plain) (files_of it).
Proof.
  induction it as [n | n items IH] using dirent_ind'; intros Hnames.
  - cbn [files_of dirent_names] in *. apply Forall_singleton, Forall_singleton, Hnames.
  - destruct items as [its|]; [|constructor].
    apply dirent_names_dir in Hnames as [Hn Hits]. cbn [files_of].
    apply Forall_forall. intros ps Hps. apply list_elem_of_In, in_map_iff in Hps
      as (qs & <- & Hqs).
    constructor; [exact Hn|]. apply in_flat_map in Hqs as (x & Hx & Hqs).
    rewrite Forall_forall in IH, Hits.
    pose proof (IH x (proj2 (list_elem_of_In _ _) Hx)
                  (Hits x (proj2 (list_elem_of_In _ _) Hx))) as H.
    rewrite Forall_forall in H. apply H. apply list_elem_of_In. exact Hqs.
Qed.

Section Exact.

Variable toLowerCase : jsstring -> jsstring.
Variable rs : list jsstring.
Hypothesis Hrs : Forall plain rs.

Lemma walk_entry_files it :
  dirent_names plain it ->
  forall ds out, Forall plain ds ->
    walk_entry toLowerCase (CHAR_FORWARD_SLASH :: join_slash (rs ++ ds)) out it
    = out ++ map (fun ps => CHAR_FORWARD_SLASH :: join_slash (rs ++ ds ++ ps))
               (List.filter (is_video toLowerCase) (files_of it)).
Proof.
  induction it as [n | n items IH] using dirent_ind'; intros Hnames ds out Hds.
  - cbn [walk_entry dirent_names files_of List.filter] in *.
    unfold is_video. cbn [List.last].
    destruct (VIDEO_EXTS_has _); [|rewrite app_nil_r; reflexivity].
    cbn [map]. rewrite join_below, <- app_assoc;
      [reflexivity | apply Forall_app; split; assumption
       | apply Forall_singleton, Hnames | discriminate].
  - destruct items as [its|]; [|cbn; rewrite app_nil_r; reflexivity].
    apply dirent_names_dir in Hnames as [Hn Hits].
    cbn [walk_entry files_of].
    match goal with
    | |- context [walk_entry _ ?d] =>
        assert (d = CHAR_FORWARD_SLASH :: join_slash (rs ++ (ds ++ [n]))) as ->
    end.
    { rewrite join_below, <- app_assoc;
        [reflexivity | apply Forall_app; split; assumption
         | apply Forall_singleton, Hn | discriminate]. }
    assert (Forall plain (ds ++ [n])) as Hdsn
      by (apply Forall_app; split; [exact Hds | apply Forall_singleton, Hn]).
    rewrite filter_is_video_cons
      by (intros ps Hps; apply in_flat_map in Hps as (x & _ & Hps);
          exact (files_of_nonempty x ps Hps)).
    rewrite map_map.
    assert (forall ps, CHAR_FORWARD_SLASH :: join_slash (rs ++ ds ++ n :: ps)
                       = CHAR_FORWARD_SLASH :: join_slash (rs ++ (ds ++ [n]) ++ ps)) as Hpath
      by (intros ps; rewrite <- (app_assoc ds); reflexivity).
    rewrite (map_ext _ _ Hpath). clear Hpath.
    revert out. induction its as [|x its IHits]; intros out;
      [cbn; rewrite app_nil_r; reflexivity|].
    apply Forall_cons_1 in IH as [IHx IH]. apply Forall_cons_1 in Hits as [Hx Hits].
    cbn [fold_left flat_map]. rewrite (IHits IH Hits), (IHx Hx _ _ Hdsn).
    rewrite List.filter_app, map_app, app_assoc. reflexivity.
Qed.

Lemma walk_files items :
  listing_names plain items ->
  walk toLowerCase (CHAR_FORWARD_SLASH :: join_slash rs) items []
  = map (fun ps => CHAR_FORWARD_SLASH :: join_slash (rs ++ ps))
      (List.filter (is_video toLowerCase) (library_files items)).
Proof.
  intros Hnames. destruct items as [its|]; [|reflexivity].
  cbn [walk listing_names library_files] in *.
  assert (forall out,
            fold_left (walk_entry toLowerCase
                         (CHAR_FORWARD_SLASH :: join_slash (rs ++ []))) its out
            = out ++ map (fun ps => CHAR_FORWARD_SLASH :: join_slash (rs ++ [] ++ ps))
                       (List.filter (is_video toLowerCase) (flat_map files_of its)))
    as H.
  { induction Hnames as [|x its Hx _ IH]; intros out;
      [cbn; rewrite app_nil_r; reflexivity|].
    cbn [fold_left flat_map].
    rewrite IH, (walk_entry_files x Hx [] out (List.Forall_nil _)).
    rewrite List.filter_app, map_app, app_assoc. reflexivity. }
  rewrite app_nil_r in H. exact (H []).
Qed.

End Exact.

Lemma library_files_plain items :
  listing_names plain items -> Forall (Forall plain) (library_files items).
Proof.
  intros Hnames. destruct items as [its|]; [|constructor].
  cbn [listing_names library_files] in *.
  induction Hnames as [|x its Hx _ IH]; [constructor|].
  cbn [flat_map]. apply Forall_app. split; [apply files_of_plain; exact Hx | exact IH].
Qed.

Lemma example_library_plain : listing_names plain example_library.
Proof.
  repeat first
    [ apply List.Forall_nil
    | apply List.Forall_cons
    | apply dirent_names_dir; split
    | by_decide ].
Qed.

(** X13.  [walk] lists exactly the video files of the library, in the
    order of the listing: the files of the tree whose last name has, in
    lower case, one of the five video extensions, each as the path made of
    the pieces of the root followed by the names that lead to the file.  A
    directory that could not be read contributes nothing, and every path
    listed lies inside the library root.  The names of the tree are taken
    as [readdir] reports them: not empty, without a slash, and neither [.]
    nor [..]. *)
Theorem walk_lists_videos_below_the_root toLowerCase cfg library :
  isAbsolute (cwd cfg) = true ->
  listing_names plain library ->
  walk toLowerCase (VIDEO_ROOT cfg) library []
  = map (below (VIDEO_ROOT cfg))
      (List.filter (is_video toLowerCase) (library_files library))
  /\ Forall (inside (VIDEO_ROOT cfg)) (walk toLowerCase (VIDEO_ROOT cfg) library []).
Proof.
  intros Hcwd Hnames.
  destruct (video_root_shape cfg Hcwd) as (rs & Hv & Hrs).
  pose proof (root_segments cfg rs Hv Hrs) as Hsegs.
  assert (walk toLowerCase (VIDEO_ROOT cfg) library []
          = map (below (VIDEO_ROOT cfg))
              (List.filter (is_video toLowerCase) (library_files library))) as Hwalk.
  { unfold below. rewrite Hsegs. rewrite Hv at 1.
    exact (walk_files toLowerCase rs Hrs library Hnames). }
  split; [exact Hwalk|]. rewrite Hwalk.
  apply Forall_forall. intros full Hfull.
  apply list_elem_of_In, in_map_iff in Hfull as (ps & <- & Hps).
  apply filter_In in Hps as [Hps _].
  pose proof (library_files_plain library Hnames) as Hplain.
  rewrite Forall_forall in Hplain.
  specialize (Hplain ps (proj2 (list_elem_of_In _ _) Hps)).
  unfold inside, below. rewrite Hsegs, segments_rooted.
  - apply prefix_app_r. reflexivity.
  - apply Forall_app. split; assumption.
Qed.

Lemma walk_lists_videos_below_the_root_witness :
  isAbsolute (cwd example_config) = true
  /\ walk ascii_toLowerCase (VIDEO_ROOT example_config) example_library []
     = [js "/srv/app/videos/foo/a.mp4"; js "/srv/app/videos/b/foo.mp4"]
  /\ Forall (inside (VIDEO_ROOT example_config))
       (walk ascii_toLowerCase (VIDEO_ROOT example_config) example_library []).
Proof.
  split; [reflexivity|].
  destruct (walk_lists_videos_below_the_root ascii_toLowerCase example_config
              example_library eq_refl example_library_plain) as [Hwalk Hinside].
  split; [|exact Hinside].
  rewrite Hwalk. vm_compute. reflexivity.
Defined.

(** A directory that cannot be read is passed over, and a name with a
    backslash is listed like any other. *)
Example walk_passes_over_unreadable_directories :
  walk ascii_toLowerCase (VIDEO_ROOT example_config)
    (Some [DDir (js "locked") None; DFile [97; 92; 98; 46; 109; 112; 52]]) []
  = [js "/srv/app/videos/" ++ [97; 92; 98; 46; 109; 112; 52]].
Proof. vm_compute. reflexivity. Qed.

(** ** From the index back to the file *)

Lemma isWellFormed_app_bounded (n : nat) a b :
  (length a <= n)%nat ->
  isWellFormed a = true -> isWellFormed b = true -> isWellFormed (a ++ b) = true.
Proof.
  revert a. induction n as [|n IH]; intros a Hlen Ha Hb.
  - destruct a; [exact Hb | simpl in Hlen; lia].
  - destruct a as [|c rest]; [exact Hb|].
    apply CodecFacts.isWellFormed_cons in Ha
      as [Hc [(Hhi & d & rest' & -> & Hd & Hwf) | [Hns Hwf]]].
    + cbn [app isWellFormed]. unfold is_high_surrogate, is_low_surrogate.
      rewrite (IH rest') by (simpl in Hlen; try lia; assumption).
      CodecFacts.split_tests; reflexivity.
    + cbn [app isWellFormed]. unfold is_high_surrogate, is_low_surrogate.
      rewrite (IH rest) by (simpl in Hlen; try lia; assumption).
      CodecFacts.split_tests; reflexivity.
Qed.

Lemma isWellFormed_join ps :
  Forall (fun p => isWellFormed p = true) ps -> isWellFormed (join_slash ps) = true.
Proof.
  induction 1 as [|p ps Hp Hps IH]; [reflexivity|].
  destruct ps as [|p2 ps]; [exact Hp|].
  rewrite join_slash_cons.
  apply (isWellFormed_app_bounded (length p)); [reflexivity | exact Hp | exact IH].
Qed.

Lemma good_names_join ps :
  Forall good_name ps ->
  Forall plain ps
  /\ Forall (Forall (fun c => c <> CHAR_BACKWARD_SLASH)) ps
  /\ isWellFormed (join_slash ps) = true.
Proof.
  intros H. split; [|split].
  - apply good_plain. exact H.
  - apply (Forall_impl _ _ _ H). intros p (_ & Hp & _). exact Hp.
  - apply isWellFormed_join. apply (Forall_impl _ _ _ H). intros p (_ & _ & Hp). exact Hp.
Qed.

Lemma fetch_below cfg disk rs ps :
  VIDEO_ROOT cfg = CHAR_FORWARD_SLASH :: join_slash rs -> Forall plain rs ->
  Forall plain ps -> ps <> [] ->
  Forall (Forall (fun c => c <> CHAR_BACKWARD_SLASH)) ps ->
  isWellFormed (join_slash ps) = true ->
  let abs := CHAR_FORWARD_SLASH :: join_slash (rs ++ ps) in
  let a := index_entry cfg abs in
  existsSync disk abs = true ->
  getVideo cfg disk (id a)
  = Response 200 (VideoInfo (id a) (name a) (relPath a)
                    (js "/api/hls/" ++ id a ++ js "/index.m3u8"))
  /\ absFromId cfg disk (id a) = Some abs.
Proof.
  intros Hv Hrs Hps Hne Hbs Hwf. cbv zeta. intros Hdisk.
  rewrite (index_entry_below cfg rs ps) by assumption.
  cbn [relPath name id].
  assert (replaceAll_backslash (join_slash ps) = join_slash ps) as Hrep
    by (apply replaceAll_none, join_no_backslash; exact Hbs).
  pose proof (safeAbsFromRel_below cfg rs (join_slash ps) ps Hv Hrs Hrep Hps) as Hsafe.
  pose proof (join_nonempty ps Hne Hps) as Hnonempty.
  split.
  - unfold getVideo. rewrite (CodecFacts.decode_encode_id _ Hwf).
    destruct (join_slash ps) as [|c rel] eqn:E; [contradiction|].
    rewrite Hsafe, Hdisk. cbn [negb].
    rewrite <- E, basename_below by assumption. reflexivity.
  - rewrite absFromId_by_safeAbsFromRel, (CodecFacts.decode_encode_id _ Hwf).
    destruct (join_slash ps) as [|c rel] eqn:E; [contradiction|].
    rewrite Hsafe. cbn [mbind option_bind]. rewrite Hdisk. reflexivity.
Qed.

(** X14.  Every file of a freshly built index can be fetched: for a file
    that [walk] found and that still exists, the id of its index entry
    decodes to the entry's [relPath], [GET /api/video/:id] answers 200 with
    the entry's own name and [relPath], and [absFromId] returns the file.
    The names of the library have to be free of backslashes and lone
    surrogates. *)
Theorem every_indexed_file_is_fetchable toLowerCase cfg library disk now :
  isAbsolute (cwd cfg) = true ->
  listing_names good_name library ->
  let index := (buildIndexIfNeeded toLowerCase cfg now library (IndexState None 0)).1 in
  index = map (index_entry cfg) (walk toLowerCase (VIDEO_ROOT cfg) library [])
  /\ forall full,
       In full (walk toLowerCase (VIDEO_ROOT cfg) library []) ->
       existsSync disk full = true ->
       let a := index_entry cfg full in
       In a index
       /\ idToRelPath (id a) = Some (relPath a)
       /\ getVideo cfg disk (id a)
          = Response 200 (VideoInfo (id a) (name a) (relPath a)
                            (js "/api/hls/" ++ id a ++ js "/index.m3u8"))
       /\ absFromId cfg disk (id a) = Some full.
Proof.
  intros Hcwd Hnames. cbv zeta. split; [reflexivity|].
  intros full Hin Hdisk.
  destruct (video_root_shape cfg Hcwd) as (rs & Hv & Hrs).
  pose proof (walk_listed toLowerCase rs Hrs library Hnames) as Hall.
  rewrite <- Hv in Hall. rewrite List.Forall_forall in Hall.
  destruct (Hall full Hin) as (ps & -> & Hne & Hps & _).
  destruct (good_names_join ps Hps) as (Hplain & Hbs & Hwf).
  split; [apply in_map; exact Hin|].
  split.
  - rewrite (index_entry_below cfg rs ps) by assumption. cbn [id relPath].
    apply CodecFacts.decode_encode_id. exact Hwf.
  - exact (fetch_below cfg disk rs ps Hv Hrs Hplain Hne Hbs Hwf Hdisk).
Qed.

Lemma every_indexed_file_is_fetchable_witness :
  isAbsolute (cwd example_config) = true
  /\ In (js "/srv/app/videos/b/foo.mp4")
       (walk ascii_toLowerCase (VIDEO_ROOT example_config) example_library [])
  /\ getVideo example_config {[js "/srv/app/videos/b/foo.mp4"]} (id asset_foo)
     = Response 200
         (VideoInfo (id asset_foo) (js "foo.mp4") (js "b/foo.mp4")
            (js "/api/hls/Yi9mb28ubXA0/index.m3u8")).
Proof.
  split; [reflexivity|].
  assert (In (js "/srv/app/videos/b/foo.mp4")
            (walk ascii_toLowerCase (VIDEO_ROOT example_config) example_library []))
    as Hin by (right; left; vm_compute; reflexivity).
  split; [exact Hin|].
  destruct (every_indexed_file_is_fetchable ascii_toLowerCase example_config
              example_library {[js "/srv/app/videos/b/foo.mp4"]} 0
              eq_refl example_library_names) as [_ H].
  destruct (H (js "/srv/app/videos/b/foo.mp4") Hin) as (_ & _ & Hget & _).
  - vm_compute. reflexivity.
  - change (index_entry example_config (js "/srv/app/videos/b/foo.mp4"))
      with asset_foo in Hget.
    rewrite Hget. vm_compute. reflexivity.
Defined.

(** ** The index cache and the listing *)

Section Cache.

Variable toLowerCase : jsstring -> jsstring.
Variable cfg : config.

Local Abbreviation build := (buildIndexIfNeeded toLowerCase cfg).
Local Abbreviation scan library :=
  (map (index_entry cfg) (walk toLowerCase (VIDEO_ROOT cfg) library [])).

(** X15.  The index is kept for twenty seconds: after any call of
    [buildIndexIfNeeded] the cache holds the index that was returned; a
    call less than 20 000 ms after the cache was built returns that same
    index and leaves the cache alone, whatever the library holds by then;
    a later call scans the library again and stamps the cache with its own
    time. *)
Theorem index_is_reused_for_twenty_seconds now library st now' library' :
  let r := buildIndexIfNeeded toLowerCase cfg now library st in
  indexCache r.2 = Some r.1
  /\ (now' - indexBuiltAt r.2 < 20000 ->
      buildIndexIfNeeded toLowerCase cfg now' library' r.2 = r)
  /\ (20000 <= now' - indexBuiltAt r.2 ->
      buildIndexIfNeeded toLowerCase cfg now' library' r.2
      = (map (index_entry cfg) (walk toLowerCase (VIDEO_ROOT cfg) library' []),
         IndexState
           (Some (map (index_entry cfg)
                    (walk toLowerCase (VIDEO_ROOT cfg) library' [])))
           now')).
Proof.
  cbv zeta.
  assert (forall idx builtAt,
            (now' - builtAt < 20000 ->
             build now' library' (IndexState (Some idx) builtAt)
             = (idx, IndexState (Some idx) builtAt))
            /\ (20000 <= now' - builtAt ->
                build now' library' (IndexState (Some idx) builtAt)
                = (scan library', IndexState (Some (scan library')) now'))) as Hnext.
  { intros idx builtAt. unfold buildIndexIfNeeded. cbn [indexCache indexBuiltAt].
    destruct (Z.ltb_spec (now' - builtAt) 20000); split; intros; (reflexivity || lia). }
  assert (indexCache (build now library st).2 = Some (build now library st).1) as Hcache.
  { unfold buildIndexIfNeeded. destruct st as [[cached|] builtAt];
      cbn [indexCache indexBuiltAt]; [|reflexivity].
    destruct (now - builtAt <? 20000); reflexivity. }
  split; [exact Hcache|].
  destruct (build now library st) as [idx [cache builtAt]].
  cbn [fst snd indexCache indexBuiltAt] in *. subst cache. apply Hnext.
Qed.

Lemma sublist_filter_bool {A} (f : A -> bool) (l : list A) :
  sublist (List.filter f l) l.
Proof.
  induction l as [|x l IH]; [constructor|]. cbn [List.filter].
  destruct (f x); [apply sublist_skip | apply sublist_cons]; exact IH.
Qed.

(** X16.  What [GET /api/videos] lists: entries of the index in the order
    of the index, at most 300 of them, each matching the query when there
    is one; and while the index has at most 300 entries no matching entry
    is left out. *)
Theorem listing_is_a_capped_sublist now library st (qparam : option jsstring) :
  let index := (buildIndexIfNeeded toLowerCase cfg now library st).1 in
  let q := query_text toLowerCase qparam in
  let listing := (getVideos toLowerCase cfg now library st qparam).1 in
  sublist listing index
  /\ (length listing <= 300)%nat
  /\ (q <> [] -> Forall (fun a => matches toLowerCase q a = true) listing)
  /\ ((length index <= 300)%nat ->
      forall a, In a index -> (q = [] \/ matches toLowerCase q a = true) ->
                In a listing).
Proof.
  cbv zeta. rewrite CatalogFacts.getVideos_listing.
  set (index := (build now library st).1). set (q := query_text toLowerCase qparam).
  unfold search.
  set (results := match q with [] => index | _ => List.filter (matches toLowerCase q) index end).
  assert (sublist results index) as Hsub
    by (subst results; destruct q; [reflexivity | apply sublist_filter_bool]).
  split; [|split; [|split]].
  - transitivity results; [apply sublist_take | exact Hsub].
  - rewrite length_take. lia.
  - intros Hq. apply Forall_take.
    subst results. destruct q as [|c q']; [contradiction|].
    apply List.Forall_forall. intros a Ha. apply List.filter_In in Ha as [_ Ha]. exact Ha.
  - intros Hlen a Ha Hmatch.
    rewrite take_ge by (apply sublist_length in Hsub; lia).
    subst results. destruct q as [|c q']; [exact Ha|].
    apply List.filter_In. split; [exact Ha|].
    destruct Hmatch as [Hq | Hm]; [discriminate | exact Hm].
Qed.

End Cache.

End LibraryFacts.

(* ===================================================================== *)
(** * The orchestrator over whole runs, and the ends of the children *)
(* ===================================================================== *)

Module OrchestratorFacts.
Import JsString Codec Path Server Examples Scenarios ServerFacts.

Ltac turn_simpl :=
  repeat first
    [ progress cbn [jobs update_job set_jobs set_runningHls set_runningThumb disk
                    fst snd fmap option_fmap option_map set_waitM3U8 set_released
                    set_promise released outM3u8 promise waitM3U8 job_id negb andb
                    hlsJobs requests children runningHls runningThumb
                    set_requests set_hlsJobs set_children set_status set_disk]
    | rewrite list_lookup_alter_eq
    | match goal with
      | H : jobs _ !! _ = Some _ |- _ => rewrite H
      | H : promise _ = _ |- _ => rewrite H
      | H : released _ = _ |- _ => rewrite H
      | H : waitM3U8 _ = _ |- _ => rewrite H
      | H : existsSync _ _ = _ |- _ => rewrite H
      end ].

Section Runs.

Variable cfg : config.
Variable resolveVideoPathById : jsstring -> jsstring.
Variable mkdirSync_throws : gset jsstring -> jsstring -> bool.

Local Abbreviation getManifest := (getManifest cfg resolveVideoPathById mkdirSync_throws).
Local Abbreviation step := (step cfg resolveVideoPathById mkdirSync_throws).
Local Abbreviation run := (run cfg resolveVideoPathById mkdirSync_throws).
Local Abbreviation reachable := (reachable cfg resolveVideoPathById mkdirSync_throws).

(** X17.  In every state the server can reach, neither counter exceeds its
    capacity: [runningHls] is at most [MAX_HLS] and [runningThumb] at most
    [MAX_THUMB].  This bounds the counters, not the children that run: a
    counter lowered twice for one child counts too few. *)
Theorem counters_stay_within_capacity s :
  reachable s -> runningHls s <= MAX_HLS /\ runningThumb s <= MAX_THUMB.
Proof.
  intros (files & es & Hrun).
  refine (run_invariant cfg resolveVideoPathById mkdirSync_throws
            (fun s => runningHls s <= MAX_HLS /\ runningThumb s <= MAX_THUMB)
            _ es _ s _ Hrun).
  - intros s0 e s1 [Hh Ht] Hstep.
    destruct (step_gate cfg resolveVideoPathById mkdirSync_throws s0 e s1 Hstep)
      as [[?|[? ?]] [?|[? ?]]]; lia.
  - cbn. unfold MAX_HLS, MAX_THUMB. lia.
Qed.

(** X18.  In every reachable state the registry holds exactly the pending
    jobs: an id is mapped to a job exactly when that job exists, is still
    pending and was started for this id.  A settled job is in the registry
    under no id. *)
Theorem registry_holds_exactly_the_pending_jobs s :
  reachable s ->
  forall id j,
    hlsJobs s !! id = Some j <->
    exists jb, jobs s !! j = Some jb /\ promise jb = Pending /\ job_id jb = id.
Proof.
  intros Hreach id j.
  destruct (registry_inv_reachable cfg resolveVideoPathById mkdirSync_throws s Hreach)
    as [Inv1 Inv2].
  split; [apply Inv1|]. intros (jb & Hj & Hp & <-). exact (Inv2 j jb Hj Hp).
Qed.

(** X19.  In every reachable state, two encoder children of pending jobs
    that were started for the same id string are one child of one job.
    Jobs that are settled, and jobs for different spellings of one id, are
    not covered. *)
Theorem one_encoder_per_asset s pid1 pid2 c1 c2 j1 j2 jb1 jb2 :
  reachable s ->
  children s !! pid1 = Some c1 -> child_owner c1 = JobEncoder j1 ->
  children s !! pid2 = Some c2 -> child_owner c2 = JobEncoder j2 ->
  jobs s !! j1 = Some jb1 -> promise jb1 = Pending ->
  jobs s !! j2 = Some jb2 -> promise jb2 = Pending ->
  job_id jb1 = job_id jb2 ->
  pid1 = pid2 /\ j1 = j2.
Proof.
  intros Hreach H1 Ho1 H2 Ho2 Hj1 Hp1 Hj2 Hp2 Hid. split.
  - exact (one_encoder_per_outstanding_id cfg resolveVideoPathById mkdirSync_throws
             s pid1 pid2 c1 c2 j1 j2 jb1 jb2 Hreach H1 Ho1 H2 Ho2 Hj1 Hp1 Hj2 Hp2 Hid).
  - exact (pending_jobs_have_distinct_ids cfg resolveVideoPathById mkdirSync_throws
             s j1 j2 jb1 jb2 Hreach Hj1 Hj2 Hp1 Hp2 Hid).
Qed.

(** X20.  In every reachable state, while a codec probe of a job runs the
    job has no encoder child: the encoder is started only after both
    probes have ended. *)
Theorem encoder_starts_after_the_probes s pid c j video :
  reachable s ->
  children s !! pid = Some c -> child_owner c = JobProbe j video ->
  child_status_of c = Running ->
  forall pid' c', children s !! pid' = Some c' -> child_owner c' <> JobEncoder j.
Proof.
  intros Hreach Hc Ho Hst pid' c' Hc'.
  destruct (children_inv_reachable cfg resolveVideoPathById mkdirSync_throws s Hreach)
    as (_ & _ & K3 & K4).
  destruct video.
  - exact (proj2 (K3 pid c j Hc Ho Hst pid' c' Hc')).
  - exact (K4 pid c j Hc Ho Hst pid' c' Hc').
Qed.

(** X21.  A request takes a slot exactly when it spawns.  A manifest
    request leaves children and counter alone, or else, the counter being
    below [MAX_HLS], the id unregistered and no manifest cached, it raises
    the counter by one and spawns one video probe for the job it creates.
    A thumbnail request leaves children and counter alone, or else, the
    counter being below [MAX_THUMB], the video found and no thumbnail
    cached, it raises the counter by one and spawns one duration probe. *)
Theorem a_slot_is_taken_exactly_when_a_probe_is_spawned s id :
  (let s' := getManifest id s in
   (children s' = children s /\ runningHls s' = runningHls s)
   \/ (runningHls s < MAX_HLS
       /\ runningHls s' = runningHls s + 1
       /\ children s' = children s ++ [Child FFPROBE (JobProbe (length (jobs s)) true) Running]
       /\ hlsJobs s !! id = None
       /\ manifest_cached cfg id s = false))
  /\ (let s' := getThumb cfg id s in
      (children s' = children s /\ runningThumb s' = runningThumb s)
      \/ (runningThumb s < MAX_THUMB
          /\ runningThumb s' = runningThumb s + 1
          /\ children s' = children s ++ [Child FFPROBE (ThumbProbe (length (requests s))) Running]
          /\ is_Some (absFromId cfg (disk s) id)
          /\ existsSync (disk s) (path_join [THUMB_DIR cfg; id ++ js ".jpg"]) = false)).
Proof.
  cbv zeta. split.
  - unfold Server.getManifest, ensureHls.
    destruct (hlsJobs s !! id); [left; split; reflexivity|].
    unfold manifest_cached, m3u8Path_of, executor_start.
    destruct (ensureDir _ _ _) as [d|] eqn:Hdir; [|left; split; reflexivity].
    apply ensureDir_Some in Hdir as ->. cbn [disk set_disk runningHls].
    destruct (existsSync _ _); [left; split; reflexivity|].
    destruct (Z.leb_spec MAX_HLS (runningHls s)); [left; split; reflexivity|].
    right. repeat split. exact H.
  - unfold getThumb.
    destruct (absFromId cfg (disk s) id) as [abs|]; [|left; split; reflexivity].
    destruct (existsSync _ _); [left; split; reflexivity|].
    destruct (Z.leb_spec MAX_THUMB (runningThumb s)); [left; split; reflexivity|].
    right. repeat split; [exact H | eauto].
Qed.


(** X22.  Early release: when the 200 ms interval of a pending job finds
    the manifest on disk, the job is fulfilled as ready and streaming, the
    requests waiting for it go on to poll for the manifest, the id leaves
    the registry and the interval is cleared, while the encoder keeps
    running and keeps its slot. *)
Theorem manifest_releases_the_players_early s j jb rid id :
  jobs s !! j = Some jb -> promise jb = Pending -> released jb = false ->
  waitM3U8 jb = true -> existsSync (disk s) (outM3u8 jb) = true ->
  requests s !! rid = Some (AwaitJob id j) ->
  exists s',
    step s (IntervalTick j) = Some s'
    /\ promise <$> jobs s' !! j = Some (Fulfilled (Ready (outM3u8 jb) true))
    /\ requests s' !! rid = Some (PollManifest (m3u8Path_of cfg id))
    /\ hlsJobs s' = delete (job_id jb) (hlsJobs s)
    /\ children s' = children s
    /\ runningHls s' = runningHls s
    /\ step s' (IntervalTick j) = None.
Proof.
  intros Hjob Hp Hr Hw Hdisk Hreq.
  eexists. cbn [Server.step]. rewrite Hjob, Hw. split; [reflexivity|].
  unfold waitM3U8_tick, settle, Server.drain. turn_simpl.
  split; [reflexivity|]. split; [|split; [reflexivity|split; [reflexivity|split; reflexivity]]].
  rewrite list_lookup_fmap, Hreq. cbn [fmap option_fmap option_map].
  unfold Server.resume. turn_simpl. reflexivity.
Qed.


Lemma getManifest_new_job s id :
  hlsJobs s !! id = None ->
  exists jb, jobs (getManifest id s) = jobs s ++ [jb] /\ job_id jb = id.
Proof.
  intros Hreg. unfold Server.getManifest, ensureHls. rewrite Hreg.
  unfold executor_start.
  destruct (ensureDir _ _ _) as [d|]; [|eexists; split; reflexivity].
  cbn [disk set_disk runningHls].
  destruct (existsSync _ _); [eexists; split; reflexivity|].
  destruct (MAX_HLS <=? runningHls s); eexists; split; reflexivity.
Qed.

(** X23.  When the encoder of a pending job that was not released ends
    with the manifest on disk or with a non-zero exit code, the job is
    settled, the slot is given back, the id leaves the registry, the
    interval is cleared and the child emits nothing more; the next
    manifest request for the id starts a job of its own. *)
Theorem settlement_frees_the_slot_and_the_id s pid cmd j jb code :
  children s !! pid = Some (Child cmd (JobEncoder j) Running) ->
  jobs s !! j = Some jb -> promise jb = Pending -> released jb = false ->
  existsSync (disk s) (outM3u8 jb) = true \/ code <> 0 ->
  exists closed,
    step s (ChildClose pid code) = Some closed
    /\ (exists p, promise <$> jobs closed !! j = Some p /\ p <> Pending)
    /\ runningHls closed = runningHls s - 1
    /\ hlsJobs closed = delete (job_id jb) (hlsJobs s)
    /\ step closed (IntervalTick j) = None
    /\ step closed (ChildClose pid code) = None
    /\ exists fresh,
         jobs (getManifest (job_id jb) closed) = jobs closed ++ [fresh]
         /\ job_id fresh = job_id jb.
Proof.
  intros Hchild Hjob Hp Hr Hsettles.
  eexists. split.
  { cbn [Server.step]. unfold on_close. rewrite Hchild. reflexivity. }
  assert (forall t : server,
            hlsJobs t = delete (job_id jb) (hlsJobs s) ->
            exists fresh,
              jobs (getManifest (job_id jb) t) = jobs t ++ [fresh]
              /\ job_id fresh = job_id jb) as Hfresh.
  { intros t Ht. apply getManifest_new_job. rewrite Ht. apply lookup_delete_eq. }
  assert (forall t : server,
            children t = alter (set_child_status Closed) pid (children s) ->
            step t (ChildClose pid code) = None) as Hdone.
  { intros t Ht. cbn [Server.step]. unfold on_close.
    rewrite Ht, list_lookup_alter_eq, Hchild. reflexivity. }
  unfold encoder_close, settle, is_released, Server.drain.
  destruct (existsSync (disk s) (outM3u8 jb)) eqn:Hdisk.
  - turn_simpl. rewrite andb_false_r. turn_simpl.
    split; [eexists; split; [reflexivity | discriminate]|].
    split; [reflexivity|]. split; [reflexivity|].
    split; [cbn [Server.step]; turn_simpl; reflexivity|].
    split; [apply Hdone; reflexivity | apply Hfresh; reflexivity].
  - destruct Hsettles as [? | Hcode]; [discriminate|].
    turn_simpl. destruct (Z.eqb_spec code 0); [contradiction|]. turn_simpl.
    split; [eexists; split; [reflexivity | discriminate]|].
    split; [reflexivity|]. split; [reflexivity|].
    split; [cbn [Server.step]; turn_simpl; reflexivity|].
    split; [apply Hdone; reflexivity | apply Hfresh; reflexivity].
Qed.

(** X24.  A job that was released keeps its result: when its encoder ends
    or fails afterwards, whatever the exit code, the promise stays as it
    is and the registry is not touched; only the slot is given back. *)
Theorem released_job_is_not_revoked s pid cmd j jb code :
  children s !! pid = Some (Child cmd (JobEncoder j) Running) ->
  jobs s !! j = Some jb -> released jb = true ->
  exists closed failed,
    step s (ChildClose pid code) = Some closed
    /\ step s (ChildError pid) = Some failed
    /\ promise <$> jobs closed !! j = Some (promise jb)
    /\ promise <$> jobs failed !! j = Some (promise jb)
    /\ hlsJobs closed = hlsJobs s /\ hlsJobs failed = hlsJobs s
    /\ runningHls closed = runningHls s - 1
    /\ runningHls failed = runningHls s - 1.
Proof.
  intros Hchild Hjob Hr.
  eexists _, _. cbn [Server.step]. unfold on_close, on_error. rewrite Hchild.
  split; [reflexivity|]. split; [reflexivity|].
  unfold encoder_close, encoder_error, settle, is_released, Server.drain.
  turn_simpl. rewrite andb_false_r. turn_simpl.
  repeat split; reflexivity.
Qed.

(** X25.  The end of a thumbnail encoder: on ['close'] the request is
    answered with the thumbnail when the exit code is zero and the file
    exists, with 500 otherwise; on ['error'] it is answered with 500; in
    both cases the thumbnail slot is given back and the encode counter is
    left alone. *)
Theorem thumbnail_outcome s pid cmd rid outJpg code :
  children s !! pid = Some (Child cmd (ThumbEncoder rid) Running) ->
  requests s !! rid = Some (ThumbWait outJpg) ->
  exists closed failed,
    step s (ChildClose pid code) = Some closed
    /\ step s (ChildError pid) = Some failed
    /\ requests closed !! rid
       = Some (Answered
                 (if (code =? 0) && existsSync (disk s) outJpg
                  then Response 200 (FileStream outJpg (js "image/jpeg"))
                  else Response 500 (Text (js "thumb failed"))))
    /\ requests failed !! rid
       = Some (Answered (Response 500 (Text (js "thumb failed"))))
    /\ runningThumb closed = runningThumb s - 1
    /\ runningThumb failed = runningThumb s - 1
    /\ runningHls closed = runningHls s /\ runningHls failed = runningHls s.
Proof.
  intros Hchild Hreq.
  eexists _, _. cbn [Server.step]. unfold on_close, on_error. rewrite Hchild.
  split; [reflexivity|]. split; [reflexivity|].
  unfold thumb_close, thumb_error, answer. turn_simpl. rewrite Hreq. turn_simpl.
  assert (rid < length (requests s))%nat as Hlt by (apply lookup_lt_Some in Hreq; exact Hreq).
  rewrite !list_lookup_insert_eq by exact Hlt.
  split; [|repeat split; reflexivity].
  destruct ((code =? 0) && existsSync (disk s) outJpg); reflexivity.
Qed.


(** X26.  A codec probe that cannot be started does not fail its job: on
    ['error'] the executor goes on exactly as after ['close'], with the
    audio probe after the video probe and with the encoder after the audio
    probe; the job stays as it was, no request is answered, the counter is
    unchanged, and the ['close'] that follows ['error'] starts nothing
    more. *)
Theorem probe_failure_is_not_fatal s pid cmd j video jb code :
  children s !! pid = Some (Child cmd (JobProbe j video) Running) ->
  jobs s !! j = Some jb ->
  let next :=
    if video then Child FFPROBE (JobProbe j false) Running
    else Child FFMPEG (JobEncoder j) Running in
  exists failed closed again,
    step s (ChildError pid) = Some failed
    /\ step s (ChildClose pid code) = Some closed
    /\ step failed (ChildClose pid code) = Some again
    /\ children failed = alter (set_child_status Failed) pid (children s) ++ [next]
    /\ children closed = alter (set_child_status Closed) pid (children s) ++ [next]
    /\ children again = alter (set_child_status Closed) pid (children failed)
    /\ jobs failed = jobs closed /\ jobs again = jobs failed
    /\ promise <$> jobs failed !! j = Some (promise jb)
    /\ requests failed = requests s /\ requests closed = requests s
    /\ runningHls failed = runningHls s /\ runningHls closed = runningHls s
    /\ runningHls again = runningHls s.
Proof.
  intros Hchild Hjob. cbv zeta.
  assert (pid < length (children s))%nat as Hlt
    by (apply lookup_lt_Some in Hchild; exact Hchild).
  destruct video; eexists _, _, _; cbn [Server.step]; unfold on_close at 1, on_error;
    rewrite Hchild; (split; [reflexivity|]); (split; [reflexivity|]);
    unfold on_close, executor_after_vprobe, executor_after_aprobe, spawn; turn_simpl;
    rewrite lookup_app_l by (rewrite length_alter; exact Hlt);
    rewrite list_lookup_alter_eq, Hchild;
    cbn [fmap option_fmap option_map set_child_status];
    (split; [reflexivity|]); turn_simpl; repeat split; reflexivity.
Qed.

End Runs.

(** ** The states of the examples *)

Local Abbreviation cfg0 := example_config.
Local Abbreviation reachable0 := (reachable example_config example_resolve example_throws).
Local Abbreviation step0 := (step example_config example_resolve example_throws).

Lemma encoding_state_reachable : reachable0 encoding_state.
Proof. exists (∅ : gset jsstring), until_encoding. vm_compute. reflexivity. Qed.

Lemma probing_state_reachable : reachable0 probing_state.
Proof. exists (∅ : gset jsstring), [GetManifest example_id]. vm_compute. reflexivity. Qed.

Lemma counters_stay_within_capacity_witness :
  reachable0 encoding_state
  /\ runningHls encoding_state <= MAX_HLS /\ runningThumb encoding_state <= MAX_THUMB.
Proof.
  split; [exact encoding_state_reachable|].
  apply (counters_stay_within_capacity cfg0 example_resolve example_throws encoding_state).
  exact encoding_state_reachable.
Defined.

Lemma registry_holds_exactly_the_pending_jobs_witness :
  reachable0 encoding_state
  /\ hlsJobs encoding_state !! example_id = Some 0%nat
  /\ exists jb, jobs encoding_state !! 0%nat = Some jb
                /\ promise jb = Pending /\ job_id jb = example_id.
Proof.
  split; [exact encoding_state_reachable|].
  assert (hlsJobs encoding_state !! example_id = Some 0%nat) as H
    by (vm_compute; reflexivity).
  split; [exact H|].
  apply (registry_holds_exactly_the_pending_jobs cfg0 example_resolve example_throws encoding_state
           encoding_state_reachable example_id 0%nat).
  exact H.
Defined.

Lemma one_encoder_per_asset_witness :
  reachable0 encoding_state
  /\ children encoding_state !! 2%nat = Some (Child FFMPEG (JobEncoder 0) Running)
  /\ (2 = 2 /\ 0 = 0)%nat.
Proof.
  split; [exact encoding_state_reachable|]. split; [vm_compute; reflexivity|].
  apply (one_encoder_per_asset cfg0 example_resolve example_throws encoding_state 2 2
           (Child FFMPEG (JobEncoder 0) Running) (Child FFMPEG (JobEncoder 0) Running)
           0 0 encoding_job encoding_job encoding_state_reachable);
    first [reflexivity | vm_compute; reflexivity].
Defined.

Lemma encoder_starts_after_the_probes_witness :
  reachable0 probing_state
  /\ children probing_state !! 0%nat = Some (Child FFPROBE (JobProbe 0 true) Running)
  /\ forall pid c, children probing_state !! pid = Some c ->
                  child_owner c <> JobEncoder 0.
Proof.
  split; [exact probing_state_reachable|]. split; [vm_compute; reflexivity|].
  apply (encoder_starts_after_the_probes cfg0 example_resolve example_throws probing_state 0
           (Child FFPROBE (JobProbe 0 true) Running) 0 true probing_state_reachable);
    first [reflexivity | vm_compute; reflexivity].
Defined.

Lemma manifest_releases_the_players_early_witness :
  existsSync (disk streaming_state) (outM3u8 encoding_job) = true
  /\ exists s',
       step0 streaming_state (IntervalTick 0) = Some s'
       /\ promise <$> jobs s' !! 0%nat
          = Some (Fulfilled (Ready (outM3u8 encoding_job) true))
       /\ requests s' !! 0%nat = Some (PollManifest example_manifest).
Proof.
  split; [vm_compute; reflexivity|].
  destruct (manifest_releases_the_players_early cfg0 example_resolve example_throws streaming_state
              0 encoding_job 0 example_id)
    as (s' & Hstep & Hp & Hr & _).
  - vm_compute. reflexivity.
  - reflexivity.
  - reflexivity.
  - reflexivity.
  - vm_compute. reflexivity.
  - vm_compute. reflexivity.
  - exists s'. split; [exact Hstep|]. split; [exact Hp | exact Hr].
Defined.

Lemma settlement_frees_the_slot_and_the_id_witness :
  children encoding_state !! 2%nat = Some (Child FFMPEG (JobEncoder 0) Running)
  /\ exists closed,
       step0 encoding_state (ChildClose 2 1) = Some closed
       /\ runningHls closed = runningHls encoding_state - 1
       /\ hlsJobs closed = delete (job_id encoding_job) (hlsJobs encoding_state).
Proof.
  split; [vm_compute; reflexivity|].
  destruct (settlement_frees_the_slot_and_the_id cfg0 example_resolve example_throws encoding_state
              2 FFMPEG 0 encoding_job 1)
    as (closed & Hstep & _ & Hslot & Hreg & _).
  - vm_compute. reflexivity.
  - vm_compute. reflexivity.
  - reflexivity.
  - reflexivity.
  - right. discriminate.
  - exists closed. split; [exact Hstep|]. split; [exact Hslot | exact Hreg].
Defined.

Lemma released_job_is_not_revoked_witness :
  jobs released_state !! 0%nat = Some released_job
  /\ released released_job = true
  /\ exists closed,
       step0 released_state (ChildClose 2 1) = Some closed
       /\ promise <$> jobs closed !! 0%nat = Some (promise released_job).
Proof.
  split; [vm_compute; reflexivity|]. split; [reflexivity|].
  destruct (released_job_is_not_revoked cfg0 example_resolve example_throws released_state
              2 FFMPEG 0 released_job 1)
    as (closed & failed & Hstep & _ & Hp & _).
  - vm_compute. reflexivity.
  - vm_compute. reflexivity.
  - reflexivity.
  - exists closed. split; [exact Hstep | exact Hp].
Defined.

Lemma thumbnail_outcome_witness :
  children thumb_encoding_state !! 1%nat = Some (Child FFMPEG (ThumbEncoder 0) Running)
  /\ requests thumb_encoding_state !! 0%nat = Some (ThumbWait example_thumb)
  /\ exists closed,
       step0 thumb_encoding_state (ChildClose 1 0) = Some closed
       /\ requests closed !! 0%nat
          = Some (Answered (Response 500 (Text (js "thumb failed"))))
       /\ runningThumb closed = runningThumb thumb_encoding_state - 1.
Proof.
  split; [vm_compute; reflexivity|]. split; [vm_compute; reflexivity|].
  destruct (thumbnail_outcome cfg0 example_resolve example_throws thumb_encoding_state
              1 FFMPEG 0 example_thumb 0)
    as (closed & failed & Hstep & _ & Hr & _ & Hslot & _).
  - vm_compute. reflexivity.
  - vm_compute. reflexivity.
  - exists closed. split; [exact Hstep|]. split; [|exact Hslot].
    rewrite Hr. vm_compute. reflexivity.
Defined.

Lemma probe_failure_is_not_fatal_witness :
  children probing_state !! 0%nat = Some (Child FFPROBE (JobProbe 0 true) Running)
  /\ exists failed closed,
       step0 probing_state (ChildError 0) = Some failed
       /\ step0 probing_state (ChildClose 0 0) = Some closed
       /\ jobs failed = jobs closed
       /\ promise <$> jobs failed !! 0%nat = Some Pending.
Proof.
  split; [vm_compute; reflexivity|].
  destruct (probe_failure_is_not_fatal cfg0 example_resolve example_throws probing_state
              0 FFPROBE 0 true probing_job 0)
    as (failed & closed & again & Hf & Hc & _ & _ & _ & _ & Hj & _ & Hp & _).
  - vm_compute. reflexivity.
  - vm_compute. reflexivity.
  - exists failed, closed. split; [exact Hf|]. split; [exact Hc|].
    split; [exact Hj | exact Hp].
Defined.

End OrchestratorFacts.

(* ===================================================================== *)
(** * The seek position of the thumbnail *)
(* ===================================================================== *)

Module ThumbnailFacts.
Import JsString Thumbnail.

Lemma digits_value_snoc s c : digits_value (s ++ [c]) = digits_value s * 10 + (c - 48).
Proof. unfold digits_value. rewrite fold_left_app. reflexivity. Qed.

Lemma decimal_digits_spec f n :
  0 <= n < 2 ^ Z.of_nat (S f) ->
  let s := decimal_digits (S f) n in
  Forall is_digit s /\ digits_value s = n
  /\ (1 <= length s)%nat
  /\ (n < 10 -> length s = 1%nat) /\ (n < 100 -> (length s <= 2)%nat).
Proof.
  revert n. induction f as [|f IH]; intros n Hn; cbv zeta.
  - change (2 ^ Z.of_nat 1) with 2 in Hn. cbn [decimal_digits].
    destruct (Z.ltb_spec n 10); [|lia]. cbn [app length].
    assert (n mod 10 = n) as -> by (apply Z.mod_small; lia).
    repeat split; try lia.
    + apply Forall_singleton. unfold is_digit. lia.
    + unfold digits_value. cbn. lia.
  - rewrite Nat2Z.inj_succ, Z.pow_succ_r in Hn by lia.
    change (decimal_digits (S (S f)) n)
      with ((if n <? 10 then [] else decimal_digits (S f) (n / 10)) ++ [48 + n mod 10]).
    destruct (Z.ltb_spec n 10).
    + cbn [app length].
      assert (n mod 10 = n) as -> by (apply Z.mod_small; lia).
      repeat split; try lia.
      * apply Forall_singleton. unfold is_digit. lia.
      * unfold digits_value. cbn. lia.
    + destruct (IH (n / 10)) as (Hd & Hv & Hl & H1 & H2).
      { split; [apply Z.div_pos; lia|]. apply Z.div_lt_upper_bound; lia. }
      rewrite digits_value_snoc, Hv, length_app. cbn [length].
      split; [|split; [|split; [|split]]].
      * apply Forall_app. split; [exact Hd|]. apply Forall_singleton. unfold is_digit.
        pose proof (Z.mod_pos_bound n 10). lia.
      * pose proof (Z.div_mod n 10). lia.
      * lia.
      * lia.
      * intros Hlt. rewrite H1; [lia|]. apply Z.div_lt_upper_bound; lia.
Qed.

Lemma String_of_int_spec n :
  0 <= n ->
  Forall is_digit (String_of_int n) /\ digits_value (String_of_int n) = n
  /\ (1 <= length (String_of_int n))%nat
  /\ (n < 100 -> (length (String_of_int n) <= 2)%nat).
Proof.
  intros Hn. unfold String_of_int.
  destruct (decimal_digits_spec (Z.to_nat (Z.log2 n)) n) as (Hd & Hv & Hl & _ & H2).
  - split; [exact Hn|]. rewrite Nat2Z.inj_succ, Z2Nat.id by apply Z.log2_nonneg.
    destruct (Z.eq_dec n 0) as [-> | Hne]; [reflexivity|].
    apply Z.log2_spec. lia.
  - auto.
Qed.

Lemma digits_value_zeros k s :
  digits_value (replicate k 48 ++ s) = digits_value s.
Proof.
  unfold digits_value. rewrite fold_left_app. f_equal.
  induction k as [|k IH]; [reflexivity|]. cbn [replicate fold_left].
  change (0 * 10 + (48 - 48)) with 0. exact IH.
Qed.

Lemma padStart2_spec s :
  Forall is_digit s ->
  Forall is_digit (padStart2 s) /\ digits_value (padStart2 s) = digits_value s
  /\ length (padStart2 s) = Nat.max 2 (length s).
Proof.
  intros Hs. unfold padStart2. split; [|split].
  - apply Forall_app. split; [|exact Hs]. apply Forall_replicate. unfold is_digit. lia.
  - apply digits_value_zeros.
  - rewrite length_app, length_replicate. lia.
Qed.

(** X27.  For a second [t] from 0 to [Number.MAX_SAFE_INTEGER], the seek
    position handed to the thumbnail encoder denotes [t]: it reads hours,
    minutes and seconds, each written in decimal digits and separated by
    colons, minutes and seconds with exactly two digits and below 60, hours
    with at least two digits, and hours * 3600 + minutes * 60 + seconds is
    [t].  Below 100 hours the text is eight characters long. *)
Theorem seek_position_denotes_t (t : Z) :
  0 <= t <= MAX_SAFE_INTEGER ->
  exists hh mm ss,
    seek_position t = Some (hh ++ [CHAR_COLON] ++ mm ++ [CHAR_COLON] ++ ss)
    /\ Forall is_digit hh /\ Forall is_digit mm /\ Forall is_digit ss
    /\ (2 <= length hh)%nat /\ length mm = 2%nat /\ length ss = 2%nat
    /\ digits_value mm < 60 /\ digits_value ss < 60
    /\ digits_value hh * 3600 + digits_value mm * 60 + digits_value ss = t
    /\ (t < 360000 ->
        length (hh ++ [CHAR_COLON] ++ mm ++ [CHAR_COLON] ++ ss) = 8%nat).
Proof.
  intros [Ht Hmax]. unfold seek_position.
  destruct (Z.leb_spec 0 t); [|lia].
  destruct (Z.leb_spec t MAX_SAFE_INTEGER); [|lia]. cbn [andb]. cbv zeta.
  pose proof (Z.div_mod t 3600 ltac:(lia)) as Hdm.
  pose proof (Z.mod_pos_bound t 3600 ltac:(lia)) as Hm.
  pose proof (Z.div_mod (t mod 3600) 60 ltac:(lia)) as Hdm2.
  pose proof (Z.mod_pos_bound (t mod 3600) 60 ltac:(lia)) as Hm2.
  assert (t mod 60 = (t mod 3600) mod 60) as Hmod60.
  { rewrite <- (Z.mod_mod_divide t 3600 60) by (exists 60; reflexivity). reflexivity. }
  assert (0 <= t / 3600) as Hh by (apply Z.div_pos; lia).
  assert (0 <= (t mod 3600) / 60 < 60) as Hmm
    by (split; [apply Z.div_pos; lia | apply Z.div_lt_upper_bound; lia]).
  assert (0 <= t mod 60 < 60) as Hss by (apply Z.mod_pos_bound; lia).
  destruct (String_of_int_spec (t / 3600) Hh) as (Hd1 & Hv1 & Hl1 & Hs1).
  destruct (String_of_int_spec ((t mod 3600) / 60) (proj1 Hmm)) as (Hd2 & Hv2 & Hl2 & Hs2).
  destruct (String_of_int_spec (t mod 60) (proj1 Hss)) as (Hd3 & Hv3 & Hl3 & Hs3).
  destruct (padStart2_spec _ Hd1) as (Hp1 & Hw1 & Hn1).
  destruct (padStart2_spec _ Hd2) as (Hp2 & Hw2 & Hn2).
  destruct (padStart2_spec _ Hd3) as (Hp3 & Hw3 & Hn3).
  specialize (Hs2 ltac:(lia)). specialize (Hs3 ltac:(lia)).
  eexists _, _, _. split; [reflexivity|].
  split; [exact Hp1|]. split; [exact Hp2|]. split; [exact Hp3|].
  split; [lia|]. split; [lia|]. split; [lia|].
  rewrite Hw1, Hw2, Hw3, Hv1, Hv2, Hv3.
  split; [lia|]. split; [lia|]. split; [lia|].
  intros Hlt. rewrite !length_app. cbn [length].
  assert (t / 3600 < 100) as Hlt' by (apply Z.div_lt_upper_bound; lia).
  specialize (Hs1 Hlt'). lia.
Qed.

Lemma seek_position_denotes_t_witness :
  0 <= 754 <= MAX_SAFE_INTEGER
  /\ seek_position 754 = Some (js "00:12:34")
  /\ exists hh mm ss,
       seek_position 754 = Some (hh ++ [CHAR_COLON] ++ mm ++ [CHAR_COLON] ++ ss)
       /\ digits_value hh * 3600 + digits_value mm * 60 + digits_value ss = 754.
Proof.
  split; [unfold MAX_SAFE_INTEGER; lia|]. split; [vm_compute; reflexivity|].
  destruct (seek_position_denotes_t 754 ltac:(unfold MAX_SAFE_INTEGER; lia))
    as (hh & mm & ss & Hs & _ & _ & _ & _ & _ & _ & _ & _ & Hv & _).
  exists hh, mm, ss. split; [exact Hs | exact Hv].
Defined.

(** At the upper end of the range the hours take thirteen digits. *)
Example seek_position_of_the_largest_safe_integer :
  seek_position MAX_SAFE_INTEGER = Some (js "2501999792983:36:31")
  /\ seek_position (MAX_SAFE_INTEGER + 1) = None
  /\ seek_position (-1) = None.
Proof. repeat split; vm_compute; reflexivity. Qed.

End ThumbnailFacts.

(* ===================================================================== *)
(** * The folder view *)
(* ===================================================================== *)

Module BrowseFacts.
Import JsString Codec Path Catalog Library Browse Examples Scenarios.
Import PathFacts ResolveFacts LibraryFacts.

(** ** [path.join] of relative paths *)

Lemma path_normalize_relative p :
  isAbsolute p = false -> endsWith p [CHAR_FORWARD_SLASH] = false ->
  normalizeString p true <> [] ->
  path_normalize p = normalizeString p true.
Proof.
  intros Habs Htrail Hne. destruct p as [|c p]; [contradiction Hne; reflexivity|].
  unfold path_normalize. cbv zeta. rewrite Habs, Htrail. cbn [negb].
  destruct (normalizeString (c :: p) true); [contradiction | reflexivity].
Qed.

Lemma join_is_relative ps : Forall plain ps -> isAbsolute (join_slash ps) = false.
Proof.
  intros Hps. destruct Hps as [|p ps Hp _]; [reflexivity|].
  destruct (plain_join_relative p ps Hp) as (c & t & -> & Hc). cbn [isAbsolute].
  destruct (Z.eqb_spec c CHAR_FORWARD_SLASH); [contradiction | reflexivity].
Qed.

Lemma normalize_joined b ps :
  Forall plain ps -> normalizeString (join_slash ps) b = join_slash ps.
Proof.
  intros Hps. unfold normalizeString, normalize_segments.
  rewrite fold_join, app_nil_r, rev_involutive by exact Hps. reflexivity.
Qed.

(** [path.join] of a normalized relative directory and a plain name. *)
Lemma join_relative ds name :
  Forall plain ds -> plain name ->
  path_join [join_slash ds; name] = join_slash (ds ++ [name]).
Proof.
  intros Hds Hname.
  assert (Forall plain (ds ++ [name])) as Hall
    by (apply Forall_app; split; [exact Hds | apply Forall_singleton; exact Hname]).
  assert (join_slash (List.filter (fun a => negb (str_eqb a []))
                        [join_slash ds; name])
          = join_slash (ds ++ [name])) as Hjoined.
  { cbn [List.filter]. rewrite (str_eqb_neq name [] (proj1 Hname)). cbn [negb].
    destruct ds as [|d ds]; [reflexivity|].
    rewrite (str_eqb_neq (join_slash (d :: ds)) [])
      by (apply join_nonempty; [discriminate | exact Hds]).
    cbn [negb]. rewrite join_slash_app by discriminate. reflexivity. }
  unfold path_join. rewrite Hjoined.
  rewrite path_normalize_relative; rewrite ?normalize_joined by exact Hall.
  - reflexivity.
  - apply join_is_relative. exact Hall.
  - rewrite <- (app_nil_l (join_slash (ds ++ [name]))).
    apply no_trailing_slash; [destruct ds; discriminate | exact Hall].
  - apply join_nonempty; [destruct ds; discriminate | exact Hall].
Qed.

Lemma strip_relative s : isAbsolute s = false -> strip_leading_slashes s = s.
Proof. destruct s as [|c s]; [reflexivity|]. cbn. intros ->. reflexivity. Qed.

Lemma removelast_snoc {A} (l : list A) x : removelast (l ++ [x]) = l.
Proof. rewrite removelast_app by discriminate. cbn. apply app_nil_r. Qed.

(** Going down into a folder and up again leads back. *)
Lemma parent_of_child ds name :
  Forall plain ds -> plain name ->
  browse_parent (join_slash (ds ++ [name])) = Some (join_slash ds).
Proof.
  intros Hds Hname.
  assert (Forall plain (ds ++ [name])) as Hall
    by (apply Forall_app; split; [exact Hds | apply Forall_singleton; exact Hname]).
  unfold browse_parent.
  destruct (join_slash (ds ++ [name])) eqn:E.
  - exfalso. revert E. apply join_nonempty; [destruct ds; discriminate | exact Hall].
  - rewrite <- E, split_join, removelast_snoc;
      [reflexivity | apply plain_slashfree; exact Hall | destruct ds; discriminate].
Qed.

(** ** The entries of a listing *)

Lemma tidy_names_join ps :
  Forall tidy_name ps ->
  Forall plain ps /\ Forall (Forall (fun c => c <> CHAR_BACKWARD_SLASH)) ps.
Proof.
  intros H. split; apply (Forall_impl _ _ _ H); intros p [Hp Hb]; assumption.
Qed.

Section Listing.

Variable toLowerCase : jsstring -> jsstring.
Variable sort_by_name : forall A : Type, (A -> jsstring) -> list A -> list A.
Variable cfg : config.
Variable readdir : jsstring -> option (list dirent).
Variable rs ds : list jsstring.
Variable items : list dirent.
Hypothesis Hv : VIDEO_ROOT cfg = CHAR_FORWARD_SLASH :: join_slash rs.
Hypothesis Hrs : Forall plain rs.
Hypothesis Hds : Forall tidy_name ds.
Hypothesis Hsort : forall A name l, sort_by_name A name l ≡ₚ l.

Local Abbreviation video_ok := (video_ok toLowerCase cfg ds items).
Local Abbreviation folder_ok := (folder_ok ds items).

Lemma child_relPath n :
  tidy_name n ->
  replaceAll_backslash (path_join [join_slash ds; n]) = join_slash (ds ++ [n]).
Proof.
  intros Hn. destruct (tidy_names_join ds Hds) as (Hplain & Hbs).
  rewrite join_relative by (try exact Hplain; apply Hn).
  apply replaceAll_none, join_no_backslash.
  apply Forall_app. split; [exact Hbs | apply Forall_singleton; apply Hn].
Qed.

Lemma browse_entry_ok acc it :
  In it items -> tidy_name (dirent_name it) ->
  Forall folder_ok acc.1 -> Forall video_ok acc.2 ->
  Forall folder_ok (browse_entry toLowerCase (join_slash ds) acc it).1
  /\ Forall video_ok (browse_entry toLowerCase (join_slash ds) acc it).2.
Proof.
  intros Hin Hn Hf Hvid.
  destruct (tidy_names_join ds Hds) as (Hplain & Hbs).
  destruct it as [n | n sub]; cbn [browse_entry dirent_name] in *.
  - destruct (VIDEO_EXTS_has _) eqn:Hext; cbn [negb]; [|split; assumption].
    cbn [fst snd]. split; [exact Hf|].
    apply Forall_app. split; [exact Hvid|]. apply Forall_singleton.
    rewrite (child_relPath n Hn). unfold Browse.video_ok, below. cbn [name].
    split; [|split; [exact Hin | exact Hext]].
    rewrite (root_segments cfg rs Hv Hrs).
    rewrite (index_entry_below cfg rs (ds ++ [n]) Hv Hrs).
    + rewrite List.last_last. reflexivity.
    + apply Forall_app. split; [exact Hplain | apply Forall_singleton; apply Hn].
    + destruct ds; discriminate.
    + apply Forall_app. split; [exact Hbs | apply Forall_singleton; apply Hn].
  - cbn [fst snd]. split; [|exact Hvid].
    apply Forall_app. split; [exact Hf|]. apply Forall_singleton.
    rewrite (child_relPath n Hn). unfold Browse.folder_ok.
    cbn [folder_name folder_relPath].
    split; [reflexivity|]. split; [|eauto].
    apply parent_of_child; [exact Hplain | apply Hn].
Qed.

Lemma browse_fold_ok its acc :
  (forall it, In it its -> In it items) ->
  Forall (fun it => tidy_name (dirent_name it)) its ->
  Forall folder_ok acc.1 -> Forall video_ok acc.2 ->
  Forall folder_ok (fold_left (browse_entry toLowerCase (join_slash ds)) its acc).1
  /\ Forall video_ok (fold_left (browse_entry toLowerCase (join_slash ds)) its acc).2.
Proof.
  intros Hsub Hnames. revert acc Hsub.
  induction Hnames as [|it its Hit _ IH]; intros acc Hsub Hf Hvid; [split; assumption|].
  cbn [fold_left].
  destruct (browse_entry_ok acc it (Hsub it (or_introl eq_refl)) Hit Hf Hvid) as [Hf' Hv'].
  apply IH; [intros it' Hin; apply Hsub; right; exact Hin | exact Hf' | exact Hv'].
Qed.

Lemma browse_dir_joined : browse_dir (Some (join_slash ds)) = join_slash ds.
Proof.
  destruct (tidy_names_join ds Hds) as (Hplain & Hbs).
  unfold browse_dir.
  assert (env_or (Some (join_slash ds)) [] = join_slash ds) as ->
    by (destruct (join_slash ds); reflexivity).
  rewrite replaceAll_none by (apply join_no_backslash; exact Hbs).
  apply strip_relative, join_is_relative. exact Hplain.
Qed.

Lemma browse_listing :
  readdir (CHAR_FORWARD_SLASH :: join_slash (rs ++ ds)) = Some items ->
  Forall (fun it => tidy_name (dirent_name it)) items ->
  exists folders videos,
    browse toLowerCase sort_by_name cfg readdir (Some (join_slash ds))
    = BrowseListing (join_slash ds) (browse_parent (join_slash ds)) folders videos
    /\ Forall folder_ok folders /\ Forall video_ok videos.
Proof.
  intros Hread Hnames.
  destruct (tidy_names_join ds Hds) as (Hplain & Hbs).
  unfold browse. cbv zeta. rewrite browse_dir_joined.
  rewrite Hv, resolve_below, rooted_startsWith by assumption. cbn [negb].
  rewrite Hread.
  destruct (browse_fold_ok items ([], []) (fun _ H => H) Hnames
              (List.Forall_nil _) (List.Forall_nil _)) as [Hf Hvid].
  destruct (fold_left _ items ([], [])) as [folders videos].
  eexists _, _. split; [reflexivity|].
  split; [exact (Permutation_Forall (Permutation_sym (Hsort _ _ _)) Hf)
         | exact (Permutation_Forall (Permutation_sym (Hsort _ _ _)) Hvid)].
Qed.

End Listing.

(** X28.  The folder view agrees with the catalog.  Take a directory of
    the library given by its pieces, where the pieces and the names of the
    entries of the directory are names as [readdir] reports them (not
    empty, without a slash, neither [.] nor [..]) that hold no backslash.
    Then [GET /api/browse] is not refused and lists entries of that
    directory only; each video it lists is, with id, name and [relPath],
    the index entry of that very file, and has a video extension; each
    folder it lists has the directory's path followed by its own name as
    [relPath], and the parent computed from that [relPath] is the directory
    again.  Of the sort only that it permutes its list is used. *)
Theorem browse_agrees_with_the_catalog
    toLowerCase sort_by_name cfg readdir ds items :
  isAbsolute (cwd cfg) = true ->
  (forall A name l, sort_by_name A name l ≡ₚ l) ->
  Forall tidy_name ds ->
  readdir (below (VIDEO_ROOT cfg) ds) = Some items ->
  Forall (fun it => tidy_name (dirent_name it)) items ->
  exists folders videos,
    browse toLowerCase sort_by_name cfg readdir (Some (join_slash ds))
    = BrowseListing (join_slash ds) (browse_parent (join_slash ds)) folders videos
    /\ Forall (video_ok toLowerCase cfg ds items) videos
    /\ Forall (folder_ok ds items) folders.
Proof.
  intros Hcwd Hsort Hds Hread Hnames.
  destruct (video_root_shape cfg Hcwd) as (rs & Hv & Hrs).
  unfold below in Hread. rewrite (root_segments cfg rs Hv Hrs) in Hread.
  destruct (browse_listing toLowerCase sort_by_name cfg readdir rs ds items
              Hv Hrs Hds Hsort Hread Hnames)
    as (folders & videos & Hb & Hf & Hvid).
  exists folders, videos. split; [exact Hb|]. split; assumption.
Qed.

Lemma browse_agrees_with_the_catalog_witness :
  isAbsolute (cwd example_config) = true
  /\ example_readdir (below (VIDEO_ROOT example_config) [js "foo"]) = Some foo_listing
  /\ browse ascii_toLowerCase sort_in_order example_config example_readdir
       (Some (js "foo"))
     = BrowseListing (js "foo") (Some [])
         [Folder (js "extras") (js "foo/extras")] [asset_a]
  /\ exists folders videos,
       browse ascii_toLowerCase sort_in_order example_config example_readdir
         (Some (js "foo"))
       = BrowseListing (js "foo") (browse_parent (js "foo")) folders videos
       /\ Forall (video_ok ascii_toLowerCase example_config [js "foo"] foo_listing) videos.
Proof.
  split; [reflexivity|]. split; [reflexivity|]. split; [vm_compute; reflexivity|].
  destruct (browse_agrees_with_the_catalog ascii_toLowerCase sort_in_order
              example_config example_readdir [js "foo"] foo_listing eq_refl)
    as (folders & videos & Hb & Hvid & _).
  - reflexivity.
  - by_decide.
  - reflexivity.
  - by_decide.
  - exists folders, videos. split; [exact Hb | exact Hvid].
Defined.

(** A directory with a backslash in its name cannot be asked for: line 363
    turns the backslash into a separator, and another directory, or none,
    is read. *)
Example backslash_directory_is_not_addressed :
  browse_dir (Some [97; 92; 98]) = js "a/b".
Proof. reflexivity. Qed.

End BrowseFacts.

(* ===================================================================== *)
(** * The cache directory of a request, and the job that never settles *)
(* ===================================================================== *)

Module PendingFacts.
Import JsString Codec Path Server Quiescence Examples Scenarios.
Import ServerFacts OrchestratorFacts.

Section Hang.

Variable cfg : config.
Variable resolveVideoPathById : jsstring -> jsstring.
Variable mkdirSync_throws : gset jsstring -> jsstring -> bool.

Local Abbreviation getManifest := (getManifest cfg resolveVideoPathById mkdirSync_throws).
Local Abbreviation step := (step cfg resolveVideoPathById mkdirSync_throws).
Local Abbreviation run := (run cfg resolveVideoPathById mkdirSync_throws).
Local Abbreviation reachable := (reachable cfg resolveVideoPathById mkdirSync_throws).

(** ** What the handlers of one job leave of the other jobs *)

Lemma settle_other j1 p t j :
  j <> j1 -> jobs (settle j1 p t).1 !! j = jobs t.1 !! j.
Proof.
  intros Hne. unfold settle. repeat case_match; try reflexivity.
  cbn [fst jobs update_job set_jobs]. apply list_lookup_alter_ne. congruence.
Qed.

Lemma update_other j1 f s j :
  j <> j1 -> jobs (update_job j1 f s) !! j = jobs s !! j.
Proof. intros Hne. cbn [jobs update_job set_jobs]. apply list_lookup_alter_ne. congruence. Qed.

Lemma encoder_close_other j1 code s j :
  j <> j1 -> jobs (encoder_close j1 code s).1 !! j = jobs s !! j.
Proof.
  intros Hne. unfold encoder_close.
  repeat case_match; rewrite ?settle_other by exact Hne; cbn [fst];
    rewrite ?settle_other by exact Hne; cbn [fst];
    rewrite ?update_other by exact Hne; reflexivity.
Qed.

Lemma encoder_error_other j1 s j :
  j <> j1 -> jobs (encoder_error j1 s).1 !! j = jobs s !! j.
Proof.
  intros Hne. unfold encoder_error.
  repeat case_match; rewrite ?settle_other by exact Hne; cbn [fst];
    rewrite ?update_other by exact Hne; reflexivity.
Qed.

Lemma waitM3U8_tick_other j1 s j :
  j <> j1 -> jobs (waitM3U8_tick j1 s).1 !! j = jobs s !! j.
Proof.
  intros Hne. unfold waitM3U8_tick.
  repeat case_match; rewrite ?settle_other by exact Hne; cbn [fst];
    rewrite ?update_other by exact Hne; reflexivity.
Qed.

(** ** A job whose children are quiet and whose interval is cleared *)

Section Silent.

Variable j : nat.
Variable jb : job.
Hypothesis Hwait : waitM3U8 jb = false.

Local Abbreviation quiet := (quiet j).

Lemma quiet_spawn cs cmd o :
  quiet cs -> job_of_owner o <> Some j -> quiet (cs ++ [Child cmd o Running]).
Proof.
  intros Hq Ho pid c Hc Hj. apply lookup_app_Some in Hc as [Hc | [_ Hc]].
  - exact (Hq pid c Hc Hj).
  - apply list_lookup_singleton_Some in Hc as [_ <-]. contradiction.
Qed.

Lemma quiet_status cs pid c st :
  quiet cs -> cs !! pid = Some c ->
  job_of_owner (child_owner c) <> Some j \/ st = Closed ->
  quiet (alter (set_child_status st) pid cs).
Proof.
  intros Hq Hpid Hst pid' c' Hc' Hj.
  destruct (decide (pid' = pid)) as [-> | Hne].
  - rewrite list_lookup_alter_eq, Hpid in Hc'. injection Hc' as <-.
    cbn [set_child_status child_owner child_status_of] in *.
    destruct Hst as [Hst | ->]; [contradiction|]. split; [discriminate | reflexivity].
  - rewrite list_lookup_alter_ne in Hc' by congruence. exact (Hq pid' c' Hc' Hj).
Qed.

Lemma silent_step s e s' :
  silent j jb s -> step s e = Some s' -> silent j jb s'.
Proof.
  intros [Hjob Hq] Hstep.
  assert (j < length (jobs s))%nat as Hlt by (apply lookup_lt_Some in Hjob; exact Hjob).
  assert (forall t : server, jobs t !! j = Some jb -> quiet (children t) -> silent j jb t)
    as Hdone by (intros t H1 H2; split; assumption).
  destruct e as [id0|id0|pid|pid code|j0|rid|p|p]; cbn [Server.step] in Hstep.
  - (* GetManifest *)
    injection Hstep as <-. unfold Server.getManifest, ensureHls.
    destruct (hlsJobs s !! id0); [apply Hdone; assumption|].
    unfold executor_start.
    destruct (ensureDir _ _ _) as [d|];
      [|apply Hdone; [apply lookup_app_l_Some; exact Hjob | exact Hq]].
    cbn [disk set_disk runningHls].
    destruct (existsSync _ _);
      [apply Hdone; [apply lookup_app_l_Some; exact Hjob | exact Hq]|].
    destruct (MAX_HLS <=? runningHls s);
      [apply Hdone; [apply lookup_app_l_Some; exact Hjob | exact Hq]|].
    apply Hdone; [apply lookup_app_l_Some; exact Hjob|].
    apply quiet_spawn; [exact Hq|]. cbn. intros [= E].
    cbn [jobs set_runningHls set_disk] in E. lia.
  - (* GetThumb *)
    injection Hstep as <-. unfold getThumb.
    repeat case_match; try (apply Hdone; assumption).
    apply Hdone; [exact Hjob|]. apply quiet_spawn; [exact Hq | discriminate].
  - (* ChildError *)
    unfold on_error in Hstep.
    destruct (children s !! pid) as [[cmd o []]|] eqn:Hpid; try discriminate.
    injection Hstep as <-.
    assert (job_of_owner o <> Some j) as Ho.
    { intros Ho. destruct (Hq pid _ Hpid Ho) as [H _]. apply H. reflexivity. }
    assert (quiet (alter (set_child_status Failed) pid (children s))) as Hq'
      by (apply (quiet_status _ _ _ _ Hq Hpid); left; exact Ho).
    destruct o as [j1 []|j1|rid|rid]; cbn [job_of_owner] in Ho.
    + apply Hdone; [exact Hjob|]. apply quiet_spawn; [exact Hq' | exact Ho].
    + apply Hdone.
      * unfold executor_after_aprobe. rewrite update_other by congruence. exact Hjob.
      * apply quiet_spawn; [exact Hq' | exact Ho].
    + apply Hdone.
      * change (jobs (drain cfg (encoder_error j1 (set_status pid Failed s))))
          with (jobs (encoder_error j1 (set_status pid Failed s)).1).
        rewrite encoder_error_other by congruence. exact Hjob.
      * change (children (drain cfg (encoder_error j1 (set_status pid Failed s))))
          with (children (encoder_error j1 (set_status pid Failed s)).1).
        destruct (encoder_error_shape j1 (set_status pid Failed s)) as [-> _].
        exact Hq'.
    + apply Hdone; [exact Hjob|]. apply quiet_spawn; [exact Hq' | discriminate].
    + unfold thumb_error.
      match goal with
      | |- context [answer ?r ?f ?t] =>
          destruct (answer_shape r f t) as [Hc Hj]; apply Hdone; [rewrite Hj | rewrite Hc]
      end; [exact Hjob | exact Hq'].
  - (* ChildClose *)
    unfold on_close in Hstep.
    destruct (children s !! pid) as [[cmd o st]|] eqn:Hpid; [|discriminate].
    assert (quiet (alter (set_child_status Closed) pid (children s))) as Hq'
      by (apply (quiet_status _ _ _ _ Hq Hpid); right; reflexivity).
    destruct (decide (job_of_owner o = Some j)) as [Hmine | Ho].
    + destruct (Hq pid _ Hpid Hmine) as [Hrun Henc].
      cbn [child_owner child_status_of] in Hrun, Henc.
      destruct o as [j1 v|j1|rid|rid]; try discriminate; injection Hmine as ->.
      * destruct st; try contradiction; try discriminate.
        injection Hstep as <-. destruct v; apply Hdone; assumption.
      * rewrite (Henc eq_refl) in Hstep. discriminate.
    + destruct st; try discriminate; injection Hstep as <-;
        destruct o as [j1 []|j1|rid|rid]; cbn [job_of_owner] in Ho;
        try (apply Hdone; [exact Hjob | exact Hq']);
        try (apply Hdone; [exact Hjob|]; apply quiet_spawn; [exact Hq' | exact Ho]);
        try (apply Hdone;
             [unfold executor_after_aprobe; rewrite update_other by congruence; exact Hjob
             | apply quiet_spawn; [exact Hq' | exact Ho]]);
        try (apply Hdone;
             [change (jobs (drain cfg (encoder_close j1 code (set_status pid Closed s))))
                with (jobs (encoder_close j1 code (set_status pid Closed s)).1);
              rewrite encoder_close_other by congruence; exact Hjob
             | change (children (drain cfg (encoder_close j1 code (set_status pid Closed s))))
                 with (children (encoder_close j1 code (set_status pid Closed s)).1);
               destruct (encoder_close_shape j1 code (set_status pid Closed s)) as [-> _];
               exact Hq']);
        try (apply Hdone; [exact Hjob|]; apply quiet_spawn; [exact Hq' | discriminate]);
        (unfold thumb_close;
         match goal with
         | |- context [answer ?r ?f ?t] =>
             destruct (answer_shape r f t) as [Hc Hj]; apply Hdone; [rewrite Hj | rewrite Hc]
         end; [exact Hjob | exact Hq']).
  - (* IntervalTick *)
    destruct (jobs s !! j0) as [jb0|] eqn:E; [|discriminate].
    destruct (waitM3U8 jb0) eqn:Hw0; [|discriminate]. injection Hstep as <-.
    assert (j <> j0) as Hne by (intros ->; congruence).
    apply Hdone.
    + change (jobs (drain cfg (waitM3U8_tick j0 s))) with (jobs (waitM3U8_tick j0 s).1).
      rewrite waitM3U8_tick_other by exact Hne. exact Hjob.
    + change (children (drain cfg (waitM3U8_tick j0 s)))
        with (children (waitM3U8_tick j0 s).1).
      destruct (waitM3U8_tick_shape j0 s) as [-> _]. exact Hq.
  - (* HandlerTick *)
    destruct (requests s !! rid) as [[]|] eqn:E; try discriminate.
    injection Hstep as <-. unfold manifest_poll. case_match; apply Hdone; assumption.
  - injection Hstep as <-. apply Hdone; assumption.
  - injection Hstep as <-. apply Hdone; assumption.
Qed.

End Silent.

(** ** The job that never settles *)

Lemma resume_pending jbs id j jb :
  jbs !! j = Some jb -> promise jb = Pending ->
  resume cfg jbs (AwaitJob id j) = AwaitJob id j.
Proof. intros Hj Hp. unfold resume. rewrite Hj. cbn. rewrite Hp. reflexivity. Qed.

Lemma silent_forever j jb s0 es s' :
  waitM3U8 jb = false -> promise jb = Pending ->
  silent j jb s0 -> registry_inv s0 ->
  run s0 es = Some s' ->
  silent j jb s' /\ registry_inv s'
  /\ forall rid id, requests s0 !! rid = Some (AwaitJob id j) ->
                    requests s' !! rid = Some (AwaitJob id j).
Proof.
  intros Hwait Hp Hsilent Hreg Hrun.
  refine (run_invariant cfg resolveVideoPathById mkdirSync_throws
            (fun s => silent j jb s /\ registry_inv s
                      /\ forall rid id, requests s0 !! rid = Some (AwaitJob id j) ->
                                        requests s !! rid = Some (AwaitJob id j))
            _ es s0 s' _ Hrun).
  - intros s e s1 (Hs & Hr & Hreq) Hstep.
    pose proof (silent_step j jb Hwait s e s1 Hs Hstep) as Hs1.
    split; [exact Hs1|].
    split; [exact (registry_inv_step cfg resolveVideoPathById mkdirSync_throws s e s1 Hr Hstep)|].
    intros rid id H0. specialize (Hreq rid id H0).
    destruct (step_awaiting cfg resolveVideoPathById mkdirSync_throws s e s1 Hstep) as [H | H];
      rewrite (H rid id j Hreq); [reflexivity|].
    f_equal. apply (resume_pending _ id j jb); [apply Hs1 | exact Hp].
  - split; [exact Hsilent|]. split; [exact Hreg|]. auto.
Qed.

(** X30.  An encoder that exits with code zero without having written
    the manifest hangs its asset: the job was neither released nor is it
    settled by the exit, the interval is cleared, and from then on, whatever
    happens, the job stays pending and registered.  Every request that
    waits for it keeps waiting, and every later manifest request for the
    id is attached to the same job and spawns nothing. *)
Theorem silent_encoder_exit_hangs_the_asset s pid cmd j jb :
  reachable s ->
  children s !! pid = Some (Child cmd (JobEncoder j) Running) ->
  jobs s !! j = Some jb -> promise jb = Pending -> released jb = false ->
  existsSync (disk s) (outM3u8 jb) = false ->
  exists closed,
    step s (ChildClose pid 0) = Some closed
    /\ forall es s',
         run closed es = Some s' ->
         promise <$> jobs s' !! j = Some Pending
         /\ hlsJobs s' !! job_id jb = Some j
         /\ (forall rid id, requests closed !! rid = Some (AwaitJob id j) ->
                            requests s' !! rid = Some (AwaitJob id j))
         /\ exists s'',
              step s' (GetManifest (job_id jb)) = Some s''
              /\ requests s'' !! length (requests s') = Some (AwaitJob (job_id jb) j)
              /\ children s'' = children s'.
Proof.
  intros Hreach Hchild Hjob Hp Hr Hdisk.
  assert (exists closed, step s (ChildClose pid 0) = Some closed) as [closed Hstep].
  { cbn [Server.step]. unfold on_close. rewrite Hchild. eauto. }
  exists closed. split; [exact Hstep|].
  set (jb' := set_waitM3U8 false jb).
  assert (jobs closed !! j = Some jb'
          /\ children closed = alter (set_child_status Closed) pid (children s))
    as [Hjob' Hchildren].
  { cbn [Server.step] in Hstep. unfold on_close in Hstep. rewrite Hchild in Hstep.
    injection Hstep as <-.
    unfold encoder_close, settle, is_released, drain. turn_simpl.
    cbn [Z.eqb]. turn_simpl. split; reflexivity. }
  assert (silent j jb' closed) as Hsilent.
  { split; [exact Hjob'|]. rewrite Hchildren.
    destruct (children_inv_reachable cfg resolveVideoPathById mkdirSync_throws s Hreach)
      as (_ & K1 & K3 & K4).
    intros pid' c' Hc' Hmine.
    destruct (decide (pid' = pid)) as [-> | Hne].
    - rewrite list_lookup_alter_eq, Hchild in Hc'. injection Hc' as <-.
      cbn. split; [discriminate | reflexivity].
    - rewrite list_lookup_alter_ne in Hc' by congruence.
      destruct c' as [cmd' o' st']. cbn [child_owner child_status_of] in *.
      destruct o' as [j1 v|j1|rid|rid]; try discriminate; injection Hmine as ->.
      + split; [|discriminate]. intros ->.
        destruct v.
        * exact (proj2 (K3 pid' _ j Hc' eq_refl eq_refl pid _ Hchild) eq_refl).
        * exact (K4 pid' _ j Hc' eq_refl eq_refl pid _ Hchild eq_refl).
      + exfalso. apply Hne.
        apply (K1 pid' pid _ _ Hc' Hchild); [reflexivity | cbn; eauto]. }
  assert (registry_inv closed) as Hreg.
  { apply (registry_inv_step cfg resolveVideoPathById mkdirSync_throws s (ChildClose pid 0) closed);
      [|exact Hstep].
    apply (registry_inv_reachable cfg resolveVideoPathById mkdirSync_throws). exact Hreach. }
  intros es s' Hrun.
  destruct (silent_forever j jb' closed es s' eq_refl Hp Hsilent Hreg Hrun)
    as ([Hj' _] & [_ Inv2] & Hreq).
  assert (hlsJobs s' !! job_id jb = Some j) as Hentry
    by exact (Inv2 j jb' Hj' Hp).
  split; [rewrite Hj'; cbn; rewrite Hp; reflexivity|].
  split; [exact Hentry|]. split; [exact Hreq|].
  eexists. split; [reflexivity|].
  destruct (getManifest_attached cfg resolveVideoPathById mkdirSync_throws s' (job_id jb) j jb'
              Hentry Hj' Hp) as (Hc & _ & _ & _ & _ & _ & Hnew).
  split; [exact Hnew | exact Hc].
Qed.


End Hang.


(** The directory need not lie in the cache: the id is joined to the cache
    root as it comes, and [..] pieces lead out of it. *)
Example cache_directory_outside_the_cache :
  outDir_of example_config (js "../../escape") = js "/srv/escape"
  /\ existsSync
       (disk (getManifest example_config example_resolve example_throws
                (js "../../escape") full_state))
       (js "/srv/escape") = true.
Proof. split; vm_compute; reflexivity. Qed.

(** A directory the file system refuses: the request ends by throwing, and
    no 202 is sent although every slot is taken. *)
Example refused_directory_rejects_the_job :
  requests (getManifest example_config example_resolve example_throws [0] full_state)
    !! 0%nat = Some (Threw MkdirError)
  /\ disk (getManifest example_config example_resolve example_throws [0] full_state) = ∅.
Proof. split; vm_compute; reflexivity. Qed.

Lemma silent_encoder_exit_hangs_the_asset_witness :
  existsSync (disk encoding_state) (outM3u8 encoding_job) = false
  /\ exists closed,
       step example_config example_resolve example_throws encoding_state (ChildClose 2 0)
       = Some closed
       /\ forall es s',
            run example_config example_resolve example_throws closed es = Some s' ->
            promise <$> jobs s' !! 0%nat = Some Pending
            /\ hlsJobs s' !! example_id = Some 0%nat.
Proof.
  split; [vm_compute; reflexivity|].
  destruct (silent_encoder_exit_hangs_the_asset example_config example_resolve example_throws
              encoding_state 2 FFMPEG 0 encoding_job encoding_state_reachable)
    as (closed & Hstep & Hhang).
  - vm_compute. reflexivity.
  - vm_compute. reflexivity.
  - reflexivity.
  - reflexivity.
  - vm_compute. reflexivity.
  - exists closed. split; [exact Hstep|].
    intros es s' Hrun. destruct (Hhang es s' Hrun) as (Hp & Hreg & _).
    split; [exact Hp | exact Hreg].
Defined.

End PendingFacts.
